(** * Austria First radio monitor: live segmentation and broadcast assembly

    A shallow embedding of the monitor service ([src/index.ts]), of the
    transcription helpers ([src/transcribe.ts]) and of the pure parts of the
    archive scraper, followed by the properties of the metadata sampler, the
    chunk classifier, the broadcast assembler, the transcription gateway,
    the index builder, the recorder watchdog, the segment scanner and the
    scraper.

    Conventions.
    - Instants and durations are JavaScript numbers holding integral
      milliseconds; they are modelled as [Z].
    - JavaScript strings are sequences of UTF-16 code units ([jsstring]);
      file-system paths, ids and ISO timestamps are kept as [string].
    - Everything that lives outside the program (the clock formatting, the
      ffmpeg subprocesses, the Groq endpoint, floating-point rounding, the
      JSON parser, the collation of strings and the sort of the engine where
      its outcome is the engine's own) is gathered in the [Platform]
      interface; every definition and theorem is parametric in it.
    - Asynchronous code is modelled by explicit state passing: a handler runs
      up to its next [await], where it is parked as a [Task] until the event
      loop resumes it. *)

From Stdlib Require Import ZArith QArith Qround Lia List Ascii String Bool Permutation Sorted.
From stdpp Require Import base option list gmap strings.

Import ListNotations.
Local Open Scope Z_scope.

(* ===================================================================== *)
(** * Part I: the embedding                                               *)
(* ===================================================================== *)

(** ** JavaScript strings *)

(** A JavaScript string: its UTF-16 code units. *)
Definition jsstring : Type := list N.

(** The code units of an ASCII literal. *)
Definition js (s : string) : jsstring :=
  List.map N_of_ascii (list_ascii_of_string s).

(** Truthiness of [string | null]: [null] and the empty string are falsy. *)
Definition truthy (o : option jsstring) : bool :=
  match o with
  | Some (_ :: _) => true
  | _ => false
  end.

(** [x || null] on [string | undefined]. *)
Definition or_null (o : option jsstring) : option jsstring :=
  if truthy o then o else None.

(** ** Metadata sampler ([index.ts], lines 23-72) *)

Record MetadataSample := {
  timestamp : Z;
  wallClock : string;
  artist : option jsstring;
  title : option jsstring;
}.

Inductive MetaStatus := music | speech.

(** The shared state of the sampler: [metadataBuffer] and [lastMetaStatus]. *)
Record Sampler := {
  metadataBuffer : list MetadataSample;
  lastMetaStatus : MetaStatus;
}.

Definition POLL_INTERVAL_MS : Z := 1000.
Definition CHUNK_DURATION_SECS : Z := 120.

(** The JSON body of the now-playing endpoint, as far as the code reads it. *)
Record NowPlaying := {
  np_artist : option jsstring;
  np_title : option jsstring;
}.

(** [fetchMetadata]: [None] stands for a failed fetch or an unparsable body,
    which the [catch] turns into "no artist, no title". *)
Definition fetchMetadata (response : option NowPlaying)
  : option jsstring * option jsstring :=
  match response with
  | Some data => (or_null (np_artist data), or_null (np_title data))
  | None => (None, None)
  end.

(** The [while] loop of the poller: drop leading samples older than the
    cutoff. *)
Fixpoint shiftWhileOld (cutoff : Z) (buf : list MetadataSample)
  : list MetadataSample :=
  match buf with
  | [] => []
  | s :: rest =>
      if timestamp s <? cutoff then shiftWhileOld cutoff rest else buf
  end.

Definition RETENTION_MS : Z := 15 * 60 * 1000.

(** One firing of the poller's interval callback, from the point where the
    fetch has settled: [now] is [Date.now()], [iso] is
    [new Date(now).toISOString()]. *)
Definition pollerTick (response : option NowPlaying) (now : Z) (iso : string)
    (st : Sampler) : Sampler :=
  let meta := fetchMetadata response in
  let pushed := metadataBuffer st ++
    [ {| timestamp := now; wallClock := iso;
         artist := fst meta; title := snd meta |} ] in
  let status := if truthy (fst meta) then music else speech in
  let cutoff := now - RETENTION_MS in
  {| metadataBuffer := shiftWhileOld cutoff pushed;
     lastMetaStatus := status |}.

(** Timestamps of a buffer are non-decreasing in insertion order. *)
Definition nonDecreasing (buf : list MetadataSample) : Prop :=
  StronglySorted (fun a b => timestamp a <= timestamp b) buf.

(** ** Chunk classifier ([index.ts], lines 74-93) *)

Definition inRange (startMs endMs : Z) (s : MetadataSample) : bool :=
  (startMs <=? timestamp s) && (timestamp s <=? endMs).

Definition noArtist (s : MetadataSample) : bool := negb (truthy (artist s)).

Definition chunkHasSpeech (buf : list MetadataSample) (startMs endMs : Z)
  : bool :=
  let samples := List.filter (inRange startMs endMs) buf in
  existsb noArtist samples.

(** The quotient of the two array lengths is a double; both lengths are far
    below 2^53, so the exact rational stands for it (correctly rounded
    division keeps the quotient inside [0,1] and keeps it positive). *)
Definition getChunkSpeechRatio (buf : list MetadataSample) (startMs endMs : Z)
  : Q :=
  let samples := List.filter (inRange startMs endMs) buf in
  if (length samples =? 0)%nat then 0%Q
  else
    let speechSamples := List.filter noArtist samples in
    (Z.of_nat (length speechSamples) # Pos.of_nat (length samples))%Q.

(** ** JavaScript string and array primitives used by the code *)

(** The code units matched by the regular expression class [\s] and removed
    by [String.prototype.trim]: ECMAScript WhiteSpace and LineTerminator. *)
Definition isWhiteSpace (c : N) : bool :=
  ((9 <=? c) && (c <=? 13) || (c =? 32) || (c =? 160) || (c =? 5760)
   || ((8192 <=? c) && (c <=? 8202)) || (c =? 8232) || (c =? 8233)
   || (c =? 8239) || (c =? 8287) || (c =? 12288) || (c =? 65279))%N.

Fixpoint dropWhile {A} (p : A -> bool) (l : list A) : list A :=
  match l with
  | [] => []
  | x :: l' => if p x then dropWhile p l' else l
  end.

(** [s.trim()] *)
Definition trim (s : jsstring) : jsstring :=
  rev (dropWhile isWhiteSpace (rev (dropWhile isWhiteSpace s))).

(** [arr.join(sep)] on an array of strings. *)
Fixpoint joinWith (sep : jsstring) (l : list jsstring) : jsstring :=
  match l with
  | [] => []
  | [x] => x
  | x :: l' => x ++ sep ++ joinWith sep l'
  end.

(** [s.split(/\s+/)]: the pieces of [s] between the maximal runs of white
    space, empty pieces at either end included. [cur] is the piece being read
    (reversed), [inWs] tells that the previous code unit was white space. *)
Fixpoint splitWsFrom (cur : jsstring) (inWs : bool) (s : jsstring)
  : list jsstring :=
  match s with
  | [] => [rev cur]
  | c :: s' =>
      if isWhiteSpace c then
        if inWs then splitWsFrom [] true s'
        else rev cur :: splitWsFrom [] true s'
      else splitWsFrom (c :: cur) false s'
  end.

Definition splitWs (s : jsstring) : list jsstring := splitWsFrom [] false s.

(** [arr.slice(0, e)] for an integral [e]: a negative [e] counts from the
    end of the array. *)
Definition slice0 {A} (e : Z) (l : list A) : list A :=
  let len := Z.of_nat (length l) in
  let final := if e <? 0 then Z.max (len + e) 0 else Z.min e len in
  firstn (Z.to_nat final) l.

(** ** Transcripts ([transcribe.ts], lines 1-37) *)

Definition MAX_FILE_SIZE : Z := 20 * 1024 * 1024.
Definition SEGMENT_DURATION_SECS : Z := 480.

Record TranscriptSegment := {
  seg_start : Z;       (* milliseconds *)
  seg_end : Z;         (* milliseconds *)
  seg_text : jsstring;
}.

(** The fields of a Groq segment that the code reads; [F] is the type of
    JavaScript numbers that are not integral (seconds). *)
Record GroqSegment (F : Type) := {
  g_start : F;         (* seconds *)
  g_end : F;           (* seconds *)
  g_text : jsstring;
}.
Arguments g_start {F}.
Arguments g_end {F}.
Arguments g_text {F}.

Record GroqTranscriptionResult (F : Type) := {
  r_duration : F;      (* seconds *)
  r_segments : list (GroqSegment F);
}.
Arguments r_duration {F}.
Arguments r_segments {F}.

Record LiveBroadcast := {
  b_id : string;
  b_title : jsstring;
  b_timestamp : string;
  b_duration : Z;      (* ms *)
  b_audioFile : string;
  b_transcript : list TranscriptSegment;
}.

Record ChunkInfo := {
  file : string;
  startTime : Z;
  duration : Z;
  hasSpeech : bool;
}.

(** ** Title generation ([transcribe.ts], lines 227-235) *)

Definition titleWords (segments : list TranscriptSegment) : list jsstring :=
  let fullText := joinWith (js " ") (List.map seg_text segments) in
  List.filter (fun w => (0 <? length w)%nat) (splitWs fullText).

Definition generateTitle (segments : list TranscriptSegment) (maxWords : Z)
  : jsstring :=
  let words := titleWords segments in
  let title := joinWith (js " ") (slice0 maxWords words) in
  title ++ (if maxWords <? Z.of_nat (length words) then js "..." else []).

(** The default value of the [maxWords] parameter. *)
Definition generateTitleDefault (segments : list TranscriptSegment)
  : jsstring :=
  generateTitle segments 10.

(** The words of a text, read off the text itself: the maximal runs of code
    units that are not white space. [cur] is the word being read, reversed. *)
Fixpoint wordsFrom (cur : jsstring) (s : jsstring) : list jsstring :=
  match s with
  | [] => match cur with [] => [] | _ => [rev cur] end
  | c :: s' =>
      if isWhiteSpace c then
        match cur with
        | [] => wordsFrom [] s'
        | _ => rev cur :: wordsFrom [] s'
        end
      else wordsFrom (c :: cur) s'
  end.

Definition wordsOf (s : jsstring) : list jsstring := wordsFrom [] s.

(** The concatenated text of a transcript. *)
Definition transcriptText (segments : list TranscriptSegment) : jsstring :=
  joinWith (js " ") (List.map seg_text segments).

(** ** Matching characters *)

(** [s.startsWith(pre)] and [s.endsWith(suf)] on the characters. *)
Fixpoint startsWith (pre cs : list ascii) : bool :=
  match pre, cs with
  | [], _ => true
  | p :: pre', c :: cs' => Ascii.eqb p c && startsWith pre' cs'
  | _ :: _, [] => false
  end.

Definition endsWith (suf cs : list ascii) : bool :=
  startsWith (rev suf) (rev cs).

(** What is left of [cs] after the literal [pre], when [cs] starts with it. *)
Fixpoint afterLiteral (pre cs : list ascii) : option (list ascii) :=
  match pre, cs with
  | [], _ => Some cs
  | p :: pre', c :: cs' =>
      if Ascii.eqb p c then afterLiteral pre' cs' else None
  | _ :: _, [] => None
  end.

Definition quote : ascii := "'"%char.

(** The longest run matched by [[^']*], and what follows it. *)
Fixpoint spanNotQuote (cs : list ascii) : list ascii * list ascii :=
  match cs with
  | [] => ([], [])
  | c :: cs' =>
      if Ascii.eqb c quote then ([], cs)
      else let (run, rest) := spanNotQuote cs' in (c :: run, rest)
  end.

(** [\d] *)
Definition isDigit (c : ascii) : bool :=
  ((48 <=? N_of_ascii c) && (N_of_ascii c <=? 57))%N.

(** ** Files, subprocesses and JSON values *)

(** What a path holds. *)
Inductive Node :=
  | File (data : list Byte.byte)
  | Dir.

Abbreviation FS := (gmap string Node).

(** How an ffmpeg subprocess ends: the [exit] event with a numeric code,
    the [exit] event with [null] for a code (killed by a signal), or the
    [error] event (the process could not be started). *)
Inductive FfmpegExit :=
  | Exited (code : Z)
  | Signalled
  | NotStarted.

(** What reading [v.timestamp] gives on a value [v] that [JSON.parse]
    returned: the read throws on [null]; a property that is missing or holds
    anything but a string has no [localeCompare] to call. *)
Inductive TimestampProperty :=
  | OfNull
  | NotAString
  | Timestamp (s : string).

(** ** The platform: what the program calls but does not define *)

(** [double]: the JavaScript numbers that hold seconds. [secondsToMs x] is
    [Math.round(x * 1000)]. [toISOString t] is
    [new Date(t).toISOString()]. [ffmpegSegment] is the [-f segment] run of
    [splitAudioFile]: the contents of the segment files in the order the
    function resolves them (sorted by name), or [None] when ffmpeg fails.
    [ffmpegConcat fs listFile outputPath] is the [-f concat] run of
    [mergeAudioFiles]: the tool reads the list file and resolves its entries
    by its own rules; the result is how the subprocess ends and the bytes it
    leaves at the output path, if it writes there. [groqTranscribe] is the
    Whisper endpoint, [None] when the call throws. [stringifyBroadcast] is
    [JSON.stringify(broadcast, null, 2)]. [json] is the type of the values
    [JSON.parse] returns, of whatever shape; [jsonParse] is [JSON.parse] on
    the text of a file, [None] when it throws; [timestampOf v] is what
    reading [v.timestamp] gives; [stringifyIndex] is
    [JSON.stringify(values, null, 2)]. [collate] is [localeCompare] on two
    strings that are not both ISO timestamps: a collation, hence a
    consistent order. [engineSort] is what
    [Array.prototype.sort] does with the comparator of the index builder on
    two or more values none of which is [null] and one of which has no
    string for a timestamp: the calls the engine makes, and so whether one
    of them throws, are its own. *)
Class Platform := {
  double : Type;
  secondsToMs : double -> Z;
  toISOString : Z -> string;
  ffmpegSegment : list Byte.byte -> option (list (list Byte.byte));
  ffmpegConcat : FS -> string -> string -> FfmpegExit * option (list Byte.byte);
  groqTranscribe : list Byte.byte -> option (GroqTranscriptionResult double);
  stringifyBroadcast : LiveBroadcast -> list Byte.byte;
  json : Type;
  jsonParse : list Byte.byte -> option json;
  timestampOf : json -> TimestampProperty;
  stringifyIndex : list json -> list Byte.byte;
  collate : string -> string -> Z;
  engineSort : list json -> option (list json);
}.

(** ** The file system *)

Inductive Failure :=
  | ENOENT
  | EISDIR
  | ENOTDIR
  | EEXIST
  | NoInputFiles      (* "No input files to merge" *)
  | FfmpegFailed      (* non-zero exit code or spawn error *)
  | GroqFailed
  | JsonSyntaxError
  | TypeError.

Inductive Result (A : Type) :=
  | Ok (a : A)
  | Err (e : Failure).
Arguments Ok {A}.
Arguments Err {A}.

(** An asynchronous computation run to completion: it reads and writes the
    file system and resolves ([Ok]) or rejects ([Err]); what it wrote before
    rejecting stays written. *)
Definition IO (A : Type) : Type := FS -> Result A * FS.

Definition io_ret {A} (a : A) : IO A := fun fs => (Ok a, fs).

Definition io_bind {A B} (c : IO A) (k : A -> IO B) : IO B :=
  fun fs =>
    match c fs with
    | (Ok a, fs') => k a fs'
    | (Err e, fs') => (Err e, fs')
    end.

Definition throw {A} (e : Failure) : IO A := fun fs => (Err e, fs).

(** [c.catch(() => {})] and [try { c } catch {}]. *)
Definition swallow {A} (c : IO A) : IO unit :=
  fun fs => (Ok tt, snd (c fs)).

(** [try { c } catch { }] keeping the value when there is one. *)
Definition attempt {A} (c : IO A) : IO (option A) :=
  fun fs =>
    match c fs with
    | (Ok a, fs') => (Ok (Some a), fs')
    | (Err _, fs') => (Ok None, fs')
    end.

Notation "x <- c ;; k" := (io_bind c (fun x => k))
  (at level 100, c at next level, right associativity).
Notation "c ;;; k" := (io_bind c (fun _ => k))
  (at level 100, right associativity).

(** *** Paths *)

Definition slash : ascii := "/"%char.

(** [path.join(a, b)] on normalised paths. *)
Definition pathJoin (a b : string) : string := (a ++ "/" ++ b)%string.

(** The characters after the last slash, and those before it, read on the
    reversed path. *)
Fixpoint afterSlashRev (cs : list ascii) : list ascii :=
  match cs with
  | [] => []
  | c :: cs' => if Ascii.eqb c slash then [] else c :: afterSlashRev cs'
  end.

Fixpoint beforeSlashRev (cs : list ascii) : list ascii :=
  match cs with
  | [] => []
  | c :: cs' => if Ascii.eqb c slash then cs' else beforeSlashRev cs'
  end.

(** [path.basename(p)] *)
Definition basename (p : string) : string :=
  string_of_list_ascii (rev (afterSlashRev (rev (list_ascii_of_string p)))).

(** [path.dirname(p)]; the empty string stands for the working directory or
    the root. *)
Definition dirname (p : string) : string :=
  string_of_list_ascii (rev (beforeSlashRev (rev (list_ascii_of_string p)))).

(** The proper ancestors of a path followed by the path itself. [seen] is
    the prefix already read, reversed. *)
Fixpoint prefixesAtSlash (seen : list ascii) (cs : list ascii) : list string :=
  match cs with
  | [] => [string_of_list_ascii (rev seen)]
  | c :: cs' =>
      (if Ascii.eqb c slash && negb (Nat.eqb (length seen) 0)
       then [string_of_list_ascii (rev seen)] else [])
      ++ prefixesAtSlash (c :: seen) cs'
  end.

Definition ancestorsAndSelf (p : string) : list string :=
  prefixesAtSlash [] (list_ascii_of_string p).

(** *** Operations of [fs] and [fs/promises] *)

Definition isDir (fs : FS) (p : string) : bool :=
  match fs !! p with Some Dir => true | _ => false end.

Definition isFile (fs : FS) (p : string) : bool :=
  match fs !! p with Some (File _) => true | _ => false end.

(** The working directory and the root always exist. *)
Definition parentExists (fs : FS) (p : string) : bool :=
  String.eqb (dirname p) "" || isDir fs (dirname p).

Definition readFile (p : string) : IO (list Byte.byte) :=
  fun fs =>
    match fs !! p with
    | Some (File data) => (Ok data, fs)
    | Some Dir => (Err EISDIR, fs)
    | None => (Err ENOENT, fs)
    end.

Definition writeFile (p : string) (data : list Byte.byte) : IO unit :=
  fun fs =>
    if isDir fs p then (Err EISDIR, fs)
    else if parentExists fs p then (Ok tt, <[p := File data]> fs)
    else (Err ENOENT, fs).

Definition unlink (p : string) : IO unit :=
  fun fs =>
    match fs !! p with
    | Some (File _) => (Ok tt, delete p fs)
    | Some Dir => (Err EISDIR, fs)
    | None => (Err ENOENT, fs)
    end.

(** [fs.mkdir(p, { recursive: true })] *)
Definition mkdirRecursive (p : string) : IO unit :=
  fun fs =>
    let dirs := ancestorsAndSelf p in
    if existsb (isFile fs) dirs then (Err EEXIST, fs)
    else (Ok tt, fold_left (fun acc d => <[d := Dir]> acc) dirs fs).

Definition copyFile (src dst : string) : IO unit :=
  data <- readFile src ;; writeFile dst data.

Definition existsSync (p : string) : IO bool :=
  fun fs => (Ok (bool_decide (is_Some (fs !! p))), fs).

Record Dirent := {
  d_name : string;
  d_isDirectory : bool;
}.

(** [fs.readdir(p, { withFileTypes: true })]; the order of the entries is
    the one the map enumerates its keys in. *)
Definition readdir (p : string) : IO (list Dirent) :=
  fun fs =>
    match fs !! p with
    | Some Dir =>
        (Ok (List.map
               (fun kv => {| d_name := basename (fst kv);
                             d_isDirectory :=
                               match snd kv with Dir => true | _ => false end |})
               (List.filter (fun kv => String.eqb (dirname (fst kv)) p)
                            (map_to_list fs))), fs)
    | Some (File _) => (Err ENOTDIR, fs)
    | None => (Err ENOENT, fs)
    end.

(** [fs.stat(p).size]; a directory reports its block size. *)
Definition getFileSize (p : string) : IO Z :=
  fun fs =>
    match fs !! p with
    | Some (File data) => (Ok (Z.of_nat (length data)), fs)
    | Some Dir => (Ok 4096, fs)
    | None => (Err ENOENT, fs)
    end.

(** ** Transcription gateway ([transcribe.ts], lines 39-150) *)

Section Gateway.
Context `{Platform}.

(** [transcribeChunk] applied to the contents of the file it streams. *)
Definition transcribeChunkData (data : list Byte.byte)
  : IO (GroqTranscriptionResult double) :=
  match groqTranscribe data with
  | Some result => io_ret result
  | None => throw GroqFailed
  end.

(** [transcribeChunk(audioPath)] *)
Definition transcribeChunk (audioPath : string)
  : IO (GroqTranscriptionResult double) :=
  data <- readFile audioPath ;; transcribeChunkData data.

(** [splitAudioFile(inputPath, tempDir)]. The scratch directory made by
    [mkdtemp] is removed in the [finally] block of the caller; the embedding
    keeps the segment files as the list of their contents and leaves the
    scratch directory out of the file system. *)
Definition splitAudioFile (inputPath : string) : IO (list (list Byte.byte)) :=
  data <- readFile inputPath ;;
  match ffmpegSegment data with
  | Some segmentFiles => io_ret segmentFiles
  | None => throw FfmpegFailed
  end.

(** One Groq segment as a transcript segment, shifted by [timeOffsetMs]. *)
Definition offsetSegment (timeOffsetMs : Z) (seg : GroqSegment double)
  : TranscriptSegment :=
  {| seg_start := secondsToMs (g_start seg) + timeOffsetMs;
     seg_end := secondsToMs (g_end seg) + timeOffsetMs;
     seg_text := trim (g_text seg) |}.

(** The segment of the small-file branch. *)
Definition directSegment (seg : GroqSegment double) : TranscriptSegment :=
  {| seg_start := secondsToMs (g_start seg);
     seg_end := secondsToMs (g_end seg);
     seg_text := trim (g_text seg) |}.

(** The [for] loop over [chunkFiles], with its two accumulators. *)
Fixpoint transcribeChunks (chunkFiles : list (list Byte.byte))
    (allSegments : list TranscriptSegment) (timeOffsetMs : Z)
  : IO (list TranscriptSegment) :=
  match chunkFiles with
  | [] => io_ret allSegments
  | chunkFile :: rest =>
      result <- transcribeChunkData chunkFile ;;
      transcribeChunks rest
        (allSegments ++ List.map (offsetSegment timeOffsetMs) (r_segments result))
        (timeOffsetMs + secondsToMs (r_duration result))
  end.

Definition transcribeAudio (inputPath : string) : IO (list TranscriptSegment) :=
  fileSize <- getFileSize inputPath ;;
  if fileSize <=? MAX_FILE_SIZE then
    result <- transcribeChunk inputPath ;;
    io_ret (List.map directSegment (r_segments result))
  else
    chunkFiles <- splitAudioFile inputPath ;;
    transcribeChunks chunkFiles [] 0.

(** The transcript the gateway is meant to deliver for the sub-segment
    results [results], in split order: every segment of a sub-segment is
    shifted by the summed durations, in milliseconds, of the sub-segments
    before it. *)
Definition durationsBefore (results : list (GroqTranscriptionResult double))
    (i : nat) : Z :=
  fold_right Z.add 0
    (List.map (fun r => secondsToMs (r_duration r)) (firstn i results)).

Definition shiftedTranscripts (results : list (GroqTranscriptionResult double))
  : list TranscriptSegment :=
  concat (imap (fun i r =>
                  List.map (offsetSegment (durationsBefore results i))
                           (r_segments r))
               results).

(** ** Audio merge ([transcribe.ts], lines 152-200) *)

Definition newline : string := String (ascii_of_nat 10) EmptyString.

(** The concat list handed to ffmpeg. *)
Definition listContent (inputPaths : list string) : string :=
  String.concat newline
    (List.map (fun p => ("file '" ++ p ++ "'")%string) inputPaths).

(** The ffmpeg concat subprocess, [spawn("ffmpeg", [..., "-i", listFile,
    ..., outputPath])], and the two handlers: the promise resolves on exit
    code 0 and rejects on every other end, whatever the tool left at the
    output path. The tool writes nowhere else, and cannot write over a
    directory or into a missing one. *)
Definition runFfmpegConcat (listFile outputPath : string) : IO unit :=
  fun fs =>
    let (exit, written) := ffmpegConcat fs listFile outputPath in
    let fs' := match written with
               | Some data => snd (writeFile outputPath data fs)
               | None => fs
               end in
    match exit with
    | Exited 0 => (Ok tt, fs')
    | _ => (Err FfmpegFailed, fs')
    end.

Definition mergeAudioFiles (inputPaths : list string) (outputPath : string)
  : IO unit :=
  match inputPaths with
  | [] => throw NoInputFiles
  | [single] => copyFile single outputPath
  | _ =>
      let listFile := (outputPath ++ ".txt")%string in
      writeFile listFile (list_byte_of_string (listContent inputPaths)) ;;;
      fun fs =>
        match runFfmpegConcat listFile outputPath fs with
        | (Ok _, fs') => (Ok tt, snd (swallow (unlink listFile) fs'))
        | (Err _, fs') => (Err FfmpegFailed, snd (swallow (unlink listFile) fs'))
        end
  end.

End Gateway.

(** ** Broadcast merge ([index.ts], lines 95-141) *)

(** [s.replace(/[:.]/g, "-")] *)
Fixpoint replaceColonDot (s : string) : string :=
  match s with
  | EmptyString => EmptyString
  | String c s' =>
      String (if Ascii.eqb c ":"%char || Ascii.eqb c "."%char
              then "-"%char else c)
             (replaceColonDot s')
  end.

(** The clean-up loop: every unlink is tried, its failure is ignored. *)
Fixpoint unlinkChunks (chunks : list ChunkInfo) : IO unit :=
  match chunks with
  | [] => io_ret tt
  | chunk :: rest => swallow (unlink (file chunk)) ;;; unlinkChunks rest
  end.

Section Merge.
Context `{Platform}.

(** The record assembled by [mergeBroadcast]. *)
Definition broadcastOf (chunks : list ChunkInfo) (firstChunk : ChunkInfo)
    (transcript : list TranscriptSegment) : LiveBroadcast :=
  let id := replaceColonDot (toISOString (startTime firstChunk)) in
  let totalDuration := fold_left (fun sum c => sum + duration c) chunks 0 in
  {| b_id := id;
     b_title := generateTitle transcript 10;
     b_timestamp := toISOString (startTime firstChunk);
     b_duration := totalDuration;
     b_audioFile := ("live/" ++ id ++ "/audio.mp3")%string;
     b_transcript := transcript |}.

Definition mergeBroadcast (chunks : list ChunkInfo) (liveDir : string)
  : IO (option LiveBroadcast) :=
  match chunks with
  | [] => io_ret None                     (* chunks.length === 0 *)
  | firstChunk :: _ =>
      let id := replaceColonDot (toISOString (startTime firstChunk)) in
      let broadcastDir := pathJoin liveDir id in
      mkdirRecursive broadcastDir ;;;
      let audioFile := pathJoin broadcastDir "audio.mp3" in
      let jsonFile := pathJoin broadcastDir "broadcast.json" in
      let chunkPaths := List.map file chunks in
      mergeAudioFiles chunkPaths audioFile ;;;
      transcript <- transcribeAudio audioFile ;;
      let broadcast := broadcastOf chunks firstChunk transcript in
      writeFile jsonFile (stringifyBroadcast broadcast) ;;;
      unlinkChunks chunks ;;;
      io_ret (Some broadcast)
  end.

(** ** Index builder ([index.ts], lines 143-165) *)

(** [YYYY-MM-DDTHH:mm:ss.sssZ]: the form [toISOString] gives a date of the
    years 0 to 9999. *)
Definition isoShape (s : string) : bool :=
  match list_ascii_of_string s with
  | [y1; y2; y3; y4; p1; m1; m2; p2; d1; d2; p3; h1; h2; p4; i1; i2; p5;
     s1; s2; p6; f1; f2; f3; p7] =>
      forallb isDigit [y1; y2; y3; y4; m1; m2; d1; d2; h1; h2; i1; i2;
                       s1; s2; f1; f2; f3]
      && String.eqb (string_of_list_ascii [p1; p2; p3; p4; p5; p6; p7])
                    "--T::.Z"
  | _ => false
  end.

(** [a.localeCompare(b)]. Two timestamps of the ISO shape have their digits
    and their punctuation at the same places, and every collation orders
    the digits as the code units do; any other pair of strings is ordered by
    the collation of the platform. *)
Definition localeCompare (a b : string) : Z :=
  if isoShape a && isoShape b then
    match String.compare a b with
    | Lt => -1
    | Eq => 0
    | Gt => 1
    end
  else collate a b.

Definition hasTimestamp (v : json) : bool :=
  match timestampOf v with Timestamp _ => true | _ => false end.

Definition isNull (v : json) : bool :=
  match timestampOf v with OfNull => true | _ => false end.

(** The comparator handed to [sort],
    [(a, b) => b.timestamp.localeCompare(a.timestamp)], on two values whose
    timestamps are strings. *)
Definition byTimestampDescending (a b : json) : Z :=
  match timestampOf b, timestampOf a with
  | Timestamp tb, Timestamp ta => localeCompare tb ta
  | _, _ => 0
  end.

(** [Array.prototype.sort] is stable; with a consistent comparator every
    stable sort returns the same array, which insertion from the left
    computes. *)
Fixpoint insertSorted {A} (cmp : A -> A -> Z) (x : A) (l : list A) : list A :=
  match l with
  | [] => [x]
  | y :: l' =>
      if cmp y x <=? 0 then y :: insertSorted cmp x l' else x :: l
  end.

Definition sortBy {A} (cmp : A -> A -> Z) (l : list A) : list A :=
  fold_left (fun acc x => insertSorted cmp x acc) l [].

(** [broadcasts.sort(...)]. When every value has a string for a timestamp
    the comparator never throws and the array is sorted. Otherwise: with
    fewer than two values the comparator is not called and the array is
    returned as it is; with a [null] among two or more values the sort
    throws a TypeError, because every value takes part in a call of the
    comparator and a call on [null] throws whichever argument it is; what is
    left is a value that throws as [b] and not as [a], where the outcome is
    the engine's. *)
Definition sortBroadcasts (broadcasts : list json) : IO (list json) :=
  if forallb hasTimestamp broadcasts then
    io_ret (sortBy byTimestampDescending broadcasts)
  else if (length broadcasts <? 2)%nat then io_ret broadcasts
  else if existsb isNull broadcasts then throw TypeError
  else
    match engineSort broadcasts with
    | Some sorted => io_ret sorted
    | None => throw TypeError
    end.

(** [JSON.parse] of a record file: whatever value the text denotes. *)
Definition parseJson (data : list Byte.byte) : IO json :=
  match jsonParse data with
  | Some value => io_ret value
  | None => throw JsonSyntaxError
  end.

(** The [for] loop over the directory entries. *)
Fixpoint collectBroadcasts (liveDir : string) (entries : list Dirent)
    (broadcasts : list json) : IO (list json) :=
  match entries with
  | [] => io_ret broadcasts
  | entry :: rest =>
      if negb (d_isDirectory entry) then
        collectBroadcasts liveDir rest broadcasts
      else
        let jsonFile :=
          pathJoin (pathJoin liveDir (d_name entry)) "broadcast.json" in
        found <- existsSync jsonFile ;;
        if (found : bool) then
          parsed <- attempt (data <- readFile jsonFile ;; parseJson data) ;;
          collectBroadcasts liveDir rest
            (match parsed with
             | Some broadcast => broadcasts ++ [broadcast]
             | None => broadcasts
             end)
        else collectBroadcasts liveDir rest broadcasts
  end.

Definition indexPathOf (liveDir : string) : string :=
  pathJoin liveDir "index.json".

(** The sort is outside the [try] of the loop: when it throws, the rebuild
    rejects before anything is written. *)
Definition updateLiveIndex (liveDir : string) : IO unit :=
  entries <- readdir liveDir ;;
  broadcasts <- collectBroadcasts liveDir entries [] ;;
  sorted <- sortBroadcasts broadcasts ;;
  writeFile (indexPathOf liveDir) (stringifyIndex sorted).

(** The value a directory entry stands for, when the entry is a directory
    whose record file is valid JSON. *)
Definition parsableRecord (liveDir : string) (fs : FS) (entry : Dirent)
  : option json :=
  if d_isDirectory entry then
    match fs !! pathJoin (pathJoin liveDir (d_name entry)) "broadcast.json" with
    | Some (File data) => jsonParse data
    | _ => None
    end
  else None.

(** The values of the record files of a directory that are valid JSON, in
    the order [readdir] lists their entries. *)
Definition parsableRecords (liveDir : string) (fs : FS) : list json :=
  match readdir liveDir fs with
  | (Ok entries, _) => omap (parsableRecord liveDir fs) entries
  | _ => []
  end.

(** A value of the shape of a broadcast record, as far as the index builder
    looks: its timestamp is a string of the ISO shape. *)
Definition isBroadcastRecord (v : json) : bool :=
  match timestampOf v with
  | Timestamp ts => isoShape ts
  | _ => false
  end.

(** The manifest is ordered by timestamp, latest first. *)
Definition descending (a b : json) : Prop :=
  exists ta tb,
    timestampOf a = Timestamp ta /\ timestampOf b = Timestamp tb /\
    String.compare tb ta <> Gt.

End Merge.

(** ** Broadcast assembler ([index.ts], lines 187-230 and 305-327) *)

(** Who awaits a merge: the handler of a music chunk, which still has to
    delete the chunk's file, or the idle-flush timer. *)
Inductive Trigger :=
  | MusicChunk (chunkFile : string)
  | IdleFlush.

(** A handler parked at an [await]. *)
Inductive Task :=
  | AwaitMerge (chunksToMerge : list ChunkInfo) (by_ : Trigger)
      (* await mergeBroadcast(chunksToMerge, liveDir) *)
  | AwaitIndex (by_ : Trigger)
      (* await updateLiveIndex(liveDir) *)
  | AwaitUnlink (chunkFile : string).
      (* await fs.unlink(chunkFile).catch(() => {}) *)

(** The variables of [runService] shared by the handlers, the parked
    handlers and the file system. Two histories are kept beside them to
    count the merges; they are not variables of the program: [mergeCalls]
    lists the arguments of the calls of [mergeBroadcast], [produced] lists
    the broadcasts these calls resolved to. *)
Record Service := {
  pendingChunks : list ChunkInfo;
  isProcessing : bool;
  tasks : list Task;
  disk : FS;
  mergeCalls : list (list ChunkInfo);
  produced : list LiveBroadcast;
}.

Definition IDLE_THRESHOLD_MS : Z := 5 * 60 * 1000.

Inductive Event :=
  | ChunkCompleted (buf : list MetadataSample) (chunkFile : string)
      (startTime : Z)
      (* processCompletedChunk(chunkFile, startTime), [buf] being the
         metadata buffer at the time of the call *)
  | IdleFlushTick (now : Z)
      (* the callback of the one-minute interval, [now] being Date.now() *)
  | Resume (i : nat).
      (* the operation awaited by the [i]-th parked handler settles *)

Section Assembler.
Context `{Platform}.
Variable liveDir : string.

Definition initialService (fs : FS) : Service :=
  {| pendingChunks := []; isProcessing := false; tasks := [];
     disk := fs; mergeCalls := []; produced := [] |}.

(** The statements shared by the two triggers: raise the flag, copy the
    queue, swap in an empty queue and call [mergeBroadcast]. *)
Definition startMerge (by_ : Trigger) (s : Service) : Service :=
  let chunksToMerge := pendingChunks s in
  {| pendingChunks := [];
     isProcessing := true;
     tasks := tasks s ++ [AwaitMerge chunksToMerge by_];
     disk := disk s;
     mergeCalls := mergeCalls s ++ [chunksToMerge];
     produced := produced s |}.

(** [processCompletedChunk], up to its first [await]. *)
Definition processCompletedChunk (buf : list MetadataSample)
    (chunkFile : string) (startTime : Z) (s : Service) : Service :=
  let endTime := startTime + CHUNK_DURATION_SECS * 1000 in
  let hasSpeech := chunkHasSpeech buf startTime endTime in
  if hasSpeech then
    {| pendingChunks := pendingChunks s ++
         [ {| file := chunkFile; startTime := startTime;
              duration := CHUNK_DURATION_SECS * 1000; hasSpeech := true |} ];
       isProcessing := isProcessing s;
       tasks := tasks s;
       disk := disk s;
       mergeCalls := mergeCalls s;
       produced := produced s |}
  else if (0 <? length (pendingChunks s))%nat && negb (isProcessing s) then
    startMerge (MusicChunk chunkFile) s
  else
    {| pendingChunks := pendingChunks s;
       isProcessing := isProcessing s;
       tasks := tasks s ++ [AwaitUnlink chunkFile];
       disk := disk s;
       mergeCalls := mergeCalls s;
       produced := produced s |}.

(** The callback of the idle-flush interval, up to its first [await]. *)
Definition idleFlush (now : Z) (s : Service) : Service :=
  if (0 <? length (pendingChunks s))%nat && negb (isProcessing s) then
    match last (pendingChunks s) with
    | Some lastChunk =>
        let lastChunkTime := startTime lastChunk in
        let idleTime := now - lastChunkTime - CHUNK_DURATION_SECS * 1000 in
        if IDLE_THRESHOLD_MS <? idleTime then startMerge IdleFlush s else s
    | None => s
    end
  else s.

(** What a trigger does once the flag is lowered: the chunk handler goes on
    to delete the music chunk, the timer callback returns. *)
Definition afterMerge (by_ : Trigger) : list Task :=
  match by_ with
  | MusicChunk chunkFile => [AwaitUnlink chunkFile]
  | IdleFlush => []
  end.

(** The [i]-th parked handler runs from its [await] to the next one. The
    awaited operation takes effect on the file system when it settles. *)
Definition resume (i : nat) (s : Service) : option Service :=
  match tasks s !! i with
  | Some (AwaitMerge chunksToMerge by_) =>
      match mergeBroadcast chunksToMerge liveDir (disk s) with
      | (Ok result, fs') =>
          Some {| pendingChunks := pendingChunks s;
                  isProcessing := isProcessing s;
                  tasks := take i (tasks s) ++ [AwaitIndex by_]
                           ++ drop (S i) (tasks s);
                  disk := fs';
                  mergeCalls := mergeCalls s;
                  produced := produced s ++ option_list result |}
      | (Err _, fs') =>
          (* catch (err): log, then isProcessing = false *)
          Some {| pendingChunks := pendingChunks s;
                  isProcessing := false;
                  tasks := take i (tasks s) ++ afterMerge by_
                           ++ drop (S i) (tasks s);
                  disk := fs';
                  mergeCalls := mergeCalls s;
                  produced := produced s |}
      end
  | Some (AwaitIndex by_) =>
      (* resolved or rejected, the next statement is isProcessing = false *)
      Some {| pendingChunks := pendingChunks s;
              isProcessing := false;
              tasks := take i (tasks s) ++ afterMerge by_
                       ++ drop (S i) (tasks s);
              disk := snd (updateLiveIndex liveDir (disk s));
              mergeCalls := mergeCalls s;
              produced := produced s |}
  | Some (AwaitUnlink chunkFile) =>
      Some {| pendingChunks := pendingChunks s;
              isProcessing := isProcessing s;
              tasks := take i (tasks s) ++ drop (S i) (tasks s);
              disk := snd (swallow (unlink chunkFile) (disk s));
              mergeCalls := mergeCalls s;
              produced := produced s |}
  | None => None
  end.

Definition step (ev : Event) (s : Service) : option Service :=
  match ev with
  | ChunkCompleted buf chunkFile startTime =>
      Some (processCompletedChunk buf chunkFile startTime s)
  | IdleFlushTick now => Some (idleFlush now s)
  | Resume i => resume i s
  end.

Fixpoint run (evs : list Event) (s : Service) : option Service :=
  match evs with
  | [] => Some s
  | ev :: evs' =>
      match step ev s with
      | Some s' => run evs' s'
      | None => None
      end
  end.

(** The merges in flight: the handlers parked at [await mergeBroadcast]. *)
Definition isAwaitMerge (t : Task) : bool :=
  match t with AwaitMerge _ _ => true | _ => false end.

Definition mergesInFlight (s : Service) : nat :=
  length (List.filter isAwaitMerge (tasks s)).

(** The handlers inside the section guarded by the flag: from the call of
    [mergeBroadcast] to the statement that lowers the flag. *)
Definition holdsFlag (t : Task) : bool :=
  match t with AwaitMerge _ _ | AwaitIndex _ => true | AwaitUnlink _ => false end.

Definition flagHolders (s : Service) : nat :=
  length (List.filter holdsFlag (tasks s)).

Definition isResume (ev : Event) : bool :=
  match ev with Resume _ => true | _ => false end.

Definition isChunkCompleted (ev : Event) : bool :=
  match ev with ChunkCompleted _ _ _ => true | _ => false end.

(** The flag is raised exactly while one handler is between the call of
    [mergeBroadcast] and the statement that lowers the flag. *)
Definition flagInvariant (s : Service) : Prop :=
  flagHolders s = if isProcessing s then 1%nat else 0%nat.

(** The chunk record queued for a speech chunk. *)
Definition speechChunk (chunkFile : string) (startTime : Z) : ChunkInfo :=
  {| file := chunkFile; startTime := startTime;
     duration := CHUNK_DURATION_SECS * 1000; hasSpeech := true |}.

(** The states the service goes through once a music chunk [musicFile] has
    triggered the merge of [chunks] and nothing else is going on: merging,
    indexing, deleting the music chunk, done. *)
Definition mergePhase (chunks : list ChunkInfo) (musicFile : string)
    (s : Service) : Prop :=
  mergeCalls s = [chunks] /\ pendingChunks s = [] /\
  ((tasks s = [AwaitMerge chunks (MusicChunk musicFile)]
      /\ isProcessing s = true)
   \/ (tasks s = [AwaitIndex (MusicChunk musicFile)]
      /\ isProcessing s = true)
   \/ (tasks s = [AwaitUnlink musicFile] /\ isProcessing s = false)
   \/ (tasks s = [] /\ isProcessing s = false
      /\ isFile (disk s) musicFile = false)).

End Assembler.

(** ** Recorder watchdog (the listing of [index.ts] in [README.md], lines
    297-383; the watchdog is in this listing only) *)

Definition STALL_THRESHOLD_MS : Z := 5 * 60 * 1000.

(** [lastChunkTime] and [ffmpegProcess] of [runService]; subprocesses are
    numbered in spawn order. [killed] lists the subprocesses that were sent
    SIGKILL and [restartTimers] counts the armed
    [setTimeout(startRecording, 5000)] timers. *)
Record Recorder := {
  lastChunkTime : Z;
  ffmpegProcess : option nat;
  spawned : nat;
  killed : list nat;
  restartTimers : nat;
}.

Inductive RecorderEvent :=
  | RestartTimerFires (now : Z)   (* setTimeout callback: startRecording() *)
  | SegmentOpened (now : Z)       (* stderr: Opening '...' for writing *)
  | ProcessExit                   (* ffmpeg.on("exit") *)
  | ProcessError                  (* ffmpeg.on("error") *)
  | WatchdogTick (now : Z).       (* the callback of the watchdog interval *)

(** [startRecording()] *)
Definition startRecording (now : Z) (r : Recorder) : Recorder :=
  {| lastChunkTime := now;
     ffmpegProcess := Some (spawned r);
     spawned := S (spawned r);
     killed := killed r;
     restartTimers := restartTimers r |}.

(** The service as [runService] leaves it: [lastChunkTime] initialised and
    the first [startRecording()] done, both at [now]. *)
Definition initialRecorder (now : Z) : Recorder :=
  startRecording now
    {| lastChunkTime := now; ffmpegProcess := None; spawned := 0;
       killed := []; restartTimers := 0 |}.

(** The test of the watchdog. *)
Definition watchdogFires (now : Z) (r : Recorder) : bool :=
  let staleTime := now - lastChunkTime r in
  (STALL_THRESHOLD_MS <? staleTime)
  && match ffmpegProcess r with Some _ => true | None => false end.

Definition watchdog (now : Z) (r : Recorder) : Recorder :=
  let staleTime := now - lastChunkTime r in
  match ffmpegProcess r with
  | Some pid =>
      if STALL_THRESHOLD_MS <? staleTime then
        {| lastChunkTime := lastChunkTime r;
           ffmpegProcess := ffmpegProcess r;
           spawned := spawned r;
           killed := killed r ++ [pid];        (* kill('SIGKILL') *)
           restartTimers := restartTimers r |}
      else r
  | None => r
  end.

(** The [exit] and [error] handlers: forget the subprocess and arm the
    restart timer. *)
Definition processGone (r : Recorder) : Recorder :=
  {| lastChunkTime := lastChunkTime r;
     ffmpegProcess := None;
     spawned := spawned r;
     killed := killed r;
     restartTimers := S (restartTimers r) |}.

Definition recorderStep (ev : RecorderEvent) (r : Recorder) : option Recorder :=
  match ev with
  | RestartTimerFires now =>
      match restartTimers r with
      | S n =>
          Some (startRecording now
                  {| lastChunkTime := lastChunkTime r;
                     ffmpegProcess := ffmpegProcess r;
                     spawned := spawned r;
                     killed := killed r;
                     restartTimers := n |})
      | O => None
      end
  | SegmentOpened now =>
      Some {| lastChunkTime := now;
              ffmpegProcess := ffmpegProcess r;
              spawned := spawned r;
              killed := killed r;
              restartTimers := restartTimers r |}
  | ProcessExit => Some (processGone r)
  | ProcessError => Some (processGone r)
  | WatchdogTick now => Some (watchdog now r)
  end.

Fixpoint recorderRun (evs : list RecorderEvent) (r : Recorder)
  : option Recorder :=
  match evs with
  | [] => Some r
  | ev :: evs' =>
      match recorderStep ev r with
      | Some r' => recorderRun evs' r'
      | None => None
      end
  end.

(** The instants at which a new chunk was observed. *)
Fixpoint chunkObservations (evs : list RecorderEvent) : list Z :=
  match evs with
  | [] => []
  | SegmentOpened now :: evs' => now :: chunkObservations evs'
  | _ :: evs' => chunkObservations evs'
  end.

(** The instants at which a chunk was observed or a subprocess was started. *)
Fixpoint activityInstants (evs : list RecorderEvent) : list Z :=
  match evs with
  | [] => []
  | SegmentOpened now :: evs' => now :: activityInstants evs'
  | RestartTimerFires now :: evs' => now :: activityInstants evs'
  | _ :: evs' => activityInstants evs'
  end.

(** The clock readings of a trace, in order. *)
Fixpoint clockReadings (evs : list RecorderEvent) : list Z :=
  match evs with
  | [] => []
  | SegmentOpened now :: evs' => now :: clockReadings evs'
  | RestartTimerFires now :: evs' => now :: clockReadings evs'
  | WatchdogTick now :: evs' => now :: clockReadings evs'
  | _ :: evs' => clockReadings evs'
  end.

(** The clock never runs backwards along the trace, from the start of the
    service at [t0] to the check at [now]. *)
Definition chronological (t0 : Z) (evs : list RecorderEvent) (now : Z) : Prop :=
  StronglySorted Z.le (t0 :: clockReadings evs ++ [now]).

(** The latest instant at which a chunk was observed or a subprocess was
    started, [t] being the latest one before the trace. *)
Fixpoint lastActivity (t : Z) (evs : list RecorderEvent) : Z :=
  match evs with
  | [] => t
  | SegmentOpened now :: evs' => lastActivity now evs'
  | RestartTimerFires now :: evs' => lastActivity now evs'
  | _ :: evs' => lastActivity t evs'
  end.

(** ** A reference platform, to run the embedding on concrete inputs *)

(** [Math.round]: the nearest integer, halves rounded up. Seconds are exact
    rationals here. *)
Definition roundHalfUp (x : Q) : Z := Qfloor (x + (1 # 2)).

(** The last [width] decimal digits of [n], zero-padded. *)
Fixpoint padded (width : nat) (n : Z) : string :=
  match width with
  | O => EmptyString
  | S w =>
      (padded w (n / 10)
       ++ String (ascii_of_N (Z.to_N (48 + n mod 10))) EmptyString)%string
  end.

(** Year, month and day of the proleptic Gregorian calendar, from the count
    of days since 1970-01-01. *)
Definition civilFromDays (days : Z) : Z * Z * Z :=
  let z := days + 719468 in
  let era := z / 146097 in
  let doe := z - era * 146097 in
  let yoe := (doe - doe / 1460 + doe / 36524 - doe / 146096) / 365 in
  let doy := doe - (365 * yoe + yoe / 4 - yoe / 100) in
  let mp := (5 * doy + 2) / 153 in
  let d := doy - (153 * mp + 2) / 5 + 1 in
  let m := if mp <? 10 then mp + 3 else mp - 9 in
  (yoe + era * 400 + (if m <=? 2 then 1 else 0), m, d).

(** [new Date(t).toISOString()] for the years 0000 to 9999. *)
Definition isoString (t : Z) : string :=
  let ms := t mod 86400000 in
  let '(y, m, d) := civilFromDays (t / 86400000) in
  (padded 4 y ++ "-" ++ padded 2 m ++ "-" ++ padded 2 d ++ "T"
   ++ padded 2 (ms / 3600000) ++ ":" ++ padded 2 (ms / 60000 mod 60) ++ ":"
   ++ padded 2 (ms / 1000 mod 60) ++ "." ++ padded 3 (ms mod 1000) ++ "Z")%string.

(** *** A reference JSON

    The texts [null], [{}] and [{"timestamp":"..."}], the timestamp without
    quotes or escapes; the text of a record keeps its timestamp. *)
Inductive ReferenceJson :=
  | RefNull
  | RefObject (timestamp : option string).

Definition doubleQuote : string := String (ascii_of_nat 34) EmptyString.

Definition recordText (ts : string) : string :=
  ("{" ++ doubleQuote ++ "timestamp" ++ doubleQuote ++ ":"
   ++ doubleQuote ++ ts ++ doubleQuote ++ "}")%string.

Definition referenceText (v : ReferenceJson) : string :=
  match v with
  | RefNull => "null"
  | RefObject None => "{}"
  | RefObject (Some ts) => recordText ts
  end.

Definition referenceStringify (b : LiveBroadcast) : list Byte.byte :=
  list_byte_of_string (recordText (b_timestamp b)).

Definition referenceStringifyIndex (values : list ReferenceJson)
  : list Byte.byte :=
  list_byte_of_string
    ("[" ++ String.concat "," (List.map referenceText values) ++ "]")%string.

(** The characters before the first double quote, and what follows them. *)
Fixpoint spanNotDoubleQuote (cs : list ascii) : list ascii * list ascii :=
  match cs with
  | [] => ([], [])
  | c :: cs' =>
      if Ascii.eqb c (ascii_of_nat 34) then ([], cs)
      else let (run, rest) := spanNotDoubleQuote cs' in (c :: run, rest)
  end.

Definition referenceParse (data : list Byte.byte) : option ReferenceJson :=
  let text := string_of_list_byte data in
  if String.eqb text "null" then Some RefNull
  else if String.eqb text "{}" then Some (RefObject None)
  else
    match afterLiteral
            (list_ascii_of_string
               ("{" ++ doubleQuote ++ "timestamp" ++ doubleQuote ++ ":"
                ++ doubleQuote)%string)
            (list_ascii_of_string text) with
    | Some rest =>
        let (ts, after) := spanNotDoubleQuote rest in
        if String.eqb (string_of_list_ascii after) (doubleQuote ++ "}")
        then Some (RefObject (Some (string_of_list_ascii ts)))
        else None
    | None => None
    end.

Definition referenceTimestampOf (v : ReferenceJson) : TimestampProperty :=
  match v with
  | RefNull => OfNull
  | RefObject None => NotAString
  | RefObject (Some ts) => Timestamp ts
  end.

(** The reference collation is the order of the code units. *)
Definition referenceCollate (a b : string) : Z :=
  match String.compare a b with
  | Lt => -1
  | Eq => 0
  | Gt => 1
  end.

(** The reference engine inserts from the left and calls the comparator
    with the value it inserts for [a] and a value already placed for [b]; a
    missing timestamp reads [undefined]. *)
Definition referenceCompare (a b : ReferenceJson) : option Z :=
  match b with
  | RefObject (Some tb) =>
      match a with
      | RefObject (Some ta) => Some (referenceCollate tb ta)
      | RefObject None => Some (referenceCollate tb "undefined")
      | RefNull => None
      end
  | _ => None
  end.

Fixpoint referenceInsert (x : ReferenceJson) (placed : list ReferenceJson)
  : option (list ReferenceJson) :=
  match placed with
  | [] => Some [x]
  | y :: placed' =>
      match referenceCompare x y with
      | Some order =>
          if order <? 0 then Some (x :: placed)
          else option_map (cons y) (referenceInsert x placed')
      | None => None
      end
  end.

Definition referenceSort (values : list ReferenceJson)
  : option (list ReferenceJson) :=
  fold_left (fun placed x =>
               match placed with
               | Some l => referenceInsert x l
               | None => None
               end) values (Some []).

(** *** A reference ffmpeg concat *)

(** The lines of a text. *)
Fixpoint linesFrom (cur : list ascii) (cs : list ascii) : list (list ascii) :=
  match cs with
  | [] => [rev cur]
  | c :: cs' =>
      if Ascii.eqb c (ascii_of_nat 10) then rev cur :: linesFrom [] cs'
      else linesFrom (c :: cur) cs'
  end.

(** The path of a line [file '<path>'] of a concat list. *)
Definition concatEntry (line : list ascii) : option string :=
  match afterLiteral (list_ascii_of_string "file '") line with
  | Some rest =>
      let (name, after) := spanNotQuote rest in
      match after with
      | [_] => Some (string_of_list_ascii name)
      | _ => None
      end
  | None => None
  end.

(** The concat demuxer opens an absolute entry as it is written and a
    relative one in the directory of the list file. *)
Definition resolveEntry (listFile entry : string) : string :=
  if startsWith [slash] (list_ascii_of_string entry)
     || String.eqb (dirname listFile) ""
  then entry
  else pathJoin (dirname listFile) entry.

(** The contents of the inputs up to the first one that cannot be opened. *)
Fixpoint readablePrefix (fs : FS) (paths : list string)
  : list (list Byte.byte) :=
  match paths with
  | [] => []
  | p :: rest =>
      match fs !! p with
      | Some (File data) => data :: readablePrefix fs rest
      | _ => []
      end
  end.

(** The reference tool: it exits with code 1 when the list cannot be read
    or its first input cannot be opened; otherwise it writes the inputs it
    could open, one after the other, and exits with code 0. *)
Definition referenceConcat (fs : FS) (listFile outputPath : string)
  : FfmpegExit * option (list Byte.byte) :=
  match fs !! listFile with
  | Some (File content) =>
      match mapM concatEntry
              (linesFrom [] (list_ascii_of_string
                               (string_of_list_byte content))) with
      | Some entries =>
          match readablePrefix fs (List.map (resolveEntry listFile) entries) with
          | [] => (Exited 1, None)
          | inputs => (Exited 0, Some (concat inputs))
          end
      | None => (Exited 1, None)
      end
  | _ => (Exited 1, None)
  end.

(** The number of bytes of 480 seconds of audio at 320 kbit/s. *)
Definition referenceSegmentBytes : Z := 480 * 40000.

(** The reference transcriber hears one word, spelled by the first byte of
    the audio, from 0 s to 2.5 s, and reports a duration of 479.6 s; it
    rejects an empty file. *)
Definition referenceGroq (data : list Byte.byte)
  : option (GroqTranscriptionResult Q) :=
  match data with
  | [] => None
  | b :: _ =>
      Some {| r_duration := (4796 # 10)%Q;
              r_segments :=
                [ {| g_start := 0%Q; g_end := (25 # 10)%Q;
                     g_text := [32%N; Byte.to_N b; 32%N] |} ] |}
  end.

Definition referencePlatform : Platform := {|
  double := Q;
  secondsToMs := fun x => roundHalfUp (x * 1000);
  toISOString := isoString;
  ffmpegSegment := fun data =>
    Some [ take (Z.to_nat referenceSegmentBytes) data;
           drop (Z.to_nat referenceSegmentBytes) data ];
  ffmpegConcat := referenceConcat;
  groqTranscribe := referenceGroq;
  stringifyBroadcast := referenceStringify;
  json := ReferenceJson;
  jsonParse := referenceParse;
  timestampOf := referenceTimestampOf;
  stringifyIndex := referenceStringifyIndex;
  collate := referenceCollate;
  engineSort := referenceSort;
|}.

(** ** Sample inputs *)

Definition speechSample (t : Z) : MetadataSample :=
  {| timestamp := t; wallClock := isoString t;
     artist := None; title := None |}.

Definition musicSample (t : Z) : MetadataSample :=
  {| timestamp := t; wallClock := isoString t;
     artist := Some (js "Falco"); title := Some (js "Vienna Calling") |}.

(** A data directory with three recorded chunks. *)
Definition sampleDisk : FS :=
  list_to_map
    [ ("/data", Dir); ("/data/chunks", Dir); ("/data/live", Dir);
      ("/data/chunks/chunk-20250101-100000.mp3", File [Byte.x61; Byte.x61]);
      ("/data/chunks/chunk-20250101-100200.mp3", File [Byte.x62]);
      ("/data/chunks/chunk-20250101-100400.mp3", File [Byte.x63]) ]%string.

(** 10:00:00, 10:02:00 and 10:04:00 UTC on 2025-01-01. *)
Definition sampleStart1 : Z := 1735725600000.
Definition sampleStart2 : Z := 1735725720000.
Definition sampleStart3 : Z := 1735725840000.

(** The metadata buffer at the arrival of the three chunks: speech until
    10:04, music afterwards. *)
Definition sampleBuffer : list MetadataSample :=
  [ speechSample (sampleStart1 + 1000); speechSample (sampleStart2 + 1000);
    musicSample (sampleStart3 + 1000); musicSample (sampleStart3 + 61000) ].

Definition sampleArrivals : list Event :=
  [ ChunkCompleted sampleBuffer "/data/chunks/chunk-20250101-100000.mp3" sampleStart1;
    ChunkCompleted sampleBuffer "/data/chunks/chunk-20250101-100200.mp3" sampleStart2;
    ChunkCompleted sampleBuffer "/data/chunks/chunk-20250101-100400.mp3" sampleStart3 ].

(** A live directory with two valid records and a truncated one. *)
Definition sampleLiveDisk : FS :=
  list_to_map
    [ ("/data/live", Dir); ("/data/live/a", Dir); ("/data/live/b", Dir);
      ("/data/live/c", Dir);
      ("/data/live/a/broadcast.json",
         File (list_byte_of_string (recordText "2025-01-01T10:00:00.000Z")));
      ("/data/live/b/broadcast.json",
         File (list_byte_of_string
                 ("{" ++ doubleQuote ++ "timestamp" ++ doubleQuote ++ ":"
                  ++ doubleQuote ++ "2025-02-01T1")));
      ("/data/live/c/broadcast.json",
         File (list_byte_of_string (recordText "2025-03-01T10:00:00.000Z"))) ]%string.

(** A live directory with a valid record and a record file that holds
    [null]. *)
Definition sampleNullDisk : FS :=
  list_to_map
    [ ("/data/live", Dir); ("/data/live/a", Dir); ("/data/live/c", Dir);
      ("/data/live/a/broadcast.json", File (list_byte_of_string "null"));
      ("/data/live/c/broadcast.json",
         File (list_byte_of_string (recordText "2025-03-01T10:00:00.000Z"))) ]%string.

(** A merged file of 21,000,000 bytes: 480 seconds of one voice, 45 seconds
    of another. *)
Definition sampleLongAudio : list Byte.byte :=
  replicate (Z.to_nat 19200000) Byte.x61 ++ replicate (Z.to_nat 1800000) Byte.x62.

(** Fifteen words in one segment, five in another. *)
Definition fifteenWords : list TranscriptSegment :=
  [ {| seg_start := 0; seg_end := 9000;
       seg_text := js "eins zwei drei vier fuenf sechs sieben acht neun zehn elf zwoelf dreizehn vierzehn fuenfzehn" |} ].

Definition fiveWords : list TranscriptSegment :=
  [ {| seg_start := 0; seg_end := 1500; seg_text := js "Guten Morgen" |};
    {| seg_start := 1500; seg_end := 4000; seg_text := js "liebe Hoererinnen und" |} ].

(** A word: a non-empty string without white space. *)
Definition properWord (w : jsstring) : Prop :=
  w <> [] /\ Forall (fun c => isWhiteSpace c = false) w.

(* ===================================================================== *)
(** * Part I, continued: the rest of the program                         *)
(* ===================================================================== *)

(** ** The sampler over time ([index.ts], lines 37-72) *)

(** [metadataBuffer] and [lastMetaStatus] as they are declared. *)
Definition initialSampler : Sampler :=
  {| metadataBuffer := []; lastMetaStatus := music |}.

(** The sample a tick pushes. *)
Definition sampleOf (response : option NowPlaying) (now : Z) (iso : string)
  : MetadataSample :=
  {| timestamp := now; wallClock := iso;
     artist := fst (fetchMetadata response);
     title := snd (fetchMetadata response) |}.

(** The firings of the poller in the order their fetches settle, each with
    the settled fetch and the clock reading taken after it. *)
Definition pollerRun `{Platform} (ticks : list (option NowPlaying * Z))
    (st : Sampler) : Sampler :=
  fold_left
    (fun st tick => pollerTick (fst tick) (snd tick) (toISOString (snd tick)) st)
    ticks st.

(** A fetch that yields no artist: it failed, or the body has no artist or
    an empty one. *)
Definition noArtistReported (response : option NowPlaying) : Prop :=
  response = None \/
  exists data, response = Some data /\
    (np_artist data = None \/ np_artist data = Some []).

(** ** Transcript merge ([transcribe.ts], lines 202-225) *)

(** A JavaScript number that is an integer or NaN. *)
Inductive jsnum :=
  | Num (z : Z)
  | NaN.

(** [a + b] *)
Definition jsadd (a b : jsnum) : jsnum :=
  match a, b with
  | Num x, Num y => Num (x + y)
  | _, _ => NaN
  end.

(** A segment as [mergeTranscripts] returns it: its timestamps are sums and
    may be NaN. *)
Record MergedSegment := {
  m_start : jsnum;
  m_end : jsnum;
  m_text : jsstring;
}.

(** [durationsMs[i]] as an addend: reading past the end gives [undefined],
    which adds as NaN. *)
Definition durationAt (durationsMs : list Z) (i : nat) : jsnum :=
  match durationsMs !! i with
  | Some d => Num d
  | None => NaN
  end.

Definition mergedSegment (timeOffsetMs : jsnum) (seg : TranscriptSegment)
  : MergedSegment :=
  {| m_start := jsadd (Num (seg_start seg)) timeOffsetMs;
     m_end := jsadd (Num (seg_end seg)) timeOffsetMs;
     m_text := seg_text seg |}.

(** The outer [for] loop, from index [i] on. *)
Fixpoint mergeTranscriptsFrom (transcripts : list (list TranscriptSegment))
    (i : nat) (durationsMs : list Z) (merged : list MergedSegment)
    (timeOffsetMs : jsnum) : list MergedSegment :=
  match transcripts with
  | [] => merged
  | transcript :: rest =>
      mergeTranscriptsFrom rest (S i) durationsMs
        (merged ++ List.map (mergedSegment timeOffsetMs) transcript)
        (jsadd timeOffsetMs (durationAt durationsMs i))
  end.

Definition mergeTranscripts (transcripts : list (list TranscriptSegment))
    (durationsMs : list Z) : list MergedSegment :=
  mergeTranscriptsFrom transcripts 0 durationsMs [] (Num 0).

(** A segment moved by a number of milliseconds. *)
Definition shiftSegment (offsetMs : Z) (seg : TranscriptSegment)
  : TranscriptSegment :=
  {| seg_start := seg_start seg + offsetMs;
     seg_end := seg_end seg + offsetMs;
     seg_text := seg_text seg |}.

(** A segment whose timestamps are integers, and one whose timestamps are
    lost. *)
Definition exactSegment (seg : TranscriptSegment) : MergedSegment :=
  {| m_start := Num (seg_start seg); m_end := Num (seg_end seg);
     m_text := seg_text seg |}.

Definition nanSegment (seg : TranscriptSegment) : MergedSegment :=
  {| m_start := NaN; m_end := NaN; m_text := seg_text seg |}.

(** The sum of the first [i] durations. *)
Definition sumBefore (durationsMs : list Z) (i : nat) : Z :=
  fold_right Z.add 0 (firstn i durationsMs).

Section GatewayTiming.
Context `{Platform}.

(** A sub-segment result whose timestamps, in milliseconds, are ordered,
    start at 0 or later, do not pass the reported duration, and end no
    earlier than they start. *)
Definition wellTimed (r : GroqTranscriptionResult double) : Prop :=
  StronglySorted Z.le
    (List.map (fun seg => secondsToMs (g_start seg)) (r_segments r)) /\
  Forall (fun seg =>
            0 <= secondsToMs (g_start seg) <= secondsToMs (r_duration r) /\
            secondsToMs (g_start seg) <= secondsToMs (g_end seg))
         (r_segments r) /\
  0 <= secondsToMs (r_duration r).

(** The transcripts of the sub-segments, each converted on its own. *)
Definition directTranscripts (results : list (GroqTranscriptionResult double))
  : list (list TranscriptSegment) :=
  List.map (fun r => List.map directSegment (r_segments r)) results.

Definition reportedDurations (results : list (GroqTranscriptionResult double))
  : list Z :=
  List.map (fun r => secondsToMs (r_duration r)) results.

End GatewayTiming.

(** ** The assembler over a whole run *)

(** The chunks the arrivals of a trace classify as speech, in arrival
    order. *)
Fixpoint speechArrivals (evs : list Event) : list ChunkInfo :=
  match evs with
  | [] => []
  | ChunkCompleted buf chunkFile start :: evs' =>
      (if chunkHasSpeech buf start (start + CHUNK_DURATION_SECS * 1000)
       then [speechChunk chunkFile start] else [])
      ++ speechArrivals evs'
  | _ :: evs' => speechArrivals evs'
  end.

(** Chunks of the nominal duration. *)
Definition nominalChunks (chunks : list ChunkInfo) : Prop :=
  Forall (fun c => duration c = CHUNK_DURATION_SECS * 1000) chunks.

(** The broadcast [b] is the merge of [chunks]: as long as they are, and
    stamped with the start of the first of them. *)
Definition mergedFrom `{Platform} (b : LiveBroadcast) (chunks : list ChunkInfo)
  : Prop :=
  exists firstChunk rest,
    chunks = firstChunk :: rest /\
    b_duration b = CHUNK_DURATION_SECS * 1000 * Z.of_nat (length chunks) /\
    b_timestamp b = toISOString (startTime firstChunk).

(** What the histories of the service keep true: queued and merged chunks
    have the nominal duration, every awaited merge is a recorded call, and
    every produced broadcast is the merge of a recorded call. *)
Definition historyInvariant `{Platform} (s : Service) : Prop :=
  nominalChunks (pendingChunks s) /\
  Forall nominalChunks (mergeCalls s) /\
  Forall (fun t => match t with
                   | AwaitMerge chunks _ => In chunks (mergeCalls s)
                   | _ => True
                   end) (tasks s) /\
  Forall (fun b => exists chunks, In chunks (mergeCalls s) /\ mergedFrom b chunks)
         (produced s).

(** ** Segment completion ([index.ts], lines 189-190 and 252-290) *)

(** [/Opening '([^']+)' for writing/] tried at the head of [cs]: the run
    [[^']+] is greedy and the character after it must be the quote, so
    there is one way to match at a position. *)
Definition openingAt (cs : list ascii) : option (list ascii) :=
  match afterLiteral (list_ascii_of_string "Opening '") cs with
  | Some rest =>
      let (name, after) := spanNotQuote rest in
      match name with
      | [] => None
      | _ =>
          match afterLiteral (list_ascii_of_string "' for writing") after with
          | Some _ => Some name
          | None => None
          end
      end
  | None => None
  end.

(** [line.match(...)]: the leftmost position at which the pattern matches;
    the result is its group 1. *)
Fixpoint matchOpeningFrom (cs : list ascii) : option (list ascii) :=
  match openingAt cs with
  | Some name => Some name
  | None =>
      match cs with
      | [] => None
      | _ :: cs' => matchOpeningFrom cs'
      end
  end.

Definition matchOpening (line : string) : option string :=
  option_map string_of_list_ascii
    (matchOpeningFrom (list_ascii_of_string line)).

(** [parseInt] on a string of digits. *)
Definition parseDigits (ds : list ascii) : Z :=
  fold_left (fun acc c => 10 * acc + (Z.of_N (N_of_ascii c) - 48)) ds 0.

(** [(\d{n})] at the head of [cs]: the group, as a number, and the rest. *)
Fixpoint digitsGroup (n : nat) (cs : list ascii) (group : list ascii)
  : option (Z * list ascii) :=
  match n with
  | O => Some (parseDigits (rev group), cs)
  | S n' =>
      match cs with
      | c :: cs' =>
          if isDigit c then digitsGroup n' cs' (c :: group) else None
      | [] => None
      end
  end.

(** The six numbers of a chunk name: year, month, day, hours, minutes,
    seconds. *)
Record ChunkStamp := {
  cs_year : Z; cs_month : Z; cs_day : Z;
  cs_hours : Z; cs_minutes : Z; cs_seconds : Z;
}.

(** [/chunk-(\d{4})(\d{2})(\d{2})-(\d{2})(\d{2})(\d{2})/] tried at the head
    of [cs]. *)
Definition stampAt (cs : list ascii) : option ChunkStamp :=
  match afterLiteral (list_ascii_of_string "chunk-") cs with
  | Some c0 =>
      match digitsGroup 4 c0 [] with
      | Some (y, c1) =>
      match digitsGroup 2 c1 [] with
      | Some (mo, c2) =>
      match digitsGroup 2 c2 [] with
      | Some (d, c3) =>
      match afterLiteral (list_ascii_of_string "-") c3 with
      | Some c4 =>
      match digitsGroup 2 c4 [] with
      | Some (h, c5) =>
      match digitsGroup 2 c5 [] with
      | Some (mi, c6) =>
      match digitsGroup 2 c6 [] with
      | Some (s, _) =>
          Some {| cs_year := y; cs_month := mo; cs_day := d;
                  cs_hours := h; cs_minutes := mi; cs_seconds := s |}
      | None => None end
      | None => None end
      | None => None end
      | None => None end
      | None => None end
      | None => None end
      | None => None end
  | None => None
  end.

Fixpoint matchStampFrom (cs : list ascii) : option ChunkStamp :=
  match stampAt cs with
  | Some stamp => Some stamp
  | None =>
      match cs with
      | [] => None
      | _ :: cs' => matchStampFrom cs'
      end
  end.

(** [prevFile.match(...)] with the groups parsed by [parseInt]. *)
Definition matchStamp (prevFile : string) : option ChunkStamp :=
  matchStampFrom (list_ascii_of_string prevFile).

(** The comparator of [sort()] without an argument: the order of the code
    units. *)
Definition codeUnitCompare (a b : string) : Z :=
  match String.compare a b with
  | Lt => -1
  | Eq => 0
  | Gt => 1
  end.

(** [completedSegments] and [currentSegmentStart] of [runService]. *)
Record Scanner := {
  completedSegments : gset string;
  currentSegmentStart : option Z;
}.

Definition initialScanner : Scanner :=
  {| completedSegments := ∅; currentSegmentStart := None |}.

(** The name a segment file gets from the pattern
    [chunk-%Y%m%d-%H%M%S.mp3]. *)
Definition chunkName (stamp : ChunkStamp) : string :=
  ("chunk-" ++ padded 4 (cs_year stamp) ++ padded 2 (cs_month stamp)
   ++ padded 2 (cs_day stamp) ++ "-" ++ padded 2 (cs_hours stamp)
   ++ padded 2 (cs_minutes stamp) ++ padded 2 (cs_seconds stamp)
   ++ ".mp3")%string.

Section SegmentCompletion.

(** [new Date(year, monthIndex, day, hours, minutes, seconds).getTime()]:
    the instant of a local wall-clock time, which depends on the time zone
    of the host. *)
Variable localTime : Z -> Z -> Z -> Z -> Z -> Z -> Z.
Variable chunksDir : string.

Definition stampTime (stamp : ChunkStamp) : Z :=
  localTime (cs_year stamp) (cs_month stamp - 1) (cs_day stamp)
            (cs_hours stamp) (cs_minutes stamp) (cs_seconds stamp).

(** The filter of the directory listing. *)
Definition isOtherChunk (segmentName : string) (f : string) : bool :=
  startsWith (list_ascii_of_string "chunk-") (list_ascii_of_string f)
  && endsWith (list_ascii_of_string ".mp3") (list_ascii_of_string f)
  && negb (String.eqb f segmentName).

(** The [for] loop over [prevFiles]: [calls] collects the arguments of the
    calls of [processCompletedChunk], in call order. *)
Fixpoint acknowledge (prevFiles : list string) (completed : gset string)
    (calls : list (string * Z)) : gset string * list (string * Z) :=
  match prevFiles with
  | [] => (completed, calls)
  | prevFile :: rest =>
      if decide (prevFile ∈ completed) then acknowledge rest completed calls
      else
        let completed' := {[ prevFile ]} ∪ completed in
        let audioFile := pathJoin chunksDir prevFile in
        match matchStamp prevFile with
        | Some stamp =>
            acknowledge rest completed'
              (calls ++ [(audioFile, stampTime stamp)])
        | None => acknowledge rest completed' calls
        end
  end.

(** The listener of [ffmpeg.stderr], on one piece of output: [fs] is the
    file system and [now] the clock at that moment. The result is the new
    scanner with the calls of [processCompletedChunk] it made, or [None]
    when [readdirSync] throws. *)
Definition onStderr (fs : FS) (now : Z) (line : string) (sc : Scanner)
  : option (Scanner * list (string * Z)) :=
  match matchOpening line with
  | Some newFile =>
      let segmentName := basename newFile in
      match currentSegmentStart sc with
      | Some _ =>
          if decide (segmentName ∈ completedSegments sc) then
            Some ({| completedSegments := completedSegments sc;
                     currentSegmentStart := Some now |}, [])
          else
            match readdir chunksDir fs with
            | (Ok entries, _) =>
                let prevFiles :=
                  sortBy codeUnitCompare
                    (List.filter (isOtherChunk segmentName)
                                 (List.map d_name entries)) in
                let (completed, calls) :=
                  acknowledge prevFiles (completedSegments sc) [] in
                Some ({| completedSegments := completed;
                         currentSegmentStart := Some now |}, calls)
            | (Err _, _) => None
            end
      | None =>
          Some ({| completedSegments := completedSegments sc;
                   currentSegmentStart := Some now |}, [])
      end
  | None => Some (sc, [])
  end.

(** The listener over the pieces of output of a run, each with the file
    system and the clock of its moment. *)
Fixpoint scan (outputs : list (FS * Z * string)) (sc : Scanner)
  : option (Scanner * list (string * Z)) :=
  match outputs with
  | [] => Some (sc, [])
  | (fs, now, line) :: rest =>
      match onStderr fs now line sc with
      | Some (sc', calls) =>
          match scan rest sc' with
          | Some (sc'', calls') => Some (sc'', calls ++ calls')
          | None => None
          end
      | None => None
      end
  end.

End SegmentCompletion.

(** ** Archive scraper *)

(** An episode object of the listen-back API, typed as the code types it
    ([interface APIEpisode]). The identifier is an integer. *)
Record APIEpisode := {
  ep_id : Z;
  ep_title : jsstring;
  ep_content : jsstring;
  ep_date : jsstring;
  ep_link : jsstring;
  ep_image_url : jsstring;
  ep_audio_url : jsstring;
  ep_has_audio : bool;
}.

(** [ep.has_audio && ep.audio_url]: the empty string is falsy. *)
Definition hasAudio (ep : APIEpisode) : bool :=
  ep_has_audio ep && truthy (Some (ep_audio_url ep)).

(** The body of the inner loop of [fetchEpisodes] on [allEpisodes] and
    [seenIds]. *)
Definition keepEpisode (acc : list APIEpisode * gset Z) (ep : APIEpisode)
  : list APIEpisode * gset Z :=
  let (allEpisodes, seenIds) := acc in
  if hasAudio ep && bool_decide (ep_id ep ∉ seenIds)
  then (allEpisodes ++ [ep], {[ep_id ep]} ∪ seenIds)
  else acc.

(** An element of the array an endpoint answers: an episode object; a
    number, a string or a boolean, whose properties read [undefined]; or
    [null], on which the read of [has_audio] throws. *)
Inductive Element :=
  | Entry (ep : APIEpisode)
  | NotAnObject
  | NullEntry.

(** The inner loop. The [try] spans it: when the read of [ep.has_audio]
    throws, the [catch] ends the loop of this endpoint; what was pushed
    before stays, what follows is never looked at. *)
Fixpoint keepEpisodes (elements : list Element)
    (acc : list APIEpisode * gset Z) : list APIEpisode * gset Z :=
  match elements with
  | [] => acc
  | Entry ep :: rest => keepEpisodes rest (keepEpisode acc ep)
  | NotAnObject :: rest => keepEpisodes rest acc
  | NullEntry :: _ => acc
  end.

(** One endpoint: [None] when the fetch or [JSON.parse] threw or the value
    parsed cannot be iterated, which the [catch] absorbs before any element
    is looked at. *)
Definition fetchEndpoint (acc : list APIEpisode * gset Z)
    (response : option (list Element)) : list APIEpisode * gset Z :=
  match response with
  | Some elements => keepEpisodes elements acc
  | None => acc
  end.

(** [fetchEpisodes()], given what each endpoint of [API_ENDPOINTS] answered,
    in order. *)
Definition fetchEpisodes (responses : list (option (list Element)))
  : list APIEpisode :=
  fst (fold_left fetchEndpoint responses ([], ∅)).

(** The episode objects of an answer that come before its first [null]. *)
Fixpoint reached (elements : list Element) : list APIEpisode :=
  match elements with
  | [] => []
  | Entry ep :: rest => ep :: reached rest
  | NotAnObject :: rest => reached rest
  | NullEntry :: _ => []
  end.

(** [s.split(sep)] for a separator of one code unit; [cur] is the piece
    being read, reversed. *)
Fixpoint splitFrom (sep : N) (cur : jsstring) (s : jsstring) : list jsstring :=
  match s with
  | [] => [rev cur]
  | u :: s' =>
      if (u =? sep)%N then rev cur :: splitFrom sep [] s'
      else splitFrom sep (u :: cur) s'
  end.

Definition splitOn (sep : N) (s : jsstring) : list jsstring :=
  splitFrom sep [] s.

Definition spaceUnit : N := 32.
Definition slashUnit : N := 47.
Definition hyphenUnit : N := 45.
Definition underscoreUnit : N := 95.

(** The decimal digits of a positive integer, most significant first. *)
Fixpoint digitsOf (fuel : nat) (n : Z) (acc : jsstring) : jsstring :=
  match fuel with
  | O => acc
  | S fuel' =>
      let acc' := Z.to_N (48 + n mod 10) :: acc in
      if n / 10 =? 0 then acc' else digitsOf fuel' (n / 10) acc'
  end.

(** [`${n}`] for an integer. *)
Definition numberToString (n : Z) : jsstring :=
  if n <? 0 then hyphenUnit :: digitsOf (S (Z.to_nat (Z.log2 (- n)))) (- n) []
  else digitsOf (S (Z.to_nat (Z.log2 n))) n [].

Definition nonEmpty (s : jsstring) : bool :=
  match s with [] => false | _ => true end.

(** [episode.date.split(" ")[0]] *)
Definition dateOf (episode : APIEpisode) : jsstring :=
  hd [] (splitOn spaceUnit (ep_date episode)).

(** [episode.link.split("/").filter(Boolean).pop() || `episode-${episode.id}`] *)
Definition slugOf (episode : APIEpisode) : jsstring :=
  match last (List.filter nonEmpty (splitOn slashUnit (ep_link episode))) with
  | Some slug => slug
  | None => js "episode-" ++ numberToString (ep_id episode)
  end.

(** [[a-zA-Z0-9-]] *)
Definition safeUnit (u : N) : bool :=
  ((97 <=? u) && (u <=? 122) || (65 <=? u) && (u <=? 90)
   || (48 <=? u) && (u <=? 57) || (u =? hyphenUnit))%N.

(** [slug.slice(0, 60).replace(/[^a-zA-Z0-9-]/g, "-")] *)
Definition safeSlugOf (slug : jsstring) : jsstring :=
  List.map (fun u => if safeUnit u then u else hyphenUnit) (take 60 slug).

(** The [id] of [processEpisode]: [`${date}_${safeSlug}`]. *)
Definition episodeId (episode : APIEpisode) : jsstring :=
  dateOf episode ++ [underscoreUnit] ++ safeSlugOf (slugOf episode).

(** What a run of the inner loops keeps true: the set holds the identifiers
    of the episodes kept, no identifier is kept twice, the episodes kept so
    far stay where they are, each one added has audio and comes from the
    input, and each input episode with audio has its identifier kept. *)
Definition keptRight (source : list APIEpisode)
    (acc acc' : list APIEpisode * gset Z) : Prop :=
  (forall n, n ∈ snd acc' <-> In n (List.map ep_id (fst acc'))) /\
  List.NoDup (List.map ep_id (fst acc')) /\
  (exists more, fst acc' = fst acc ++ more /\
                Forall (fun e => In e source /\ hasAudio e = true) more) /\
  (forall e, In e source -> hasAudio e = true ->
             In (ep_id e) (List.map ep_id (fst acc'))).

(** ** Further sample inputs *)

(** An episode with audio, and two answers: the first has a [null] between
    two episodes, the second repeats an episode of the first. *)
Definition sampleEpisode (n : Z) : APIEpisode :=
  {| ep_id := n; ep_title := js "Sendung"; ep_content := [];
     ep_date := js "2026-01-18 10:00:00";
     ep_link := js "https://austriafirst.at/sendung/";
     ep_image_url := []; ep_audio_url := js "https://austriafirst.at/a.mp3";
     ep_has_audio := true |}.

Definition sampleAnswers : list (option (list Element)) :=
  [ Some [Entry (sampleEpisode 1); NullEntry; Entry (sampleEpisode 5)];
    None;
    Some [NotAnObject; Entry (sampleEpisode 1); Entry (sampleEpisode 2)] ].

(** The two sub-segments of the long sample file and what the reference
    transcriber reports for them. *)
Definition sampleSubSegments : list (list Byte.byte) :=
  [ replicate (Z.to_nat 19200000) Byte.x61;
    replicate (Z.to_nat 1800000) Byte.x62 ].

Definition sampleSubResults : list (GroqTranscriptionResult Q) :=
  [ {| r_duration := (4796 # 10)%Q;
       r_segments := [ {| g_start := 0%Q; g_end := (25 # 10)%Q;
                          g_text := [32%N; 97%N; 32%N] |} ] |};
    {| r_duration := (4796 # 10)%Q;
       r_segments := [ {| g_start := 0%Q; g_end := (25 # 10)%Q;
                          g_text := [32%N; 98%N; 32%N] |} ] |} ].

(** The two speech chunks of the sample disk. *)
Definition sampleSpeechChunks : list ChunkInfo :=
  [ speechChunk "/data/chunks/chunk-20250101-100000.mp3" sampleStart1;
    speechChunk "/data/chunks/chunk-20250101-100200.mp3" sampleStart2 ].

(** A chunk list whose first file was never recorded. *)
Definition sampleLostChunks : list ChunkInfo :=
  [ speechChunk "/data/chunks/chunk-20250101-095800.mp3" (sampleStart1 - 120000);
    speechChunk "/data/chunks/chunk-20250101-100000.mp3" sampleStart1 ].

(** A clock for chunk names: the milliseconds since the start of the year
    in a calendar of months of 31 days. *)
Definition sampleLocalTime (year month day hours minutes seconds : Z) : Z :=
  (((((year * 12 + month) * 31 + day) * 24 + hours) * 60 + minutes) * 60
   + seconds) * 1000.

(** What ffmpeg writes on its standard error while the three chunks of the
    sample disk are recorded, with the directory and the clock reading at
    each line. *)
Definition sampleDiskAt (n : nat) : FS :=
  list_to_map
    (take (3 + n)
       [ ("/data", Dir); ("/data/chunks", Dir); ("/data/live", Dir);
         ("/data/chunks/chunk-20250101-100000.mp3", File [Byte.x61; Byte.x61]);
         ("/data/chunks/chunk-20250101-100200.mp3", File [Byte.x62]);
         ("/data/chunks/chunk-20250101-100400.mp3", File [Byte.x63]) ]%string).

Definition sampleStderr : list (FS * Z * string) :=
  [ (sampleDiskAt 1, sampleStart1,
     "[segment @ 0x55d0] Opening '/data/chunks/chunk-20250101-100000.mp3' for writing"%string);
    (sampleDiskAt 1, sampleStart1 + 5000,
     "size=     256kB time=00:00:05.00 bitrate= 320.0kbits/s speed=1x"%string);
    (sampleDiskAt 2, sampleStart2,
     "[segment @ 0x55d0] Opening '/data/chunks/chunk-20250101-100200.mp3' for writing"%string);
    (sampleDiskAt 3, sampleStart3,
     "[segment @ 0x55d0] Opening '/data/chunks/chunk-20250101-100400.mp3' for writing"%string) ].

(* ===================================================================== *)
(** * Part II: properties                                                 *)
(* ===================================================================== *)

(** ** Chunk classifier *)

Lemma filter_length_le {A} (p : A -> bool) (l : list A) :
  (length (List.filter p l) <= length l)%nat.
Proof.
  induction l as [|x l IH]; simpl; [lia|].
  destruct (p x); simpl; lia.
Qed.

Lemma existsb_filter_length {A} (p : A -> bool) (l : list A) :
  existsb p l = true <-> (0 < length (List.filter p l))%nat.
Proof.
  induction l as [|x l IH]; simpl.
  - split; [discriminate | lia].
  - destruct (p x); simpl; [split; [lia | reflexivity] | exact IH].
Qed.

(** C4. For every time range and every buffer, the speech ratio lies in
    [0,1], it is 0 when no sample falls in the range, and the chunk is
    classified as speech exactly when the ratio is positive. *)
Theorem speech_ratio_unit_interval_and_flag
    (buf : list MetadataSample) (startMs endMs : Z) :
  (0 <= getChunkSpeechRatio buf startMs endMs)%Q /\
  (getChunkSpeechRatio buf startMs endMs <= 1)%Q /\
  (List.filter (inRange startMs endMs) buf = [] ->
     getChunkSpeechRatio buf startMs endMs = 0%Q) /\
  (chunkHasSpeech buf startMs endMs = true <->
     (0 < getChunkSpeechRatio buf startMs endMs)%Q).
Proof.
  unfold getChunkSpeechRatio, chunkHasSpeech.
  set (samples := List.filter (inRange startMs endMs) buf).
  pose proof (filter_length_le noArtist samples) as Hle.
  pose proof (existsb_filter_length noArtist samples) as Hex.
  destruct (Nat.eqb_spec (length samples) 0) as [H0|Hn].
  - destruct samples; [|discriminate]. simpl in *.
    split; [apply Qle_refl|]. split; [discriminate|].
    split; [reflexivity|].
    split; [discriminate|].
    intros H. exfalso. revert H. unfold Qlt. simpl. lia.
  - assert (Hpos : (0 < length samples)%nat) by lia.
    assert (Hp : Z.pos (Pos.of_nat (length samples)) = Z.of_nat (length samples)).
    { rewrite <- positive_nat_Z. rewrite Nat2Pos.id by lia. reflexivity. }
    repeat split.
    + unfold Qle. simpl. lia.
    + unfold Qle. simpl. rewrite Hp. lia.
    + intros He. rewrite He in Hn. simpl in Hn. lia.
    + intros H. apply Hex in H. unfold Qlt. simpl. lia.
    + intros H. apply Hex. unfold Qlt in H. simpl in H. lia.
Qed.

(** ** Metadata sampler *)

Lemma shiftWhileOld_suffix cutoff buf :
  exists dropped, buf = dropped ++ shiftWhileOld cutoff buf /\
    Forall (fun s => timestamp s < cutoff) dropped.
Proof.
  induction buf as [|s rest IH]; simpl.
  - exists []. split; [reflexivity | constructor].
  - destruct (Z.ltb_spec (timestamp s) cutoff) as [Hlt|Hge].
    + destruct IH as (d & Heq & Hd). exists (s :: d). split.
      * simpl. f_equal. exact Heq.
      * constructor; assumption.
    + exists []. split; [reflexivity | constructor].
Qed.

Lemma shiftWhileOld_push_fresh cutoff buf x :
  nonDecreasing buf -> cutoff <= timestamp x ->
  Forall (fun s => cutoff <= timestamp s) (shiftWhileOld cutoff (buf ++ [x])).
Proof.
  intros Hsorted Hx. induction buf as [|s rest IH]; simpl.
  - destruct (Z.ltb_spec (timestamp x) cutoff); [lia|].
    constructor; [assumption | constructor].
  - apply StronglySorted_inv in Hsorted as [Hrest Hall].
    destruct (Z.ltb_spec (timestamp s) cutoff) as [Hlt|Hge].
    + apply IH; assumption.
    + constructor; [assumption|].
      apply Forall_app. split.
      * eapply Forall_impl; [exact Hall|]. simpl. intros; lia.
      * constructor; [assumption | constructor].
Qed.

(** C5. After the insert of a poller tick, for every prior buffer with
    non-decreasing timestamps, no sample of the buffer is older than the
    15-minute retention window counted from the insert time. *)
Theorem poller_insert_keeps_retention_window
    (response : option NowPlaying) (now : Z) (iso : string) (st : Sampler) :
  nonDecreasing (metadataBuffer st) ->
  Forall (fun s => now - 15 * 60 * 1000 <= timestamp s)
         (metadataBuffer (pollerTick response now iso st)).
Proof.
  intros Hsorted. unfold pollerTick. cbn [metadataBuffer].
  apply shiftWhileOld_push_fresh; [assumption|].
  cbn [timestamp]. unfold RETENTION_MS. lia.
Qed.

(** ** Title generation *)

Lemma rev_nonempty_length {A} (cur : list A) :
  (0 <? length (rev cur))%nat = match cur with [] => false | _ => true end.
Proof.
  rewrite length_rev. destruct cur; reflexivity.
Qed.

(** Splitting at white space and dropping the empty pieces yields the words
    of the text. *)
Lemma splitWsFrom_words (s cur : jsstring) (inWs : bool) :
  (inWs = true -> cur = []) ->
  List.filter (fun w => (0 <? length w)%nat) (splitWsFrom cur inWs s)
  = wordsFrom cur s.
Proof.
  revert cur inWs. induction s as [|c s IH]; intros cur inWs Hws; simpl.
  - rewrite rev_nonempty_length. destruct cur; reflexivity.
  - destruct (isWhiteSpace c).
    + destruct inWs.
      * rewrite (Hws eq_refl). apply IH. reflexivity.
      * simpl. rewrite rev_nonempty_length.
        destruct cur; rewrite IH by reflexivity; reflexivity.
    + apply IH. discriminate.
Qed.

Lemma titleWords_wordsOf (segments : list TranscriptSegment) :
  titleWords segments = wordsOf (transcriptText segments).
Proof.
  unfold titleWords, splitWs, wordsOf, transcriptText.
  apply splitWsFrom_words. discriminate.
Qed.

Lemma slice0_nonneg {A} (e : Z) (l : list A) :
  0 <= e -> slice0 e l = firstn (Z.to_nat e) l.
Proof.
  intros He. unfold slice0.
  destruct (Z.ltb_spec e 0) as [Hneg|_]; [lia|].
  destruct (Z.le_gt_cases e (Z.of_nat (length l))) as [Hle|Hgt].
  - rewrite Z.min_l by lia. reflexivity.
  - rewrite Z.min_r by lia. rewrite Nat2Z.id.
    rewrite firstn_all. symmetry. apply firstn_all2. lia.
Qed.

(** The title, with the slice and the marker test spelled out. *)
Lemma generateTitle_nonneg (segments : list TranscriptSegment) (maxWords : Z) :
  0 <= maxWords ->
  generateTitle segments maxWords
  = joinWith (js " ")
      (firstn (Z.to_nat maxWords) (wordsOf (transcriptText segments)))
    ++ (if maxWords <? Z.of_nat (length (wordsOf (transcriptText segments)))
        then js "..." else []).
Proof.
  intros Hnn. unfold generateTitle.
  rewrite titleWords_wordsOf, slice0_nonneg by assumption. reflexivity.
Qed.

(** C8. With a non-negative word limit: when the concatenated text of the
    transcript has more than [maxWords] words, the title is the first
    [maxWords] words joined by single spaces followed by the marker [...];
    when it has at most [maxWords] words, the title is all the words joined
    by single spaces, without a marker. *)
Theorem generateTitle_first_words_and_marker
    (segments : list TranscriptSegment) (maxWords : Z) :
  0 <= maxWords ->
  (maxWords < Z.of_nat (length (wordsOf (transcriptText segments))) ->
     generateTitle segments maxWords
     = joinWith (js " ")
         (firstn (Z.to_nat maxWords) (wordsOf (transcriptText segments)))
       ++ js "...") /\
  (Z.of_nat (length (wordsOf (transcriptText segments))) <= maxWords ->
     generateTitle segments maxWords
     = joinWith (js " ") (wordsOf (transcriptText segments))).
Proof.
  intros Hnn. rewrite generateTitle_nonneg by assumption.
  set (words := wordsOf (transcriptText segments)).
  split; intros Hlen.
  - destruct (Z.ltb_spec maxWords (Z.of_nat (length words))); [reflexivity | lia].
  - destruct (Z.ltb_spec maxWords (Z.of_nat (length words))); [lia|].
    rewrite app_nil_r. f_equal. apply firstn_all2. lia.
Qed.

Lemma wordsFrom_run (w rest cur : jsstring) :
  Forall (fun c => isWhiteSpace c = false) w ->
  wordsFrom cur (w ++ rest) = wordsFrom (rev w ++ cur) rest.
Proof.
  revert cur. induction w as [|c w IH]; intros cur Hw; simpl; [reflexivity|].
  apply Forall_cons_1 in Hw as [Hc Hw]. rewrite Hc.
  rewrite IH by assumption. rewrite <- app_assoc. reflexivity.
Qed.

Lemma wordsFrom_rev_nonempty (w : jsstring) (k : list jsstring) :
  w <> [] ->
  match rev w with [] => k | _ => rev (rev w) :: k end = w :: k.
Proof.
  intros Hne. destruct (rev w) eqn:Hr.
  - apply (f_equal (@rev N)) in Hr. rewrite rev_involutive in Hr. contradiction.
  - rewrite <- Hr, rev_involutive. reflexivity.
Qed.

(** Words joined by single spaces are read back as they are. *)
Lemma wordsOf_joinWith_space (ws : list jsstring) :
  Forall properWord ws -> wordsOf (joinWith (js " ") ws) = ws.
Proof.
  unfold wordsOf. induction ws as [|w ws IH]; intros Hws; [reflexivity|].
  apply Forall_cons_1 in Hws as [[Hne Hw] Hws].
  destruct ws as [|w' ws].
  - cbn [joinWith].
    replace (wordsFrom [] w) with (wordsFrom [] (w ++ [])) by (now rewrite app_nil_r).
    rewrite wordsFrom_run by assumption.
    rewrite app_nil_r. cbn [wordsFrom].
    apply (wordsFrom_rev_nonempty w [] Hne).
  - change (joinWith (js " ") (w :: w' :: ws))
      with (w ++ js " " ++ joinWith (js " ") (w' :: ws)).
    rewrite wordsFrom_run by assumption. rewrite app_nil_r.
    change (js " " ++ joinWith (js " ") (w' :: ws))
      with (32%N :: joinWith (js " ") (w' :: ws)).
    cbn [wordsFrom]. change (isWhiteSpace 32) with true. cbn iota.
    rewrite (IH Hws).
    apply (wordsFrom_rev_nonempty w (w' :: ws) Hne).
Qed.

(** For a transcript of one segment whose text is a list of words separated
    by single spaces, the title keeps the first [maxWords] of these words. *)
Corollary generateTitle_of_spaced_words (ws : list jsstring) (maxWords : Z) :
  Forall properWord ws -> 0 <= maxWords ->
  generateTitle
    [ {| seg_start := 0; seg_end := 0; seg_text := joinWith (js " ") ws |} ]
    maxWords
  = joinWith (js " ") (firstn (Z.to_nat maxWords) ws)
    ++ (if maxWords <? Z.of_nat (length ws) then js "..." else []).
Proof.
  intros Hws Hnn. rewrite generateTitle_nonneg by assumption.
  unfold transcriptText. cbn [List.map joinWith seg_text].
  rewrite wordsOf_joinWith_space by assumption. reflexivity.
Qed.

(** ** Transcription gateway *)

Section GatewayProperties.
Context `{Platform}.

(** The loop of the large-file branch, started with any accumulators. *)
Lemma transcribeChunks_shifted
    (chunkFiles : list (list Byte.byte))
    (results : list (GroqTranscriptionResult double))
    (allSegments : list TranscriptSegment) (timeOffsetMs : Z) (fs : FS) :
  Forall2 (fun chunkFile r => groqTranscribe chunkFile = Some r)
          chunkFiles results ->
  transcribeChunks chunkFiles allSegments timeOffsetMs fs
  = (Ok (allSegments ++
         concat (imap (fun i r =>
                   List.map (offsetSegment (timeOffsetMs + durationsBefore results i))
                            (r_segments r))
                 results)), fs).
Proof.
  intros Hall. revert allSegments timeOffsetMs.
  induction Hall as [|chunkFile r chunkFiles results Hr Hall IH];
    intros allSegments timeOffsetMs.
  - simpl. unfold io_ret. rewrite app_nil_r. reflexivity.
  - cbn [transcribeChunks]. unfold io_bind, transcribeChunkData.
    rewrite Hr. unfold io_ret at 1. rewrite IH.
    rewrite <- app_assoc. do 3 f_equal.
    cbn [imap concat]. f_equal.
    + unfold durationsBefore. cbn. rewrite Z.add_0_r. reflexivity.
    + f_equal. apply imap_ext. intros i r' _. cbn.
      unfold durationsBefore. cbn [firstn List.map fold_right].
      f_equal. f_equal. lia.
Qed.

(** C6. A file above the 20MB threshold is transcribed as the concatenation,
    in split order, of its sub-segment transcripts, each segment of
    sub-segment [i] shifted by the summed reported durations, in
    milliseconds, of the sub-segments before [i]; a file at or below the
    threshold is transcribed without any shift, seconds converted to rounded
    milliseconds. *)
Theorem transcribeAudio_offsets_by_reported_durations
    (fs : FS) (inputPath : string) (data : list Byte.byte) :
  fs !! inputPath = Some (File data) ->
  (forall chunkFiles results,
     MAX_FILE_SIZE < Z.of_nat (length data) ->
     ffmpegSegment data = Some chunkFiles ->
     Forall2 (fun chunkFile r => groqTranscribe chunkFile = Some r)
             chunkFiles results ->
     transcribeAudio inputPath fs = (Ok (shiftedTranscripts results), fs)) /\
  (forall result,
     Z.of_nat (length data) <= MAX_FILE_SIZE ->
     groqTranscribe data = Some result ->
     transcribeAudio inputPath fs
     = (Ok (List.map (fun seg =>
              {| seg_start := secondsToMs (g_start seg);
                 seg_end := secondsToMs (g_end seg);
                 seg_text := trim (g_text seg) |}) (r_segments result)), fs)).
Proof.
  intros Hfile. split.
  - intros chunkFiles results Hbig Hsplit Hall.
    unfold transcribeAudio, io_bind, getFileSize. rewrite Hfile.
    destruct (Z.leb_spec (Z.of_nat (length data)) MAX_FILE_SIZE); [lia|].
    unfold splitAudioFile, io_bind, readFile. rewrite Hfile, Hsplit.
    unfold io_ret at 1.
    rewrite (transcribeChunks_shifted _ _ _ _ _ Hall). reflexivity.
  - intros result Hsmall Hgroq.
    unfold transcribeAudio, io_bind, getFileSize. rewrite Hfile.
    destruct (Z.leb_spec (Z.of_nat (length data)) MAX_FILE_SIZE); [|lia].
    unfold transcribeChunk, io_bind, readFile, transcribeChunkData.
    rewrite Hfile, Hgroq. reflexivity.
Qed.

End GatewayProperties.

(** ** Index builder *)

(** *** The timestamp order *)

Lemma string_compare_le_trans (a b c : string) :
  String.compare a b <> Gt -> String.compare b c <> Gt ->
  String.compare a c <> Gt.
Proof.
  revert b c. induction a as [|x a IH]; intros b c Hab Hbc.
  - destruct c; simpl; discriminate.
  - destruct b as [|y b]; [simpl in Hab; congruence|].
    destruct c as [|z c]; [simpl in Hbc; congruence|].
    simpl in *. unfold Ascii.compare in *.
    destruct (N.compare_spec (N_of_ascii x) (N_of_ascii y)) as [Hxy|Hxy|Hxy];
      try congruence;
      destruct (N.compare_spec (N_of_ascii y) (N_of_ascii z)) as [Hyz|Hyz|Hyz];
      try congruence;
      destruct (N.compare_spec (N_of_ascii x) (N_of_ascii z)) as [Hxz|Hxz|Hxz];
      try discriminate; try lia.
    eapply IH; eassumption.
Qed.

(** *** The sort *)

Lemma insertSorted_perm {A} (cmp : A -> A -> Z) (x : A) (l : list A) :
  Permutation (insertSorted cmp x l) (x :: l).
Proof.
  induction l as [|y l IH]; simpl; [reflexivity|].
  destruct (cmp y x <=? 0); [|reflexivity].
  rewrite IH. apply perm_swap.
Qed.

Lemma sortBy_perm {A} (cmp : A -> A -> Z) (l : list A) :
  Permutation (sortBy cmp l) l.
Proof.
  unfold sortBy.
  assert (Hgen : forall acc, Permutation
            (fold_left (fun acc x => insertSorted cmp x acc) l acc) (acc ++ l)).
  { induction l as [|x l IH]; intros acc; simpl.
    - rewrite app_nil_r. reflexivity.
    - rewrite IH, insertSorted_perm.
      change (x :: acc ++ l) with ((x :: acc) ++ l).
      rewrite (Permutation_middle acc l x). reflexivity. }
  apply (Hgen []).
Qed.

Lemma insertSorted_Forall {A} (P : A -> Prop) (cmp : A -> A -> Z) (x : A)
    (l : list A) :
  P x -> Forall P l -> Forall P (insertSorted cmp x l).
Proof.
  intros Hx. induction 1 as [|y l Hy Hl IH]; simpl.
  - repeat constructor. exact Hx.
  - destruct (cmp y x <=? 0); repeat constructor; assumption.
Qed.

(** *** Paths *)

Lemma list_ascii_of_string_app (a b : string) :
  list_ascii_of_string (a ++ b)
  = list_ascii_of_string a ++ list_ascii_of_string b.
Proof.
  induction a as [|c a IH]; simpl; [reflexivity | now rewrite IH].
Qed.

Lemma beforeSlashRev_skip (l rest : list ascii) :
  forallb (fun c => negb (Ascii.eqb c slash)) l = true ->
  beforeSlashRev (l ++ slash :: rest) = rest.
Proof.
  induction l as [|c l IH]; cbn [beforeSlashRev app forallb].
  - intros _. rewrite Ascii.eqb_refl. reflexivity.
  - intros Hl. apply andb_prop in Hl as [Hc Hl].
    destruct (Ascii.eqb c slash); [discriminate | exact (IH Hl)].
Qed.

Lemma dirname_pathJoin (dir name : string) :
  forallb (fun c => negb (Ascii.eqb c slash)) (list_ascii_of_string name) = true ->
  dirname (pathJoin dir name) = dir.
Proof.
  intros Hname. unfold dirname, pathJoin.
  rewrite list_ascii_of_string_app. simpl.
  rewrite rev_app_distr. simpl. rewrite <- app_assoc. simpl.
  rewrite beforeSlashRev_skip.
  - rewrite rev_involutive. apply string_of_list_ascii_of_string.
  - rewrite forallb_forall in *. intros c Hc. apply Hname.
    apply in_rev. exact Hc.
Qed.

(** *** The scan of the directory *)

Section IndexProperties.
Context `{Platform}.

(** On values of the shape of a record the comparator is the order of the
    timestamps, latest first. *)
Lemma descending_trans : Transitive descending.
Proof.
  intros a b c (ta & tb & Ha & Hb & Hab) (tb' & tc & Hb' & Hc & Hbc).
  rewrite Hb in Hb'. injection Hb' as <-.
  exists ta, tc. split; [exact Ha|]. split; [exact Hc|].
  eapply string_compare_le_trans; eassumption.
Qed.

Lemma byTimestampDescending_records (a b : json) :
  isBroadcastRecord a = true -> isBroadcastRecord b = true ->
  (byTimestampDescending a b <= 0 -> descending a b) /\
  (~ byTimestampDescending a b <= 0 -> descending b a).
Proof.
  unfold isBroadcastRecord, byTimestampDescending, descending, localeCompare.
  destruct (timestampOf a) as [| |ta]; try discriminate.
  destruct (timestampOf b) as [| |tb]; try discriminate.
  intros Ha Hb. rewrite Hb, Ha. cbn [andb]. split; intros Hcmp.
  - exists ta, tb. split; [reflexivity|]. split; [reflexivity|].
    destruct (String.compare tb ta); [discriminate | discriminate | lia].
  - exists tb, ta. split; [reflexivity|]. split; [reflexivity|].
    rewrite (String.compare_antisym tb ta) in Hcmp.
    destruct (String.compare ta tb); cbn [CompOpp] in Hcmp;
      [discriminate | discriminate | lia].
Qed.

Lemma insertSorted_sorted (x : json) (l : list json) :
  isBroadcastRecord x = true ->
  Forall (fun v => isBroadcastRecord v = true) l ->
  Sorted descending l ->
  Sorted descending (insertSorted byTimestampDescending x l).
Proof.
  intros Hx. induction 1 as [|y l Hy Hl IH]; intros Hs; simpl.
  - repeat constructor.
  - apply Sorted_inv in Hs as [Hs Hhd].
    destruct (byTimestampDescending_records y x Hy Hx) as [Hle Hgt].
    destruct (Z.leb_spec (byTimestampDescending y x) 0) as [Hcmp|Hcmp].
    + constructor; [apply IH; assumption|].
      destruct Hl as [|z l Hz Hl]; simpl.
      * constructor. apply Hle, Hcmp.
      * destruct (byTimestampDescending z x <=? 0).
        -- constructor. apply HdRel_inv in Hhd. assumption.
        -- constructor. apply Hle, Hcmp.
    + constructor; [constructor; assumption|].
      constructor. apply Hgt. lia.
Qed.

Lemma sortBy_sorted (l : list json) :
  Forall (fun v => isBroadcastRecord v = true) l ->
  StronglySorted descending (sortBy byTimestampDescending l).
Proof.
  intros Hl. apply Sorted_StronglySorted; [exact descending_trans|].
  unfold sortBy.
  assert (Hgen : forall acc,
            Forall (fun v => isBroadcastRecord v = true) acc ->
            Sorted descending acc ->
            Sorted descending
              (fold_left (fun acc x => insertSorted byTimestampDescending x acc)
                         l acc)).
  { induction Hl as [|x l Hx Hl IH]; intros acc Hacc Hs; simpl; [assumption|].
    apply IH; [apply insertSorted_Forall | apply insertSorted_sorted];
      assumption. }
  apply Hgen; constructor.
Qed.

(** Records are sorted; the comparator is never asked about anything else. *)
Lemma sortBroadcasts_records (broadcasts : list json) (fs : FS) :
  Forall (fun v => isBroadcastRecord v = true) broadcasts ->
  sortBroadcasts broadcasts fs
  = (Ok (sortBy byTimestampDescending broadcasts), fs).
Proof.
  intros Hl. unfold sortBroadcasts.
  assert (Hall : forallb hasTimestamp broadcasts = true).
  { apply forallb_forall. rewrite List.Forall_forall in Hl.
    intros v Hv. specialize (Hl v Hv).
    unfold isBroadcastRecord in Hl. unfold hasTimestamp.
    destruct (timestampOf v); [discriminate | discriminate | reflexivity]. }
  rewrite Hall. reflexivity.
Qed.

(** A [null] among two or more values makes the sort throw. *)
Lemma sortBroadcasts_null (broadcasts : list json) (fs : FS) :
  (2 <= length broadcasts)%nat ->
  existsb isNull broadcasts = true ->
  sortBroadcasts broadcasts fs = (Err TypeError, fs).
Proof.
  intros Hlen Hnull. unfold sortBroadcasts.
  assert (Hall : forallb hasTimestamp broadcasts = false).
  { apply not_true_is_false. intros Hall.
    apply existsb_exists in Hnull as (v & Hv & Hisnull).
    rewrite forallb_forall in Hall. specialize (Hall v Hv).
    unfold isNull in Hisnull. unfold hasTimestamp in Hall.
    destruct (timestampOf v); discriminate. }
  rewrite Hall.
  destruct (Nat.ltb_spec (length broadcasts) 2) as [Hshort|_]; [lia|].
  rewrite Hnull. reflexivity.
Qed.

Lemma collectBroadcasts_parsable (liveDir : string) (entries : list Dirent)
    (broadcasts : list json) (fs : FS) :
  collectBroadcasts liveDir entries broadcasts fs
  = (Ok (broadcasts ++ omap (parsableRecord liveDir fs) entries), fs).
Proof.
  revert broadcasts. induction entries as [|entry rest IH]; intros broadcasts.
  - simpl. unfold io_ret. rewrite app_nil_r. reflexivity.
  - cbn [collectBroadcasts omap list_omap]. unfold parsableRecord at 1.
    destruct (d_isDirectory entry); cbn [negb].
    + unfold io_bind at 1, existsSync.
      destruct (fs !! pathJoin (pathJoin liveDir (d_name entry)) "broadcast.json")
        as [[data|]|] eqn:Hjson.
      * rewrite bool_decide_eq_true_2 by eauto.
        unfold io_bind at 1, attempt, io_bind at 1, readFile. rewrite Hjson.
        unfold parseJson.
        destruct (jsonParse data) as [broadcast|].
        -- unfold io_ret. rewrite IH, <- app_assoc. reflexivity.
        -- unfold throw. apply IH.
      * rewrite bool_decide_eq_true_2 by eauto.
        unfold io_bind at 1, attempt, io_bind at 1, readFile. rewrite Hjson.
        apply IH.
      * rewrite bool_decide_eq_false_2 by (intros [? ?]; discriminate).
        apply IH.
    + apply IH.
Qed.

(** The rebuild, once the record files have been read. *)
Lemma updateLiveIndex_after_scan (liveDir : string) (fs : FS) :
  fs !! liveDir = Some Dir ->
  updateLiveIndex liveDir fs
  = match sortBroadcasts (parsableRecords liveDir fs) fs with
    | (Ok sorted, _) =>
        writeFile (indexPathOf liveDir) (stringifyIndex sorted) fs
    | (Err e, _) => (Err e, fs)
    end.
Proof.
  intros Hdir. unfold updateLiveIndex, parsableRecords, readdir.
  unfold io_bind at 1. rewrite Hdir.
  unfold io_bind at 1. rewrite collectBroadcasts_parsable. cbn [app].
  unfold io_bind, sortBroadcasts.
  repeat match goal with
         | |- context [if ?c then _ else _] => destruct c
         | |- context [match engineSort ?l with _ => _ end] =>
             destruct (engineSort l)
         end; reflexivity.
Qed.

Lemma updateLiveIndex_sorts_records (liveDir : string) (fs : FS) :
  fs !! liveDir = Some Dir ->
  isDir fs (indexPathOf liveDir) = false ->
  Forall (fun v => isBroadcastRecord v = true) (parsableRecords liveDir fs) ->
  updateLiveIndex liveDir fs
  = (Ok tt,
     <[indexPathOf liveDir :=
         File (stringifyIndex
                 (sortBy byTimestampDescending (parsableRecords liveDir fs)))]>
       fs).
Proof.
  intros Hdir Hindex Hrecords.
  rewrite (updateLiveIndex_after_scan liveDir fs Hdir).
  rewrite (sortBroadcasts_records _ fs Hrecords).
  unfold writeFile. rewrite Hindex.
  unfold parentExists, indexPathOf.
  rewrite dirname_pathJoin by reflexivity.
  unfold isDir. rewrite Hdir. rewrite orb_true_r. reflexivity.
Qed.

(** A record file that holds [null] beside another record file that is
    valid JSON: the rebuild rejects and writes nothing. *)
Lemma updateLiveIndex_null_record_aborts (liveDir : string) (fs : FS) :
  fs !! liveDir = Some Dir ->
  (2 <= length (parsableRecords liveDir fs))%nat ->
  existsb isNull (parsableRecords liveDir fs) = true ->
  updateLiveIndex liveDir fs = (Err TypeError, fs).
Proof.
  intros Hdir Hlen Hnull.
  rewrite (updateLiveIndex_after_scan liveDir fs Hdir).
  rewrite (sortBroadcasts_null _ fs Hlen Hnull). reflexivity.
Qed.

(** C9, as the code has it. In an existing directory whose record files
    either cannot be read, are not valid JSON, or hold a record with a
    timestamp of the ISO shape, the rebuild of the index succeeds whatever
    the number of the files of the first two kinds, and the manifest it
    writes holds exactly the records that parse, ordered by timestamp, latest
    first. *)
Theorem updateLiveIndex_keeps_exactly_parsable_records
    (liveDir : string) (fs : FS) :
  fs !! liveDir = Some Dir ->
  isDir fs (indexPathOf liveDir) = false ->
  Forall (fun v => isBroadcastRecord v = true) (parsableRecords liveDir fs) ->
  exists manifest : list json,
    updateLiveIndex liveDir fs
    = (Ok tt, <[indexPathOf liveDir := File (stringifyIndex manifest)]> fs) /\
    Permutation manifest (parsableRecords liveDir fs) /\
    StronglySorted descending manifest.
Proof.
  intros Hdir Hindex Hrecords.
  exists (sortBy byTimestampDescending (parsableRecords liveDir fs)).
  split; [|split].
  - exact (updateLiveIndex_sorts_records liveDir fs Hdir Hindex Hrecords).
  - apply sortBy_perm.
  - apply sortBy_sorted, Hrecords.
Qed.

(** C10. Invoked with no chunk, the merge resolves to [null] and leaves the
    file system as it found it: no directory is made, no file is written,
    no file is deleted. *)
Theorem mergeBroadcast_empty_is_null_without_effect
    (liveDir : string) (fs : FS) :
  mergeBroadcast [] liveDir fs = (Ok None, fs).
Proof.
  reflexivity.
Qed.

End IndexProperties.

(** C9, as stated, fails: a record file that holds [null] is valid JSON, so
    the loop keeps its value; with the valid record beside it the sort calls
    the comparator on [null], which throws outside the [try]; the rebuild
    rejects and no manifest is written, although the directory holds one
    corrupt record and one valid record. *)
Lemma updateLiveIndex_aborts_on_null_record :
  List.map (timestampOf (Platform:=referencePlatform))
    (parsableRecords (H:=referencePlatform) "/data/live" sampleNullDisk)
  = [Timestamp "2025-03-01T10:00:00.000Z"; OfNull] /\
  updateLiveIndex (H:=referencePlatform) "/data/live" sampleNullDisk
  = (Err TypeError, sampleNullDisk) /\
  sampleNullDisk !! "/data/live/index.json"%string = None.
Proof.
  split; [vm_compute; reflexivity|]. split; [|vm_compute; reflexivity].
  apply (updateLiveIndex_null_record_aborts (H:=referencePlatform)).
  - vm_compute. reflexivity.
  - vm_compute. lia.
  - vm_compute. reflexivity.
Qed.

(** ** Broadcast assembler *)

Section AssemblerProperties.
Context `{Platform}.
Variable liveDir : string.

Lemma filter_length_app {A} (p : A -> bool) (l1 l2 : list A) :
  length (List.filter p (l1 ++ l2))
  = (length (List.filter p l1) + length (List.filter p l2))%nat.
Proof.
  rewrite List.filter_app, length_app. reflexivity.
Qed.

Lemma holders_split (p : Task -> bool) (l : list Task) (i : nat) (t : Task) :
  l !! i = Some t ->
  length (List.filter p l)
  = (length (List.filter p (take i l)) + (if p t then 1 else 0)
     + length (List.filter p (drop (S i) l)))%nat.
Proof.
  intros Hi. rewrite <- (take_drop_middle l i t Hi) at 1.
  rewrite filter_length_app. simpl. destruct (p t); simpl; lia.
Qed.

Ltac count_tasks :=
  rewrite ?filter_length_app; simpl in *;
  rewrite ?filter_length_app; simpl; try lia.

Lemma afterMerge_holds_nothing (by_ : Trigger) :
  List.filter holdsFlag (afterMerge by_) = [].
Proof. destruct by_; reflexivity. Qed.

Lemma startMerge_invariant (by_ : Trigger) (s : Service) :
  flagInvariant s -> isProcessing s = false ->
  flagInvariant (startMerge by_ s).
Proof.
  unfold flagInvariant, flagHolders. intros Hinv Hidle.
  rewrite Hidle in Hinv. cbn [startMerge tasks isProcessing].
  rewrite filter_length_app, Hinv. reflexivity.
Qed.

Lemma step_invariant (ev : Event) (s s' : Service) :
  flagInvariant s -> step liveDir ev s = Some s' -> flagInvariant s'.
Proof.
  intros Hinv Hstep. destruct ev as [buf chunkFile start|now|i]; simpl in Hstep.
  - injection Hstep as <-. unfold processCompletedChunk.
    destruct (chunkHasSpeech _ _ _); [exact Hinv|].
    destruct (0 <? length (pendingChunks s))%nat; simpl.
    + destruct (isProcessing s) eqn:Hp; simpl.
      * unfold flagInvariant, flagHolders in *. cbn [tasks isProcessing].
        rewrite filter_length_app, Hinv, Hp. reflexivity.
      * apply startMerge_invariant; assumption.
    + unfold flagInvariant, flagHolders in *. cbn [tasks isProcessing].
      rewrite filter_length_app, Hinv. simpl. lia.
  - injection Hstep as <-. unfold idleFlush.
    destruct (0 <? length (pendingChunks s))%nat; simpl; [|exact Hinv].
    destruct (isProcessing s) eqn:Hp; simpl; [exact Hinv|].
    destruct (last (pendingChunks s)); [|exact Hinv].
    destruct (IDLE_THRESHOLD_MS <? _); [|exact Hinv].
    apply startMerge_invariant; assumption.
  - unfold resume in Hstep.
    destruct (tasks s !! i) as [t|] eqn:Hi; [|discriminate].
    unfold flagInvariant, flagHolders in *.
    pose proof (holders_split holdsFlag _ _ _ Hi) as Hsplit.
    destruct t as [chunks by_|by_|chunkFile].
    + destruct (mergeBroadcast chunks liveDir (disk s)) as [[result|e] fs'];
        injection Hstep as <-; cbn [tasks isProcessing].
      * count_tasks.
      * destruct by_; count_tasks; destruct (isProcessing s); lia.
    + injection Hstep as <-; cbn [tasks isProcessing].
      destruct by_; count_tasks; destruct (isProcessing s); lia.
    + injection Hstep as <-; cbn [tasks isProcessing]. count_tasks.
Qed.

Lemma run_invariant (evs : list Event) (s s' : Service) :
  flagInvariant s -> run liveDir evs s = Some s' -> flagInvariant s'.
Proof.
  revert s. induction evs as [|ev evs IH]; intros s Hinv Hrun; simpl in Hrun.
  - injection Hrun as <-. exact Hinv.
  - destruct (step liveDir ev s) as [s1|] eqn:Hstep; [|discriminate].
    eapply IH; [|exact Hrun]. eapply step_invariant; eassumption.
Qed.

Lemma mergesInFlight_le_flagHolders (s : Service) :
  (mergesInFlight s <= flagHolders s)%nat.
Proof.
  unfold mergesInFlight, flagHolders.
  induction (tasks s) as [|t l IH]; simpl; [lia|].
  destruct t; simpl; lia.
Qed.

(** A step taken while the flag is raised starts no merge. *)
Lemma step_flag_blocks_merge (ev : Event) (s s' : Service) :
  isProcessing s = true -> step liveDir ev s = Some s' ->
  mergeCalls s' = mergeCalls s /\
  (mergesInFlight s' <= mergesInFlight s)%nat.
Proof.
  intros Hp Hstep. unfold mergesInFlight.
  destruct ev as [buf chunkFile start|now|i]; simpl in Hstep.
  - injection Hstep as <-. unfold processCompletedChunk.
    destruct (chunkHasSpeech _ _ _); [split; [reflexivity | simpl; lia]|].
    rewrite Hp, andb_false_r. cbn [mergeCalls tasks].
    split; [reflexivity|]. rewrite filter_length_app. simpl. lia.
  - injection Hstep as <-. unfold idleFlush.
    rewrite Hp, andb_false_r. split; [reflexivity | lia].
  - unfold resume in Hstep.
    destruct (tasks s !! i) as [t|] eqn:Hi; [|discriminate].
    pose proof (holders_split isAwaitMerge _ _ _ Hi) as Hsplit.
    destruct t as [chunks by_|by_|chunkFile].
    + destruct (mergeBroadcast chunks liveDir (disk s)) as [[result|e] fs'];
        injection Hstep as <-; cbn [tasks mergeCalls];
        (split; [reflexivity|]); destruct by_; count_tasks.
    + injection Hstep as <-; cbn [tasks mergeCalls].
      split; [reflexivity|]. destruct by_; count_tasks.
    + injection Hstep as <-; cbn [tasks mergeCalls].
      split; [reflexivity|]. count_tasks.
Qed.

(** C2. In every state the service reaches, whatever the order of chunk
    arrivals, idle-flush ticks and resumptions: at most one merge is in
    flight; the flag is raised whenever a merge is in flight; and no step
    taken while the flag is raised starts another merge. *)
Theorem at_most_one_merge_in_flight
    (fs : FS) (evs : list Event) (s : Service) :
  run liveDir evs (initialService fs) = Some s ->
  (mergesInFlight s <= 1)%nat /\
  ((0 < mergesInFlight s)%nat -> isProcessing s = true) /\
  (forall ev s', isProcessing s = true -> step liveDir ev s = Some s' ->
     mergeCalls s' = mergeCalls s /\
     (mergesInFlight s' <= mergesInFlight s)%nat).
Proof.
  intros Hrun.
  assert (Hinv : flagInvariant s).
  { eapply run_invariant; [|exact Hrun]. reflexivity. }
  pose proof (mergesInFlight_le_flagHolders s) as Hle.
  unfold flagInvariant in Hinv.
  split; [|split].
  - destruct (isProcessing s); lia.
  - intros Hpos. destruct (isProcessing s); [reflexivity | lia].
  - intros ev s' Hp Hstep. eapply step_flag_blocks_merge; eassumption.
Qed.

End AssemblerProperties.

Section AssemblerRuns.
Context `{Platform}.
Variable liveDir : string.

Lemma unlink_leaves_no_file (p : string) (fs : FS) :
  isFile (snd (swallow (unlink p) fs)) p = false.
Proof.
  unfold swallow, unlink, isFile. simpl.
  destruct (fs !! p) as [[data|]|] eqn:Hp; simpl.
  - rewrite lookup_delete_eq. reflexivity.
  - rewrite Hp. reflexivity.
  - rewrite Hp. reflexivity.
Qed.

Lemma resume_mergePhase (chunks : list ChunkInfo) (musicFile : string)
    (i : nat) (s s' : Service) :
  mergePhase chunks musicFile s -> resume liveDir i s = Some s' ->
  mergePhase chunks musicFile s'.
Proof.
  intros (Hcalls & Hpending & Hphase) Hres. unfold resume in Hres.
  destruct Hphase as [[Ht Hp]|[[Ht Hp]|[[Ht Hp]|(Ht & Hp & Hgone)]]];
    rewrite Ht in Hres; destruct i as [|i]; simpl in Hres; try discriminate.
  - destruct (mergeBroadcast chunks liveDir (disk s)) as [[result|e] fs'];
      injection Hres as <-; unfold mergePhase; simpl; rewrite ?Ht; simpl; tauto.
  - injection Hres as <-; unfold mergePhase; simpl; rewrite ?Ht; simpl; tauto.
  - injection Hres as <-; unfold mergePhase; simpl; rewrite ?Ht; simpl.
    pose proof (unlink_leaves_no_file musicFile (disk s)) as Hgone.
    unfold swallow in Hgone. simpl in Hgone. tauto.
Qed.

Lemma resumes_mergePhase (chunks : list ChunkInfo) (musicFile : string)
    (resumes : list Event) (s s' : Service) :
  forallb isResume resumes = true ->
  mergePhase chunks musicFile s -> run liveDir resumes s = Some s' ->
  mergePhase chunks musicFile s'.
Proof.
  revert s. induction resumes as [|ev resumes IH]; intros s Hres Hphase Hrun;
    simpl in Hrun.
  - injection Hrun as <-. exact Hphase.
  - simpl in Hres. apply andb_prop in Hres as [Hev Hres].
    destruct ev as [| |i]; try discriminate. simpl in Hrun.
    destruct (resume liveDir i s) as [s1|] eqn:Hstep; [|discriminate].
    eapply IH; [exact Hres | | exact Hrun].
    eapply resume_mergePhase; eassumption.
Qed.

(** From the merging phase the handler always runs to its end. *)
Lemma mergePhase_completes (chunks : list ChunkInfo) (musicFile : string)
    (s : Service) :
  tasks s = [AwaitMerge chunks (MusicChunk musicFile)] ->
  exists resumes s',
    forallb isResume resumes = true /\
    run liveDir resumes s = Some s' /\ tasks s' = [].
Proof.
  intros Ht.
  destruct (mergeBroadcast chunks liveDir (disk s)) as [[result|e] fs'] eqn:Hm.
  - exists [Resume 0; Resume 0; Resume 0]%nat. eexists.
    split; [reflexivity|]. simpl. unfold resume. rewrite Ht. simpl.
    rewrite Hm. simpl. split; reflexivity.
  - exists [Resume 0; Resume 0]%nat. eexists.
    split; [reflexivity|]. simpl. unfold resume. rewrite Ht. simpl.
    rewrite Hm. simpl. split; reflexivity.
Qed.

(** C1. On the chunk sequence speech, speech, music, with no idle flush in
    between and the service otherwise at rest: whatever the resumptions that
    follow, exactly one merge is performed, on the two speech chunks in
    arrival order; the file of the music chunk is not among its inputs; and
    once the handlers have finished, which they always can, no file is left
    at the path of the music chunk. *)
Theorem speech_speech_music_merges_once
    (fs : FS) (buf1 buf2 buf3 : list MetadataSample)
    (file1 file2 file3 : string) (start1 start2 start3 : Z) :
  chunkHasSpeech buf1 start1 (start1 + 120 * 1000) = true ->
  chunkHasSpeech buf2 start2 (start2 + 120 * 1000) = true ->
  chunkHasSpeech buf3 start3 (start3 + 120 * 1000) = false ->
  file3 <> file1 -> file3 <> file2 ->
  let arrivals :=
    [ ChunkCompleted buf1 file1 start1;
      ChunkCompleted buf2 file2 start2;
      ChunkCompleted buf3 file3 start3 ] in
  let merged := [speechChunk file1 start1; speechChunk file2 start2] in
  (forall resumes s',
     forallb isResume resumes = true ->
     run liveDir (arrivals ++ resumes) (initialService fs) = Some s' ->
     mergeCalls s' = [merged] /\
     Forall (fun chunks => ~ In file3 (List.map file chunks)) (mergeCalls s') /\
     (tasks s' = [] -> isFile (disk s') file3 = false)) /\
  (exists resumes s',
     forallb isResume resumes = true /\
     run liveDir (arrivals ++ resumes) (initialService fs) = Some s' /\
     tasks s' = []).
Proof.
  intros H1 H2 H3 Hne1 Hne2 arrivals merged.
  assert (Harr : run liveDir arrivals (initialService fs)
                 = Some (startMerge (MusicChunk file3)
                    {| pendingChunks := merged; isProcessing := false;
                       tasks := []; disk := fs; mergeCalls := [];
                       produced := [] |})).
  { unfold arrivals. simpl. unfold processCompletedChunk at 3.
    change (CHUNK_DURATION_SECS * 1000) with (120 * 1000).
    rewrite H1. simpl. unfold processCompletedChunk at 2.
    change (CHUNK_DURATION_SECS * 1000) with (120 * 1000).
    rewrite H2. simpl. unfold processCompletedChunk.
    change (CHUNK_DURATION_SECS * 1000) with (120 * 1000).
    rewrite H3. reflexivity. }
  assert (Hsplit : forall resumes,
            run liveDir (arrivals ++ resumes) (initialService fs)
            = run liveDir resumes (startMerge (MusicChunk file3)
                {| pendingChunks := merged; isProcessing := false;
                   tasks := []; disk := fs; mergeCalls := [];
                   produced := [] |})).
  { intros resumes. clear -Harr. revert Harr.
    generalize (initialService fs).
    induction arrivals as [|ev evs IH]; intros s0 Harr; simpl in *.
    - injection Harr as ->. reflexivity.
    - destruct (step liveDir ev s0); [|discriminate]. apply IH, Harr. }
  split.
  - intros resumes s' Hres Hrun. rewrite Hsplit in Hrun.
    assert (Hphase : mergePhase merged file3 s').
    { eapply resumes_mergePhase; [exact Hres | | exact Hrun].
      unfold mergePhase, startMerge. simpl. tauto. }
    destruct Hphase as (Hcalls & _ & Hphase).
    split; [exact Hcalls|]. split.
    + rewrite Hcalls. constructor; [|constructor].
      simpl. intros [Heq|[Heq|[]]]; congruence.
    + intros Hdone.
      destruct Hphase as [[Ht _]|[[Ht _]|[[Ht _]|(_ & _ & Hgone)]]];
        try (rewrite Ht in Hdone; discriminate). exact Hgone.
  - destruct (mergePhase_completes merged file3
               (startMerge (MusicChunk file3)
                  {| pendingChunks := merged; isProcessing := false;
                     tasks := []; disk := fs; mergeCalls := [];
                     produced := [] |}) eq_refl)
      as (resumes & s' & Hres & Hrun & Hdone).
    exists resumes, s'. rewrite Hsplit. auto.
Qed.

(** With an empty queue and no chunk arriving, no merge starts. *)
Lemma quiet_run_starts_no_merge (evs : list Event) (s s' : Service) :
  forallb (fun ev => negb (isChunkCompleted ev)) evs = true ->
  pendingChunks s = [] -> run liveDir evs s = Some s' ->
  mergeCalls s' = mergeCalls s.
Proof.
  revert s. induction evs as [|ev evs IH]; intros s Hquiet Hempty Hrun;
    simpl in Hrun.
  - injection Hrun as <-. reflexivity.
  - simpl in Hquiet. apply andb_prop in Hquiet as [Hev Hquiet].
    destruct ev as [buf chunkFile start|now|i]; try discriminate;
      simpl in Hrun.
    + assert (Hidle : idleFlush now s = s).
      { unfold idleFlush. rewrite Hempty. reflexivity. }
      rewrite Hidle in Hrun. eapply IH; eassumption.
    + destruct (resume liveDir i s) as [s1|] eqn:Hres; [|discriminate].
      assert (Hsame : pendingChunks s1 = [] /\ mergeCalls s1 = mergeCalls s).
      { unfold resume in Hres.
        destruct (tasks s !! i) as [[chunks by_|by_|chunkFile]|];
          try discriminate;
          try destruct (mergeBroadcast chunks liveDir (disk s)) as [[result|e] fs'];
          injection Hres as <-; simpl; auto. }
      destruct Hsame as [Hempty1 Hcalls1].
      rewrite <- Hcalls1. eapply IH; eassumption.
Qed.

(** C3. With a non-empty queue, no merge in flight and the last queued
    chunk's nominal end more than 5 minutes old, the idle-flush check starts
    exactly one merge, on the whole queue, and no other merge follows while
    no chunk arrives; a music chunk arriving in the same state would start
    the merge of the same chunks, and the two merges leave the same file
    system and produce the same broadcast. *)
Theorem idle_flush_merges_queue_like_music_boundary
    (s : Service) (queue : list ChunkInfo) (lastChunk : ChunkInfo) (now : Z) :
  pendingChunks s = queue ++ [lastChunk] ->
  isProcessing s = false ->
  startTime lastChunk + 120 * 1000 + 5 * 60 * 1000 < now ->
  exists s1,
    step liveDir (IdleFlushTick now) s = Some s1 /\
    mergeCalls s1 = mergeCalls s ++ [queue ++ [lastChunk]] /\
    pendingChunks s1 = [] /\
    mergesInFlight s1 = S (mergesInFlight s) /\
    (forall evs s',
       forallb (fun ev => negb (isChunkCompleted ev)) evs = true ->
       run liveDir evs s1 = Some s' ->
       mergeCalls s' = mergeCalls s ++ [queue ++ [lastChunk]]) /\
    (forall buf chunkFile start,
       chunkHasSpeech buf start (start + 120 * 1000) = false ->
       exists s2 s1' s2',
         step liveDir (ChunkCompleted buf chunkFile start) s = Some s2 /\
         mergeCalls s2 = mergeCalls s1 /\
         resume liveDir (length (tasks s)) s1 = Some s1' /\
         resume liveDir (length (tasks s)) s2 = Some s2' /\
         disk s1' = snd (mergeBroadcast (queue ++ [lastChunk]) liveDir (disk s)) /\
         disk s2' = disk s1' /\
         produced s2' = produced s1').
Proof.
  intros Hqueue Hidle Hold.
  assert (Hlen : (0 <? length (pendingChunks s))%nat = true).
  { rewrite Hqueue, length_app. simpl. apply Nat.ltb_lt. lia. }
  exists (startMerge IdleFlush s).
  split; [|split; [|split; [|split; [|split]]]].
  - simpl. unfold idleFlush. rewrite Hlen, Hidle. simpl.
    rewrite Hqueue, last_snoc.
    destruct (Z.ltb_spec IDLE_THRESHOLD_MS
                (now - startTime lastChunk - CHUNK_DURATION_SECS * 1000))
      as [_|Hyoung]; [reflexivity|].
    unfold IDLE_THRESHOLD_MS, CHUNK_DURATION_SECS in Hyoung. lia.
  - simpl. rewrite Hqueue. reflexivity.
  - reflexivity.
  - unfold mergesInFlight. simpl. rewrite filter_length_app. simpl. lia.
  - intros evs s' Hquiet Hrun.
    rewrite (quiet_run_starts_no_merge evs (startMerge IdleFlush s) s'
               Hquiet eq_refl Hrun).
    simpl. rewrite Hqueue. reflexivity.
  - intros buf chunkFile start Hmusic.
    assert (Hstep2 : step liveDir (ChunkCompleted buf chunkFile start) s
                     = Some (startMerge (MusicChunk chunkFile) s)).
    { simpl. unfold processCompletedChunk.
      change (CHUNK_DURATION_SECS * 1000) with (120 * 1000).
      rewrite Hmusic, Hlen, Hidle. reflexivity. }
    exists (startMerge (MusicChunk chunkFile) s).
    unfold resume. simpl.
    rewrite !list_lookup_middle by reflexivity. rewrite Hqueue.
    destruct (mergeBroadcast (queue ++ [lastChunk]) liveDir (disk s))
      as [[result|e] fs'] eqn:Hm;
      (eexists _, _; split; [exact Hstep2|];
       split; [reflexivity|]; split; [reflexivity|]; split; [reflexivity|];
       simpl; auto).
Qed.

End AssemblerRuns.

(** ** Recorder watchdog *)

Lemma recorderRun_lastChunkTime (evs : list RecorderEvent) (r0 r : Recorder) :
  recorderRun evs r0 = Some r ->
  lastChunkTime r = lastActivity (lastChunkTime r0) evs.
Proof.
  revert r0. induction evs as [|ev evs IH]; intros r0 Hrun; simpl in Hrun.
  - injection Hrun as <-. reflexivity.
  - destruct ev as [now|now| | |now]; simpl in Hrun |- *.
    + destruct (restartTimers r0); [discriminate|].
      rewrite (IH _ Hrun). reflexivity.
    + rewrite (IH _ Hrun). reflexivity.
    + rewrite (IH _ Hrun). reflexivity.
    + rewrite (IH _ Hrun). reflexivity.
    + rewrite (IH _ Hrun). unfold watchdog.
      destruct (ffmpegProcess r0); [|reflexivity].
      destruct (STALL_THRESHOLD_MS <? _); reflexivity.
Qed.

Lemma stale_since_last_activity (evs : list RecorderEvent) (t now : Z) :
  StronglySorted Z.le (t :: clockReadings evs ++ [now]) ->
  STALL_THRESHOLD_MS < now - lastActivity t evs <->
  Forall (fun x => STALL_THRESHOLD_MS < now - x) (t :: activityInstants evs).
Proof.
  revert t. induction evs as [|ev evs IH]; intros t Hsorted.
  - simpl. split.
    + intros Hst. constructor; [exact Hst | constructor].
    + intros Hall. apply Forall_cons_1 in Hall as [Hst _]. exact Hst.
  - assert (Hskip : forall u, t <= u ->
              StronglySorted Z.le (u :: clockReadings evs ++ [now]) ->
              (STALL_THRESHOLD_MS < now - lastActivity u evs <->
               Forall (fun x => STALL_THRESHOLD_MS < now - x)
                      (t :: u :: activityInstants evs))).
    { intros u Hle Hsu. rewrite (IH u Hsu). split.
      - intros Hall. constructor; [|exact Hall].
        apply Forall_cons_1 in Hall as [Hst _]. lia.
      - intros Hall. apply Forall_cons_1 in Hall as [_ Hall]. exact Hall. }
    destruct ev as [n|n| | |n];
      cbn [clockReadings activityInstants lastActivity] in *;
      try (apply IH; exact Hsorted).
    + apply StronglySorted_inv in Hsorted as [Hsu Hall].
      apply Hskip; [|exact Hsu].
      apply Forall_cons_1 in Hall as [Hle _]. exact Hle.
    + apply StronglySorted_inv in Hsorted as [Hsu Hall].
      apply Hskip; [|exact Hsu].
      apply Forall_cons_1 in Hall as [Hle _]. exact Hle.
    + apply IH. apply StronglySorted_inv in Hsorted as [Hsu Hall].
      apply StronglySorted_inv in Hsu as [Hsv Hallv].
      constructor; [exact Hsv|].
      apply Forall_cons_1 in Hall as [_ Hall]. exact Hall.
Qed.

(** When the test of the watchdog succeeds. *)
Lemma watchdogFires_characterised
    (t0 : Z) (evs : list RecorderEvent) (now : Z) (r : Recorder) :
  chronological t0 evs now ->
  recorderRun evs (initialRecorder t0) = Some r ->
  (watchdogFires now r = true <->
     ffmpegProcess r <> None /\
     Forall (fun t => STALL_THRESHOLD_MS < now - t) (t0 :: activityInstants evs)).
Proof.
  intros Hchrono Hrun.
  pose proof (recorderRun_lastChunkTime _ _ _ Hrun) as Hlast.
  simpl in Hlast.
  pose proof (stale_since_last_activity evs t0 now Hchrono) as Hstale.
  rewrite <- Hlast in Hstale. unfold watchdogFires.
  destruct (Z.ltb_spec STALL_THRESHOLD_MS (now - lastChunkTime r)) as [Hlt|Hge];
    destruct (ffmpegProcess r) as [pid|]; simpl.
  - split; [|reflexivity]. intros _. split; [discriminate|].
    apply Hstale, Hlt.
  - split; [discriminate|]. intros [Hne _]. congruence.
  - split; [discriminate|]. intros [_ Hall]. apply Hstale in Hall. lia.
  - split; [discriminate|]. intros [Hne _]. congruence.
Qed.

Lemma watchdog_effect (now : Z) (r : Recorder) :
  (watchdogFires now r = true ->
     exists pid, ffmpegProcess r = Some pid /\
       killed (watchdog now r) = killed r ++ [pid] /\
       recorderStep ProcessExit (watchdog now r)
       = Some (processGone (watchdog now r)) /\
       restartTimers (processGone (watchdog now r)) = S (restartTimers r)) /\
  (watchdogFires now r = false -> watchdog now r = r).
Proof.
  unfold watchdogFires, watchdog.
  destruct (STALL_THRESHOLD_MS <? now - lastChunkTime r);
    destruct (ffmpegProcess r) as [pid|]; simpl; split;
    try discriminate; try reflexivity.
  intros _. exists pid. auto.
Qed.

Lemma chunkObservations_are_activity (evs : list RecorderEvent) (t : Z) :
  In t (chunkObservations evs) -> In t (activityInstants evs).
Proof.
  induction evs as [|ev evs IH]; simpl; [tauto|].
  destruct ev; simpl; tauto.
Qed.

(** The half of C7 that holds as stated: the watchdog kills nothing when a
    chunk was observed within the last 5 minutes, nor when no subprocess is
    tracked. *)
Lemma watchdog_spares_fresh_or_absent
    (t0 : Z) (evs : list RecorderEvent) (now : Z) (r : Recorder) :
  chronological t0 evs now ->
  recorderRun evs (initialRecorder t0) = Some r ->
  (exists t, In t (chunkObservations evs) /\ now - t <= 5 * 60 * 1000)
  \/ ffmpegProcess r = None ->
  watchdogFires now r = false /\ watchdog now r = r.
Proof.
  intros Hchrono Hrun Hfresh.
  assert (Hquiet : watchdogFires now r = false).
  { destruct (watchdogFires now r) eqn:Hfires; [|reflexivity]. exfalso.
    apply (watchdogFires_characterised _ _ _ _ Hchrono Hrun) in Hfires
      as [Hproc Hall].
    destruct Hfresh as [(t & Hin & Hrecent)|Hnone]; [|contradiction].
    apply Forall_cons_1 in Hall as [_ Hall].
    rewrite List.Forall_forall in Hall.
    specialize (Hall t (chunkObservations_are_activity _ _ Hin)).
    unfold STALL_THRESHOLD_MS in Hall. lia. }
  split; [exact Hquiet|]. apply watchdog_effect, Hquiet.
Qed.

(** C7, as the code has it. Along every trace on which the clock does not
    run backwards, a watchdog check kills the tracked subprocess if and only
    if a subprocess is tracked and more than 5 minutes have passed since
    every observation of a new chunk and since every start of a subprocess;
    the kill is followed, at the exit of the subprocess, by the arming of the
    restart timer; and a check that does not fire changes nothing. *)
Theorem watchdog_kills_iff_stalled_since_last_activity
    (t0 : Z) (evs : list RecorderEvent) (now : Z) (r : Recorder) :
  chronological t0 evs now ->
  recorderRun evs (initialRecorder t0) = Some r ->
  (watchdogFires now r = true <->
     ffmpegProcess r <> None /\
     Forall (fun t => 5 * 60 * 1000 < now - t) (t0 :: activityInstants evs)) /\
  (watchdogFires now r = true ->
     exists pid, ffmpegProcess r = Some pid /\
       killed (watchdog now r) = killed r ++ [pid] /\
       recorderStep ProcessExit (watchdog now r)
       = Some (processGone (watchdog now r)) /\
       restartTimers (processGone (watchdog now r)) = S (restartTimers r)) /\
  (watchdogFires now r = false -> watchdog now r = r).
Proof.
  intros Hchrono Hrun. split.
  - exact (watchdogFires_characterised _ _ _ _ Hchrono Hrun).
  - exact (watchdog_effect now r).
Qed.

(** C7, as stated, fails: a chunk is observed one second after the start,
    the subprocess exits and is restarted at second 7; at the check five
    minutes and one millisecond after the observation no chunk has been seen
    for more than the threshold and a subprocess is running, yet the check
    kills nothing, because the restart has reset the stall clock. *)
Lemma watchdog_spares_restarted_subprocess :
  let evs := [SegmentOpened 1000; ProcessExit; RestartTimerFires 7000] in
  let now := 301001 in
  exists r,
    chronological 0 evs now /\
    recorderRun evs (initialRecorder 0) = Some r /\
    Forall (fun t => 5 * 60 * 1000 < now - t) (chunkObservations evs) /\
    ffmpegProcess r <> None /\
    watchdogFires now r = false /\
    killed (watchdog now r) = [].
Proof.
  simpl. eexists. split; [|split; [reflexivity|]].
  - unfold chronological. simpl.
    repeat (constructor; [|repeat (constructor; try lia)]). constructor.
  - split; [repeat constructor|]. split; [discriminate|].
    split; reflexivity.
Qed.

(** ** Boundary cases *)

(** The ordering of the buffer is needed for C5: with a sample out of order
    the loop stops at the first sample that is recent enough and leaves an
    older one behind it. *)
Example poller_stops_at_first_recent_sample :
  metadataBuffer
    (pollerTick None 2000000 (isoString 2000000)
       {| metadataBuffer := [speechSample 1999000; speechSample 0];
          lastMetaStatus := music |})
  = [speechSample 1999000; speechSample 0; speechSample 2000000].
Proof. reflexivity. Qed.

(** A negative word limit counts from the end, as [slice] does. *)
Example generateTitle_negative_limit :
  generateTitle fiveWords (-1) = js "Guten Morgen liebe Hoererinnen...".
Proof. reflexivity. Qed.

(** White space of any kind and length separates the words, and the texts
    of the segments are trimmed by the gateway, not by the title. *)
Example generateTitle_mixed_white_space :
  generateTitle
    [ {| seg_start := 0; seg_end := 1;
         seg_text := [32; 9; 72; 105; 160; 160; 72; 111; 10]%N |} ] 10
  = js "Hi Ho".
Proof. reflexivity. Qed.

(** The service never hands an empty list to [mergeBroadcast]: the early
    return of C10 is not taken by the two triggers. *)
Lemma merge_calls_are_nonempty `{Platform} (liveDir : string)
    (evs : list Event) (s s' : Service) :
  Forall (fun chunks => chunks <> []) (mergeCalls s) ->
  run liveDir evs s = Some s' ->
  Forall (fun chunks : list ChunkInfo => chunks <> []) (mergeCalls s').
Proof.
  revert s. induction evs as [|ev evs IH]; intros s Hne Hrun; simpl in Hrun.
  - injection Hrun as <-. exact Hne.
  - destruct (step liveDir ev s) as [s1|] eqn:Hstep; [|discriminate].
    apply (IH s1); [|exact Hrun]. clear IH Hrun.
    assert (Hstart : forall by_, pendingChunks s <> [] ->
              Forall (fun chunks : list ChunkInfo => chunks <> [])
                     (mergeCalls (startMerge by_ s))).
    { intros by_ Hsome. simpl. apply Forall_app. split; [exact Hne|].
      constructor; [exact Hsome | constructor]. }
    assert (Hsome : (0 <? length (pendingChunks s))%nat = true ->
              pendingChunks s <> []).
    { destruct (pendingChunks s); [discriminate | discriminate]. }
    destruct ev as [buf chunkFile start|now|i]; simpl in Hstep.
    + injection Hstep as <-. unfold processCompletedChunk.
      destruct (chunkHasSpeech _ _ _); [exact Hne|].
      destruct (0 <? length (pendingChunks s))%nat eqn:Hlen; simpl;
        [|exact Hne].
      destruct (isProcessing s); simpl; [exact Hne|].
      exact (Hstart (MusicChunk chunkFile) (Hsome eq_refl)).
    + injection Hstep as <-. unfold idleFlush.
      destruct (0 <? length (pendingChunks s))%nat eqn:Hlen; simpl;
        [|exact Hne].
      destruct (isProcessing s); simpl; [exact Hne|].
      destruct (last (pendingChunks s)); [|exact Hne].
      destruct (IDLE_THRESHOLD_MS <? _); [|exact Hne].
      exact (Hstart IdleFlush (Hsome eq_refl)).
    + unfold resume in Hstep.
      destruct (tasks s !! i) as [[chunks by_|by_|chunkFile]|];
        try discriminate;
        try destruct (mergeBroadcast chunks liveDir (disk s)) as [[result|e] fs'];
        injection Hstep as <-; exact Hne.
Qed.

Lemma replicate_succ {A} (n : nat) (x : A) :
  replicate (S n) x = x :: replicate n x.
Proof. reflexivity. Qed.

(* ===================================================================== *)
(** * Part II, continued: properties of the rest of the program          *)
(* ===================================================================== *)

(** ** The sampler over time *)

Lemma shiftWhileOld_keeps_recent (cutoff : Z) (buf : list MetadataSample)
    (x : MetadataSample) :
  nonDecreasing buf -> cutoff <= timestamp x ->
  shiftWhileOld cutoff (buf ++ [x])
  = List.filter (fun s => cutoff <=? timestamp s) buf ++ [x].
Proof.
  intros Hsorted Hx. induction buf as [|s rest IH]; simpl.
  - destruct (Z.ltb_spec (timestamp x) cutoff); [lia | reflexivity].
  - apply StronglySorted_inv in Hsorted as [Hrest Hall].
    destruct (Z.ltb_spec (timestamp s) cutoff) as [Hlt|Hge].
    + destruct (Z.leb_spec cutoff (timestamp s)); [lia|]. apply IH, Hrest.
    + destruct (Z.leb_spec cutoff (timestamp s)); [|lia].
      simpl. f_equal. f_equal.
      symmetry. apply forallb_filter_id.
      apply forallb_forall. intros y Hy. apply Z.leb_le.
      rewrite List.Forall_forall in Hall. specialize (Hall y Hy). lia.
Qed.

Lemma pollerTick_buffer (response : option NowPlaying) (now : Z)
    (iso : string) (st : Sampler) :
  nonDecreasing (metadataBuffer st) ->
  metadataBuffer (pollerTick response now iso st)
  = List.filter (fun s => now - 15 * 60 * 1000 <=? timestamp s)
                (metadataBuffer st)
    ++ [sampleOf response now iso].
Proof.
  intros Hsorted. unfold pollerTick. cbn [metadataBuffer].
  change (now - RETENTION_MS) with (now - 15 * 60 * 1000).
  apply (shiftWhileOld_keeps_recent _ _ (sampleOf response now iso) Hsorted).
  simpl. lia.
Qed.

(** X2. On an ordered buffer a tick evicts exactly the samples older than
    15 minutes: what is left is every earlier sample inside the window, in
    order, followed by the new sample. *)
Theorem poller_tick_evicts_exactly_the_old
    (response : option NowPlaying) (now : Z) (iso : string) (st : Sampler) :
  nonDecreasing (metadataBuffer st) ->
  metadataBuffer (pollerTick response now iso st)
  = List.filter (fun s => now - 15 * 60 * 1000 <=? timestamp s)
                (metadataBuffer st)
    ++ [ {| timestamp := now; wallClock := iso;
            artist := fst (fetchMetadata response);
            title := snd (fetchMetadata response) |} ].
Proof.
  exact (pollerTick_buffer response now iso st).
Qed.

Lemma filter_nonDecreasing (p : MetadataSample -> bool)
    (buf : list MetadataSample) :
  nonDecreasing buf -> nonDecreasing (List.filter p buf).
Proof.
  unfold nonDecreasing. induction 1 as [|s rest Hrest IH Hall]; simpl.
  - constructor.
  - destruct (p s); [|exact IH]. constructor; [exact IH|].
    rewrite List.Forall_forall in *. intros y Hy.
    apply filter_In in Hy as [Hy _]. apply Hall, Hy.
Qed.

Lemma nonDecreasing_snoc (buf : list MetadataSample) (x : MetadataSample) :
  nonDecreasing buf ->
  Forall (fun s => timestamp s <= timestamp x) buf ->
  nonDecreasing (buf ++ [x]).
Proof.
  unfold nonDecreasing. induction 1 as [|s rest Hrest IH Hall]; intros Hle; simpl.
  - repeat constructor.
  - apply Forall_cons_1 in Hle as [Hs Hle].
    constructor; [apply IH, Hle|].
    apply Forall_app. split; [exact Hall | repeat constructor; exact Hs].
Qed.

Lemma sorted_snoc_two (l : list Z) (a b : Z) :
  StronglySorted Z.le (l ++ [a; b]) ->
  StronglySorted Z.le (l ++ [a]) /\ a <= b.
Proof.
  induction l as [|t l IH]; simpl; intros Hs.
  - apply StronglySorted_inv in Hs as [_ Hall].
    apply Forall_cons_1 in Hall as [Hle _].
    split; [repeat constructor | exact Hle].
  - apply StronglySorted_inv in Hs as [Hrest Hall].
    destruct (IH Hrest) as [Hl Hab]. split; [|exact Hab].
    constructor; [exact Hl|].
    rewrite List.Forall_forall in *. intros y Hy. apply Hall.
    apply in_app_or in Hy as [Hy|[<-|[]]]; apply in_or_app;
      [left; exact Hy | right; left; reflexivity].
Qed.

Section SamplerRuns.
Context `{Platform}.

Lemma pollerRun_snoc (ticks : list (option NowPlaying * Z))
    (tick : option NowPlaying * Z) (st : Sampler) :
  pollerRun (ticks ++ [tick]) st
  = pollerTick (fst tick) (snd tick) (toISOString (snd tick))
      (pollerRun ticks st).
Proof.
  unfold pollerRun. rewrite fold_left_app. reflexivity.
Qed.

(** One more tick at a reading not before the earlier ones. *)
Lemma pollerTick_ordered (response : option NowPlaying) (now : Z)
    (iso : string) (st : Sampler) :
  nonDecreasing (metadataBuffer st) ->
  Forall (fun s => timestamp s <= now) (metadataBuffer st) ->
  nonDecreasing (metadataBuffer (pollerTick response now iso st)) /\
  Forall (fun s => now - 15 * 60 * 1000 <= timestamp s <= now)
         (metadataBuffer (pollerTick response now iso st)).
Proof.
  intros Hsorted Hle. rewrite pollerTick_buffer by exact Hsorted. split.
  - apply nonDecreasing_snoc; [apply filter_nonDecreasing, Hsorted|].
    rewrite List.Forall_forall in *. intros y Hy.
    apply filter_In in Hy as [Hy _]. simpl. apply Hle, Hy.
  - apply Forall_app. split.
    + rewrite List.Forall_forall in *. intros y Hy.
      apply filter_In in Hy as [Hy Hin]. apply Z.leb_le in Hin.
      specialize (Hle y Hy). lia.
    + repeat constructor; simpl; lia.
Qed.

(** What the run keeps true while the clock does not run backwards: the
    buffer is ordered and holds no timestamp later than the next reading. *)
Lemma pollerRun_ordered (ticks : list (option NowPlaying * Z)) (bound : Z) :
  StronglySorted Z.le (List.map snd ticks ++ [bound]) ->
  nonDecreasing (metadataBuffer (pollerRun ticks initialSampler)) /\
  Forall (fun s => timestamp s <= bound)
         (metadataBuffer (pollerRun ticks initialSampler)).
Proof.
  revert bound. induction ticks as [|tick ticks IH] using rev_ind;
    intros bound Hclock.
  - split; constructor.
  - rewrite List.map_app in Hclock. cbn [List.map] in Hclock.
    rewrite <- app_assoc in Hclock. cbn [app] in Hclock.
    apply sorted_snoc_two in Hclock as [Hprev Hnow].
    destruct (IH (snd tick) Hprev) as [Hsorted Hle].
    rewrite pollerRun_snoc.
    destruct (pollerTick_ordered (fst tick) (snd tick)
                (toISOString (snd tick)) _ Hsorted Hle) as [Hs Hw].
    split; [exact Hs|].
    eapply Forall_impl; [exact Hw|]. simpl. intros; lia.
Qed.

(** X1. Started on the empty buffer and fired at clock readings that never
    decrease, the poller keeps its buffer ordered, and after every tick all
    samples lie within the 15 minutes before that tick: the ordering that C5
    assumes is maintained by the poller itself. *)
Theorem poller_run_keeps_buffer_ordered_and_recent
    (past : list (option NowPlaying * Z)) (response : option NowPlaying)
    (now : Z) :
  StronglySorted Z.le (List.map snd (past ++ [(response, now)])) ->
  nonDecreasing
    (metadataBuffer (pollerRun (past ++ [(response, now)]) initialSampler)) /\
  Forall (fun s => now - 15 * 60 * 1000 <= timestamp s <= now)
    (metadataBuffer (pollerRun (past ++ [(response, now)]) initialSampler)).
Proof.
  intros Hclock. rewrite List.map_app in Hclock. cbn [List.map snd] in Hclock.
  destruct (pollerRun_ordered past now Hclock) as [Hsorted Hle].
  rewrite pollerRun_snoc. cbn [fst snd].
  apply pollerTick_ordered; assumption.
Qed.

End SamplerRuns.

Lemma shiftWhileOld_keeps_last (cutoff : Z) (buf : list MetadataSample)
    (x : MetadataSample) :
  cutoff <= timestamp x -> In x (shiftWhileOld cutoff (buf ++ [x])).
Proof.
  intros Hx. induction buf as [|s rest IH]; simpl.
  - destruct (Z.ltb_spec (timestamp x) cutoff); [lia | left; reflexivity].
  - destruct (timestamp s <? cutoff); [exact IH|].
    right. apply in_or_app. right. left. reflexivity.
Qed.

(** X3. A fetch that fails, or whose body carries no artist or an empty one,
    is recorded as speech: whatever the buffer held, the status becomes
    speech and every chunk whose range contains the tick is classified as
    speech. *)
Theorem failed_fetch_counts_as_speech
    (response : option NowPlaying) (now : Z) (iso : string) (st : Sampler)
    (startMs endMs : Z) :
  noArtistReported response ->
  startMs <= now <= endMs ->
  lastMetaStatus (pollerTick response now iso st) = speech /\
  chunkHasSpeech (metadataBuffer (pollerTick response now iso st))
                 startMs endMs = true.
Proof.
  intros Hnone Hrange.
  assert (Hfalsy : truthy (fst (fetchMetadata response)) = false).
  { destruct Hnone as [->|(data & -> & [Ha|Ha])]; simpl;
      [reflexivity | |]; unfold or_null; rewrite Ha; reflexivity. }
  split.
  - unfold pollerTick. cbn [lastMetaStatus]. rewrite Hfalsy. reflexivity.
  - unfold chunkHasSpeech. apply existsb_exists.
    exists (sampleOf response now iso). split.
    + apply filter_In. split.
      * unfold pollerTick. cbn [metadataBuffer].
        apply (shiftWhileOld_keeps_last _ _ (sampleOf response now iso)).
        simpl. unfold RETENTION_MS. lia.
      * unfold inRange. simpl.
        apply andb_true_intro. split; apply Z.leb_le; lia.
    + unfold noArtist. simpl. rewrite Hfalsy. reflexivity.
Qed.

(** ** Transcript merge *)

Lemma sumBefore_step (durationsMs : list Z) (d : Z) (i : nat) :
  sumBefore (d :: durationsMs) (S i) = d + sumBefore durationsMs i.
Proof. reflexivity. Qed.

Lemma mergedSegment_exact (offsetMs : Z) (seg : TranscriptSegment) :
  mergedSegment (Num offsetMs) seg = exactSegment (shiftSegment offsetMs seg).
Proof. reflexivity. Qed.

Lemma mergedSegment_nan (seg : TranscriptSegment) :
  mergedSegment NaN seg = nanSegment seg.
Proof. reflexivity. Qed.

(** Once the offset is NaN it stays NaN. *)
Lemma mergeTranscriptsFrom_nan (transcripts : list (list TranscriptSegment))
    (i : nat) (durationsMs : list Z) (merged : list MergedSegment) :
  mergeTranscriptsFrom transcripts i durationsMs merged NaN
  = merged ++ List.map nanSegment (concat transcripts).
Proof.
  revert i merged. induction transcripts as [|t rest IH]; intros i merged.
  - simpl. rewrite app_nil_r. reflexivity.
  - cbn [mergeTranscriptsFrom jsadd concat]. rewrite IH.
    rewrite List.map_app, app_assoc. reflexivity.
Qed.

(** The loop while durations are at hand: [durationsMs] is what is left of
    the array from index [i] on. *)
Lemma mergeTranscriptsFrom_exact (transcripts : list (list TranscriptSegment))
    (i : nat) (before durationsMs : list Z) (merged : list MergedSegment)
    (offsetMs : Z) :
  length before = i ->
  (length transcripts <= S (length durationsMs))%nat ->
  mergeTranscriptsFrom transcripts i (before ++ durationsMs) merged
    (Num offsetMs)
  = merged ++
    List.map exactSegment
      (concat (imap (fun j t =>
                 List.map (shiftSegment (offsetMs + sumBefore durationsMs j)) t)
               transcripts)).
Proof.
  revert i before durationsMs merged offsetMs.
  induction transcripts as [|t rest IH];
    intros i before durationsMs merged offsetMs Hi Hlen.
  - simpl. rewrite app_nil_r. reflexivity.
  - cbn [mergeTranscriptsFrom imap concat].
    rewrite List.map_app, app_assoc. unfold sumBefore at 1. cbn [firstn fold_right].
    rewrite Z.add_0_r.
    assert (Hfirst : List.map (mergedSegment (Num offsetMs)) t
                     = List.map exactSegment (List.map (shiftSegment offsetMs) t)).
    { rewrite List.map_map. reflexivity. }
    rewrite Hfirst.
    destruct rest as [|t' rest'].
    + simpl. rewrite app_nil_r. reflexivity.
    + destruct durationsMs as [|d durationsMs']; [simpl in Hlen; lia|].
      unfold durationAt. rewrite list_lookup_middle by (symmetry; exact Hi).
      cbn [jsadd].
      replace (before ++ d :: durationsMs') with ((before ++ [d]) ++ durationsMs')
        by (rewrite <- app_assoc; reflexivity).
      rewrite (IH (S i) (before ++ [d]) durationsMs').
      * f_equal. f_equal. f_equal. apply imap_ext. intros j t'' _.
        unfold compose. rewrite sumBefore_step. f_equal. f_equal. lia.
      * rewrite length_app. simpl. lia.
      * simpl in *. lia.
Qed.

(** X4. With a duration for every transcript but possibly the last,
    [mergeTranscripts] keeps every segment, in order, and moves the segments
    of transcript [i] by the sum of the first [i] durations; no timestamp is
    NaN. *)
Theorem mergeTranscripts_shifts_by_earlier_durations
    (transcripts : list (list TranscriptSegment)) (durationsMs : list Z) :
  (length transcripts <= S (length durationsMs))%nat ->
  mergeTranscripts transcripts durationsMs
  = List.map exactSegment
      (concat (imap (fun i t =>
                 List.map (shiftSegment (sumBefore durationsMs i)) t)
               transcripts)).
Proof.
  intros Hlen. unfold mergeTranscripts.
  apply (mergeTranscriptsFrom_exact transcripts 0 [] durationsMs [] 0 eq_refl Hlen).
Qed.

Lemma mergeTranscriptsFrom_app (front back : list (list TranscriptSegment))
    (i : nat) (durationsMs : list Z) (merged : list MergedSegment)
    (off : jsnum) :
  exists off',
    mergeTranscriptsFrom (front ++ back) i durationsMs merged off
    = mergeTranscriptsFrom back (i + length front) durationsMs
        (mergeTranscriptsFrom front i durationsMs merged off) off' /\
    (off = NaN \/ (length durationsMs < i + length front)%nat /\ front <> []
     -> off' = NaN).
Proof.
  revert i merged off. induction front as [|t front IH]; intros i merged off.
  - exists off. simpl. rewrite Nat.add_0_r. split; [reflexivity|].
    intros [Hnan|[_ Hne]]; [exact Hnan | contradiction].
  - cbn [app mergeTranscriptsFrom length].
    destruct (IH (S i) (merged ++ List.map (mergedSegment off) t)
                 (jsadd off (durationAt durationsMs i))) as (off' & Heq & Hnan).
    exists off'. split.
    + rewrite Heq. f_equal. lia.
    + intros Hcase. apply Hnan.
      destruct Hcase as [->|[Hshort _]]; [left; reflexivity|].
      destruct front as [|t' front'].
      * left. unfold durationAt. rewrite lookup_ge_None_2 by (simpl in *; lia).
        destruct off; reflexivity.
      * right. split; [simpl in *; lia | discriminate].
Qed.

(** X5. With fewer durations than that, the timestamps are lost from the
    first transcript on whose offset needs a missing duration: these
    segments are still returned, in order, with NaN for start and end. *)
Theorem mergeTranscripts_missing_durations_give_nan
    (front back : list (list TranscriptSegment)) (durationsMs : list Z) :
  length front = S (length durationsMs) ->
  mergeTranscripts (front ++ back) durationsMs
  = mergeTranscripts front durationsMs
    ++ List.map nanSegment (concat back).
Proof.
  intros Hlen. unfold mergeTranscripts.
  destruct (mergeTranscriptsFrom_app front back 0 durationsMs [] (Num 0))
    as (off' & Heq & Hnan).
  rewrite Heq, Hnan.
  - apply mergeTranscriptsFrom_nan.
  - right. split; [simpl; lia|]. destruct front; [discriminate | discriminate].
Qed.

(** ** Transcription gateway: composition, order and failure *)

Lemma StronglySorted_append {A} (R : A -> A -> Prop) (l1 l2 : list A) :
  StronglySorted R l1 -> StronglySorted R l2 ->
  (forall x y, In x l1 -> In y l2 -> R x y) ->
  StronglySorted R (l1 ++ l2).
Proof.
  intros H1 H2 Hcross. induction H1 as [|x l1 Hl1 IH Hall]; simpl.
  - exact H2.
  - constructor.
    + apply IH. intros a b Ha Hb. apply Hcross; [right; exact Ha | exact Hb].
    + apply Forall_app. split; [exact Hall|].
      rewrite List.Forall_forall. intros y Hy.
      apply Hcross; [left; reflexivity | exact Hy].
Qed.

Section GatewayComposition.
Context `{Platform}.

(** The large-file branch, when the split and every transcription succeed. *)
Lemma transcribeAudio_split (fs : FS) (inputPath : string)
    (data : list Byte.byte) (chunkFiles : list (list Byte.byte))
    (results : list (GroqTranscriptionResult double)) :
  fs !! inputPath = Some (File data) ->
  MAX_FILE_SIZE < Z.of_nat (length data) ->
  ffmpegSegment data = Some chunkFiles ->
  Forall2 (fun chunkFile r => groqTranscribe chunkFile = Some r)
          chunkFiles results ->
  transcribeAudio inputPath fs = (Ok (shiftedTranscripts results), fs).
Proof.
  intros Hfile Hbig Hsplit Hall.
  unfold transcribeAudio, io_bind, getFileSize. rewrite Hfile.
  destruct (Z.leb_spec (Z.of_nat (length data)) MAX_FILE_SIZE); [lia|].
  unfold splitAudioFile, io_bind, readFile. rewrite Hfile, Hsplit.
  unfold io_ret at 1.
  rewrite (transcribeChunks_shifted _ _ _ _ _ Hall). reflexivity.
Qed.

Lemma shiftedFrom_cons (off : Z) (r : GroqTranscriptionResult double)
    (rs : list (GroqTranscriptionResult double)) :
  concat (imap (fun i r' =>
            List.map (offsetSegment (off + durationsBefore (r :: rs) i))
                     (r_segments r'))
          (r :: rs))
  = List.map (offsetSegment off) (r_segments r)
    ++ concat (imap (fun i r' =>
                 List.map (offsetSegment
                             (off + secondsToMs (r_duration r)
                              + durationsBefore rs i))
                          (r_segments r'))
               rs).
Proof.
  cbn [imap concat]. f_equal.
  - unfold durationsBefore. cbn. rewrite Z.add_0_r. reflexivity.
  - f_equal. apply imap_ext. intros i r' _. unfold compose.
    unfold durationsBefore. cbn [firstn List.map fold_right].
    f_equal. f_equal. lia.
Qed.

Lemma shiftedTranscripts_as_merge
    (results : list (GroqTranscriptionResult double)) :
  List.map exactSegment (shiftedTranscripts results)
  = mergeTranscripts (directTranscripts results) (reportedDurations results).
Proof.
  unfold mergeTranscripts.
  assert (Hlen : (length (directTranscripts results)
                  <= S (length (reportedDurations results)))%nat).
  { unfold directTranscripts, reportedDurations. rewrite !length_map. lia. }
  pose proof (mergeTranscriptsFrom_exact (directTranscripts results) 0 []
                (reportedDurations results) [] 0 eq_refl Hlen) as Hm.
  cbn [app] in Hm. rewrite Hm. clear Hm.
  f_equal. unfold shiftedTranscripts, directTranscripts.
  f_equal. rewrite imap_fmap. apply imap_ext. intros i r _.
  unfold compose. rewrite List.map_map. apply List.map_ext. intros seg.
  unfold offsetSegment, shiftSegment, directSegment. cbn.
  unfold sumBefore, durationsBefore, reportedDurations.
  rewrite firstn_map. reflexivity.
Qed.

(** X6. The transcript of a file above the threshold is what
    [mergeTranscripts] makes of the transcripts of its sub-segments, each
    converted on its own, and of their reported durations in rounded
    milliseconds: the gateway's loop and the exported merge agree. *)
Theorem transcribeAudio_agrees_with_mergeTranscripts
    (fs : FS) (inputPath : string) (data : list Byte.byte)
    (chunkFiles : list (list Byte.byte))
    (results : list (GroqTranscriptionResult double)) :
  fs !! inputPath = Some (File data) ->
  MAX_FILE_SIZE < Z.of_nat (length data) ->
  ffmpegSegment data = Some chunkFiles ->
  Forall2 (fun chunkFile r => groqTranscribe chunkFile = Some r)
          chunkFiles results ->
  exists transcript,
    transcribeAudio inputPath fs = (Ok transcript, fs) /\
    List.map exactSegment transcript
    = mergeTranscripts (directTranscripts results) (reportedDurations results).
Proof.
  intros Hfile Hbig Hsplit Hall.
  exists (shiftedTranscripts results). split.
  - apply (transcribeAudio_split fs inputPath data chunkFiles results);
      assumption.
  - apply shiftedTranscripts_as_merge.
Qed.

(** Segments in the order of their starts, each ending no earlier than it
    starts. *)
Lemma shifted_ordered (results : list (GroqTranscriptionResult double))
    (off : Z) :
  Forall wellTimed results ->
  StronglySorted (fun a b => seg_start a <= seg_start b)
    (concat (imap (fun i r =>
               List.map (offsetSegment (off + durationsBefore results i))
                        (r_segments r))
             results)) /\
  Forall (fun s => off <= seg_start s <= seg_end s)
    (concat (imap (fun i r =>
               List.map (offsetSegment (off + durationsBefore results i))
                        (r_segments r))
             results)).
Proof.
  intros Hall. revert off. induction Hall as [|r rs Hr Hrs IH]; intros off.
  - split; constructor.
  - rewrite shiftedFrom_cons.
    destruct (IH (off + secondsToMs (r_duration r))) as [Hsorted Hbounds].
    destruct Hr as (Hstarts & Hsegs & Hdur).
    assert (Hhead : StronglySorted (fun a b => seg_start a <= seg_start b)
                      (List.map (offsetSegment off) (r_segments r))).
    { clear -Hstarts. induction (r_segments r) as [|seg segs IHs]; simpl.
      - constructor.
      - simpl in Hstarts. apply StronglySorted_inv in Hstarts as [Hrest Hle].
        constructor; [apply IHs, Hrest|].
        rewrite List.Forall_forall in *. intros y Hy.
        apply in_map_iff in Hy as (seg' & <- & Hin). simpl.
        specialize (Hle (secondsToMs (g_start seg'))
                        (in_map _ _ _ Hin)). simpl in Hle. lia. }
    assert (Hheadb : Forall (fun s => off <= seg_start s <= seg_end s /\
                               seg_start s <= off + secondsToMs (r_duration r))
                       (List.map (offsetSegment off) (r_segments r))).
    { rewrite List.Forall_forall in *. intros y Hy.
      apply in_map_iff in Hy as (seg & <- & Hin). simpl.
      specialize (Hsegs seg Hin). lia. }
    split.
    + apply StronglySorted_append; [exact Hhead | exact Hsorted|].
      intros x y Hx Hy. rewrite List.Forall_forall in Hheadb, Hbounds.
      specialize (Hheadb x Hx). specialize (Hbounds y Hy). lia.
    + apply Forall_app. split.
      * eapply Forall_impl; [exact Hheadb|]. simpl. intros; lia.
      * eapply Forall_impl; [exact Hbounds|]. simpl. intros; lia.
Qed.

(** X7. When every sub-segment result is well timed (starts ordered,
    between 0 and the reported duration, ends not before starts), the
    transcript of a file above the threshold has non-decreasing starts, no
    negative start, and every end at or after its start. *)
Theorem transcribeAudio_keeps_segments_ordered
    (fs : FS) (inputPath : string) (data : list Byte.byte)
    (chunkFiles : list (list Byte.byte))
    (results : list (GroqTranscriptionResult double)) :
  fs !! inputPath = Some (File data) ->
  MAX_FILE_SIZE < Z.of_nat (length data) ->
  ffmpegSegment data = Some chunkFiles ->
  Forall2 (fun chunkFile r => groqTranscribe chunkFile = Some r)
          chunkFiles results ->
  Forall wellTimed results ->
  exists transcript,
    transcribeAudio inputPath fs = (Ok transcript, fs) /\
    StronglySorted (fun a b => seg_start a <= seg_start b) transcript /\
    Forall (fun s => 0 <= seg_start s <= seg_end s) transcript.
Proof.
  intros Hfile Hbig Hsplit Hall Htimed.
  exists (shiftedTranscripts results). split.
  - apply (transcribeAudio_split fs inputPath data chunkFiles results);
      assumption.
  - exact (shifted_ordered results 0 Htimed).
Qed.

Lemma transcribeChunks_rejects (chunkFiles : list (list Byte.byte))
    (allSegments : list TranscriptSegment) (timeOffsetMs : Z) (fs : FS) :
  Exists (fun chunkFile => groqTranscribe chunkFile = None) chunkFiles ->
  transcribeChunks chunkFiles allSegments timeOffsetMs fs
  = (Err GroqFailed, fs).
Proof.
  revert allSegments timeOffsetMs.
  induction chunkFiles as [|chunkFile rest IH];
    intros allSegments timeOffsetMs Hex.
  - inversion Hex.
  - cbn [transcribeChunks]. unfold io_bind, transcribeChunkData.
    destruct (groqTranscribe chunkFile) as [r|] eqn:Hr.
    + unfold io_ret at 1. apply IH.
      inversion Hex as [? ? Hhead|? ? Htail]; subst; [congruence | exact Htail].
    + reflexivity.
Qed.

(** X8. The gateway returns a whole transcript or none: it rejects, leaving
    the file system as it was, when the file is missing, when the split
    fails, and when the transcription of the file or of any one of its
    sub-segments fails, whatever the other sub-segments gave. *)
Theorem transcribeAudio_rejects_as_a_whole (fs : FS) (inputPath : string) :
  (fs !! inputPath = None ->
     transcribeAudio inputPath fs = (Err ENOENT, fs)) /\
  (forall data,
     fs !! inputPath = Some (File data) ->
     Z.of_nat (length data) <= MAX_FILE_SIZE ->
     groqTranscribe data = None ->
     transcribeAudio inputPath fs = (Err GroqFailed, fs)) /\
  (forall data,
     fs !! inputPath = Some (File data) ->
     MAX_FILE_SIZE < Z.of_nat (length data) ->
     ffmpegSegment data = None ->
     transcribeAudio inputPath fs = (Err FfmpegFailed, fs)) /\
  (forall data chunkFiles,
     fs !! inputPath = Some (File data) ->
     MAX_FILE_SIZE < Z.of_nat (length data) ->
     ffmpegSegment data = Some chunkFiles ->
     Exists (fun chunkFile => groqTranscribe chunkFile = None) chunkFiles ->
     transcribeAudio inputPath fs = (Err GroqFailed, fs)).
Proof.
  unfold transcribeAudio, io_bind, getFileSize.
  split; [|split; [|split]].
  - intros Hnone. rewrite Hnone. reflexivity.
  - intros data Hfile Hsmall Hgroq. rewrite Hfile.
    destruct (Z.leb_spec (Z.of_nat (length data)) MAX_FILE_SIZE); [|lia].
    unfold transcribeChunk, io_bind, readFile, transcribeChunkData.
    rewrite Hfile, Hgroq. reflexivity.
  - intros data Hfile Hbig Hsplit. rewrite Hfile.
    destruct (Z.leb_spec (Z.of_nat (length data)) MAX_FILE_SIZE); [lia|].
    unfold splitAudioFile, io_bind, readFile. rewrite Hfile, Hsplit.
    reflexivity.
  - intros data chunkFiles Hfile Hbig Hsplit Hex. rewrite Hfile.
    destruct (Z.leb_spec (Z.of_nat (length data)) MAX_FILE_SIZE); [lia|].
    unfold splitAudioFile, io_bind, readFile. rewrite Hfile, Hsplit.
    unfold io_ret at 1. apply transcribeChunks_rejects, Hex.
Qed.

End GatewayComposition.

(** ** File-system operations: what they touch *)

Lemma string_length_app (a b : string) :
  String.length (a ++ b) = (String.length a + String.length b)%nat.
Proof.
  induction a as [|c a IH]; simpl; [reflexivity | now rewrite IH].
Qed.

Lemma listFile_differs (outputPath : string) :
  (outputPath ++ ".txt")%string <> outputPath.
Proof.
  intros Heq. apply (f_equal String.length) in Heq.
  rewrite string_length_app in Heq. simpl in Heq. lia.
Qed.

Lemma writeFile_frame (p : string) (data : list Byte.byte) (fs : FS)
    (q : string) :
  q <> p -> snd (writeFile p data fs) !! q = fs !! q.
Proof.
  intros Hne. unfold writeFile.
  destruct (isDir fs p); [reflexivity|].
  destruct (parentExists fs p); [|reflexivity].
  simpl. apply lookup_insert_ne. congruence.
Qed.

Lemma writeFile_rejected (p : string) (data : list Byte.byte) (fs : FS)
    (e : Failure) (fs' : FS) :
  writeFile p data fs = (Err e, fs') -> fs' = fs.
Proof.
  unfold writeFile. destruct (isDir fs p); [congruence|].
  destruct (parentExists fs p); congruence.
Qed.

Lemma unlink_frame (p : string) (fs : FS) (q : string) :
  q <> p -> snd (unlink p fs) !! q = fs !! q.
Proof.
  intros Hne. unfold unlink.
  destruct (fs !! p) as [[data|]|]; simpl; try reflexivity.
  apply lookup_delete_ne. congruence.
Qed.

Lemma unlink_makes_no_file (p : string) (fs : FS) (q : string) :
  isFile fs q = false -> isFile (snd (unlink p fs)) q = false.
Proof.
  intros Hq. unfold unlink.
  destruct (fs !! p) as [[data|]|] eqn:Hp; simpl; try exact Hq.
  unfold isFile in *. destruct (decide (p = q)) as [->|Hne].
  - rewrite lookup_delete_eq. reflexivity.
  - rewrite lookup_delete_ne by exact Hne. exact Hq.
Qed.

Lemma unlinkChunks_resolves (chunks : list ChunkInfo) (fs : FS) :
  fst (unlinkChunks chunks fs) = Ok tt.
Proof.
  revert fs. induction chunks as [|c rest IH]; intros fs; [reflexivity|].
  cbn [unlinkChunks]. unfold io_bind, swallow at 1. apply IH.
Qed.

Lemma unlinkChunks_frame (chunks : list ChunkInfo) (fs : FS) (q : string) :
  ~ In q (List.map file chunks) ->
  snd (unlinkChunks chunks fs) !! q = fs !! q.
Proof.
  revert fs. induction chunks as [|c rest IH]; intros fs Hq; [reflexivity|].
  cbn [unlinkChunks]. unfold io_bind, swallow at 1.
  rewrite IH by (intros Hin; apply Hq; right; exact Hin).
  apply unlink_frame. intros ->. apply Hq. left. reflexivity.
Qed.

Lemma unlinkChunks_makes_no_file (chunks : list ChunkInfo) (fs : FS)
    (q : string) :
  isFile fs q = false -> isFile (snd (unlinkChunks chunks fs)) q = false.
Proof.
  revert fs. induction chunks as [|c rest IH]; intros fs Hq; [exact Hq|].
  cbn [unlinkChunks]. unfold io_bind, swallow at 1.
  apply IH, unlink_makes_no_file, Hq.
Qed.

Lemma unlinkChunks_deletes_all (chunks : list ChunkInfo) (fs : FS) :
  Forall (fun c => isFile (snd (unlinkChunks chunks fs)) (file c) = false)
         chunks.
Proof.
  revert fs. induction chunks as [|c rest IH]; intros fs; [constructor|].
  cbn [unlinkChunks]. unfold io_bind, swallow at 1. constructor.
  - apply unlinkChunks_makes_no_file.
    pose proof (unlink_leaves_no_file (file c) fs) as Hgone.
    unfold swallow in Hgone. exact Hgone.
  - apply IH.
Qed.

Lemma insertDirs_lookup (dirs : list string) (fs : FS) (q : string) :
  ~ In q dirs ->
  fold_left (fun acc d => <[d := Dir]> acc) dirs fs !! q = fs !! q.
Proof.
  revert fs. induction dirs as [|d dirs IH]; intros fs Hq; [reflexivity|].
  simpl. rewrite IH by (intros Hin; apply Hq; right; exact Hin).
  apply lookup_insert_ne. intros ->. apply Hq. left. reflexivity.
Qed.

(** [mkdir] replaces no regular file. *)
Lemma mkdirRecursive_keeps_files (p : string) (fs : FS) (q : string)
    (data : list Byte.byte) :
  fs !! q = Some (File data) ->
  snd (mkdirRecursive p fs) !! q = Some (File data).
Proof.
  intros Hq. unfold mkdirRecursive.
  destruct (existsb (isFile fs) (ancestorsAndSelf p)) eqn:Hex; [exact Hq|].
  simpl. rewrite insertDirs_lookup; [exact Hq|].
  intros Hin.
  assert (Hfile : existsb (isFile fs) (ancestorsAndSelf p) = true).
  { apply existsb_exists. exists q. split; [exact Hin|].
    unfold isFile. rewrite Hq. reflexivity. }
  congruence.
Qed.

Section MergeAudio.
Context `{Platform}.

Lemma runFfmpegConcat_frame (listFile outputPath : string) (fs : FS)
    (q : string) :
  q <> outputPath ->
  snd (runFfmpegConcat listFile outputPath fs) !! q = fs !! q.
Proof.
  intros Hne. unfold runFfmpegConcat.
  destruct (ffmpegConcat fs listFile outputPath) as [exit written].
  assert (Hfs : match written with
                | Some data => snd (writeFile outputPath data fs)
                | None => fs
                end !! q = fs !! q).
  { destruct written as [data|]; [apply writeFile_frame, Hne | reflexivity]. }
  destruct exit as [[|code|code]| |]; exact Hfs.
Qed.

(** The audio merge touches its output and its list file, nothing else. *)
Lemma mergeAudioFiles_frame (inputPaths : list string) (outputPath : string)
    (fs : FS) (q : string) :
  q <> outputPath -> q <> (outputPath ++ ".txt")%string ->
  snd (mergeAudioFiles inputPaths outputPath fs) !! q = fs !! q.
Proof.
  intros Hout Hlist. unfold mergeAudioFiles.
  destruct inputPaths as [|p1 [|p2 rest]].
  - reflexivity.
  - unfold copyFile, io_bind, readFile.
    destruct (fs !! p1) as [[data|]|]; try reflexivity.
    apply writeFile_frame, Hout.
  - unfold io_bind.
    destruct (writeFile (outputPath ++ ".txt") _ fs) as [[[]|e] fs1] eqn:Hw.
    + assert (Hfs1 : fs1 !! q = fs !! q).
      { pose proof (writeFile_frame (outputPath ++ ".txt")
                      (list_byte_of_string (listContent (p1 :: p2 :: rest)))
                      fs q Hlist) as Hf.
        rewrite Hw in Hf. exact Hf. }
      pose proof (runFfmpegConcat_frame (outputPath ++ ".txt") outputPath
                    fs1 q Hout) as Hrun.
      destruct (runFfmpegConcat (outputPath ++ ".txt") outputPath fs1)
        as [[[]|e] fs2]; cbn [snd] in *; unfold swallow; cbn [snd];
        rewrite unlink_frame by exact Hlist; congruence.
    + apply writeFile_rejected in Hw. subst fs1. reflexivity.
Qed.

(** The output stays writable once the list file is written. *)
Lemma output_writable_beside_list (outputPath : string)
    (content : list Byte.byte) (fs : FS) :
  let listFile := (outputPath ++ ".txt")%string in
  isDir fs listFile = false ->
  isDir fs outputPath = false -> parentExists fs outputPath = true ->
  isDir (<[listFile := File content]> fs) outputPath = false /\
  parentExists (<[listFile := File content]> fs) outputPath = true.
Proof.
  intros listFile Hld Hod Hop.
  pose proof (listFile_differs outputPath) as Hne. fold listFile in Hne.
  split.
  - unfold isDir. rewrite lookup_insert_ne by exact Hne. exact Hod.
  - unfold parentExists in *. apply orb_true_iff in Hop as [Hroot|Hdir];
      apply orb_true_iff; [left; exact Hroot | right].
    unfold isDir in *.
    destruct (decide (listFile = dirname outputPath)) as [Heq|Hneq].
    + rewrite <- Heq in Hdir. rewrite Hdir in Hld. discriminate.
    + rewrite lookup_insert_ne by exact Hneq. exact Hdir.
Qed.

(** X9. With two or more inputs, a writable list file and a writable
    output: the tool is started on a list file that holds one line
    [file '<path>'] per input, in the order given; when it exits with code
    0, the audio merge resolves, the output holds what the tool wrote (or
    what it held before, when the tool wrote nothing), the list file is
    gone and every other path is as before. *)
Theorem mergeAudioFiles_resolves_on_exit_code_zero
    (first second : string) (others : list string) (outputPath : string)
    (fs : FS) (written : option (list Byte.byte)) :
  let inputPaths := first :: second :: others in
  let listFile := (outputPath ++ ".txt")%string in
  let listed :=
    <[listFile := File (list_byte_of_string (listContent inputPaths))]> fs in
  isDir fs listFile = false -> parentExists fs listFile = true ->
  isDir fs outputPath = false -> parentExists fs outputPath = true ->
  ffmpegConcat listed listFile outputPath = (Exited 0, written) ->
  mergeAudioFiles inputPaths outputPath fs
  = (Ok tt,
     match written with
     | Some merged => <[outputPath := File merged]> (delete listFile fs)
     | None => delete listFile fs
     end).
Proof.
  intros inputPaths listFile listed Hld Hlp Hod Hop Hrun.
  pose proof (listFile_differs outputPath) as Hne. fold listFile in Hne.
  destruct (output_writable_beside_list outputPath
              (list_byte_of_string (listContent inputPaths)) fs Hld Hod Hop)
    as [Hod1 Hop1].
  fold listFile listed in Hod1, Hop1.
  unfold mergeAudioFiles. cbn [inputPaths]. fold inputPaths. fold listFile.
  unfold io_bind. unfold writeFile at 1. rewrite Hld, Hlp. fold listed.
  unfold runFfmpegConcat. rewrite Hrun.
  destruct written as [merged|]; unfold swallow, unlink; cbn [snd].
  - unfold writeFile. rewrite Hod1, Hop1. cbn [snd].
    rewrite lookup_insert_ne by congruence. unfold listed.
    rewrite lookup_insert_eq. cbn [snd]. f_equal.
    rewrite delete_insert_ne by exact Hne.
    rewrite delete_insert_eq. reflexivity.
  - unfold listed. rewrite lookup_insert_eq. cbn [snd].
    rewrite delete_insert_eq. reflexivity.
Qed.

(** X10. With two or more inputs and a writable list file: when the tool
    ends in any other way than with exit code 0 (another code, a signal, or
    a failure to start), the audio merge rejects with the ffmpeg error; the
    list file is gone, every path other than the output is as before, and
    what the tool wrote at a writable output is left there. *)
Theorem mergeAudioFiles_rejects_unless_exit_code_zero
    (first second : string) (others : list string) (outputPath : string)
    (fs : FS) (exit : FfmpegExit) (written : option (list Byte.byte)) :
  let inputPaths := first :: second :: others in
  let listFile := (outputPath ++ ".txt")%string in
  let listed :=
    <[listFile := File (list_byte_of_string (listContent inputPaths))]> fs in
  isDir fs listFile = false -> parentExists fs listFile = true ->
  ffmpegConcat listed listFile outputPath = (exit, written) ->
  exit <> Exited 0 ->
  exists fs',
    mergeAudioFiles inputPaths outputPath fs = (Err FfmpegFailed, fs') /\
    fs' !! listFile = None /\
    (forall q, q <> listFile -> q <> outputPath -> fs' !! q = fs !! q) /\
    (written = None -> fs' !! outputPath = fs !! outputPath) /\
    (forall partial,
       written = Some partial ->
       isDir fs outputPath = false -> parentExists fs outputPath = true ->
       fs' !! outputPath = Some (File partial)).
Proof.
  intros inputPaths listFile listed Hld Hlp Hrun Hexit.
  pose proof (listFile_differs outputPath) as Hne. fold listFile in Hne.
  set (tooled := match written with
                 | Some data => snd (writeFile outputPath data listed)
                 | None => listed
                 end).
  assert (Hlist : tooled !! listFile
                  = Some (File (list_byte_of_string (listContent inputPaths)))).
  { unfold tooled. destruct written as [data|].
    - rewrite writeFile_frame by exact Hne. apply lookup_insert_eq.
    - apply lookup_insert_eq. }
  exists (delete listFile tooled). split; [|split; [|split; [|split]]].
  - unfold mergeAudioFiles. cbn [inputPaths]. fold inputPaths. fold listFile.
    unfold io_bind. unfold writeFile at 1. rewrite Hld, Hlp. fold listed.
    unfold runFfmpegConcat. rewrite Hrun. fold tooled.
    assert (Hgone : snd (swallow (unlink listFile) tooled)
                    = delete listFile tooled).
    { unfold swallow, unlink. cbn [snd]. rewrite Hlist. reflexivity. }
    destruct exit as [[|code|code]| |]; try (rewrite Hgone; reflexivity).
    contradiction.
  - apply lookup_delete_eq.
  - intros q Hq Hout. rewrite lookup_delete_ne by congruence.
    unfold tooled. destruct written as [data|].
    + rewrite writeFile_frame by exact Hout. apply lookup_insert_ne.
      congruence.
    + apply lookup_insert_ne. congruence.
  - intros ->. rewrite lookup_delete_ne by exact Hne.
    apply lookup_insert_ne. exact Hne.
  - intros partial -> Hod Hop.
    destruct (output_writable_beside_list outputPath
                (list_byte_of_string (listContent inputPaths)) fs Hld Hod Hop)
      as [Hod1 Hop1].
    fold listFile listed in Hod1, Hop1.
    rewrite lookup_delete_ne by exact Hne.
    unfold tooled, writeFile. rewrite Hod1, Hop1. cbn [snd].
    apply lookup_insert_eq.
Qed.

End MergeAudio.

(** ** Broadcast merge: its result and what a failure leaves *)

Lemma fold_left_sum {A} (f : A -> Z) (l : list A) (acc : Z) :
  fold_left (fun sum x => sum + f x) l acc
  = acc + fold_right Z.add 0 (List.map f l).
Proof.
  revert acc. induction l as [|x l IH]; intros acc; simpl; [lia|].
  rewrite IH. lia.
Qed.

Section MergeProperties.
Context `{Platform}.

Lemma transcribeChunks_reads_only (chunkFiles : list (list Byte.byte))
    (allSegments : list TranscriptSegment) (timeOffsetMs : Z) (fs : FS) :
  snd (transcribeChunks chunkFiles allSegments timeOffsetMs fs) = fs.
Proof.
  revert allSegments timeOffsetMs.
  induction chunkFiles as [|chunkFile rest IH];
    intros allSegments timeOffsetMs; [reflexivity|].
  cbn [transcribeChunks]. unfold io_bind, transcribeChunkData.
  destruct (groqTranscribe chunkFile); [apply IH | reflexivity].
Qed.

Lemma transcribeAudio_reads_only (inputPath : string) (fs : FS) :
  snd (transcribeAudio inputPath fs) = fs.
Proof.
  unfold transcribeAudio, io_bind, getFileSize.
  destruct (fs !! inputPath) as [[data|]|] eqn:Hfile; try reflexivity.
  - destruct (Z.of_nat (length data) <=? MAX_FILE_SIZE).
    + unfold transcribeChunk, io_bind, readFile, transcribeChunkData.
      rewrite Hfile. destruct (groqTranscribe data); reflexivity.
    + unfold splitAudioFile, io_bind, readFile. rewrite Hfile.
      destruct (ffmpegSegment data); [|reflexivity].
      apply transcribeChunks_reads_only.
  - destruct (4096 <=? MAX_FILE_SIZE).
    + unfold transcribeChunk, io_bind, readFile. rewrite Hfile. reflexivity.
    + unfold splitAudioFile, io_bind, readFile. rewrite Hfile. reflexivity.
Qed.

(** The merge, step by step: either a step rejects and the file system is
    the one this step left, or all steps resolve. *)
Lemma mergeBroadcast_steps (firstChunk : ChunkInfo) (rest : list ChunkInfo)
    (liveDir : string) (fs : FS) :
  let chunks := firstChunk :: rest in
  let id := replaceColonDot (toISOString (startTime firstChunk)) in
  let broadcastDir := pathJoin liveDir id in
  let audioFile := pathJoin broadcastDir "audio.mp3" in
  let jsonFile := pathJoin broadcastDir "broadcast.json" in
  let fs1 := snd (mkdirRecursive broadcastDir fs) in
  let fs2 := snd (mergeAudioFiles (List.map file chunks) audioFile fs1) in
  (exists e fs', mergeBroadcast chunks liveDir fs = (Err e, fs') /\
                 (fs' = fs1 \/ fs' = fs2)) \/
  (exists transcript,
     transcribeAudio audioFile fs2 = (Ok transcript, fs2) /\
     mergeBroadcast chunks liveDir fs
     = (Ok (Some (broadcastOf chunks firstChunk transcript)),
        snd (unlinkChunks chunks
               (<[jsonFile := File (stringifyBroadcast
                                      (broadcastOf chunks firstChunk transcript))]>
                  fs2)))).
Proof.
  intros chunks id broadcastDir audioFile jsonFile fs1 fs2.
  remember (mergeBroadcast chunks liveDir fs) as outcome eqn:Hout.
  unfold mergeBroadcast in Hout. cbn [chunks] in Hout.
  fold chunks id broadcastDir audioFile jsonFile in Hout.
  unfold io_bind at 1 in Hout.
  destruct (mkdirRecursive broadcastDir fs) as [[[]|e] fs1'] eqn:Hmk;
    cbn [snd] in fs1; subst fs1;
    [|left; exists e, fs1'; split; [exact Hout | left; reflexivity]].
  unfold io_bind at 1 in Hout.
  destruct (mergeAudioFiles (List.map file chunks) audioFile fs1')
    as [[[]|e] fs2'] eqn:Hmerge;
    cbn [snd] in fs2; subst fs2;
    [|left; exists e, fs2'; split; [exact Hout | right; reflexivity]].
  unfold io_bind at 1 in Hout.
  pose proof (transcribeAudio_reads_only audioFile fs2') as Hread.
  destruct (transcribeAudio audioFile fs2') as [[transcript|e] fs3] eqn:Htr;
    cbn [snd] in Hread; subst fs3;
    [|left; exists e, fs2'; split; [exact Hout | right; reflexivity]].
  unfold io_bind at 1 in Hout.
  destruct (writeFile jsonFile
              (stringifyBroadcast (broadcastOf chunks firstChunk transcript)) fs2')
    as [[[]|e] fs4] eqn:Hw.
  - right. exists transcript. split; [reflexivity|].
    unfold writeFile in Hw.
    destruct (isDir fs2' jsonFile); [discriminate|].
    destruct (parentExists fs2' jsonFile); [|discriminate].
    injection Hw as <-. unfold io_bind in Hout.
    pose proof (unlinkChunks_resolves chunks
                  (<[jsonFile := File (stringifyBroadcast
                       (broadcastOf chunks firstChunk transcript))]> fs2')) as Hok.
    destruct (unlinkChunks chunks _) as [[[]|e] fs5]; [exact Hout|].
    discriminate.
  - left. exists e, fs4. split; [exact Hout|]. right.
    apply writeFile_rejected in Hw. exact Hw.
Qed.

(** X11. A merge of a non-empty chunk list that resolves returns a
    broadcast, never [null]: its timestamp is the start of the first chunk,
    its id is that timestamp with colons and periods replaced by hyphens,
    its duration is the sum of the chunk durations, its title is generated
    from its own transcript with a limit of 10 words; afterwards no file is
    left at the path of any chunk, and the record file holds the broadcast
    unless it was one of the chunk paths. *)
Theorem mergeBroadcast_resolves_to_complete_record
    (firstChunk : ChunkInfo) (rest : list ChunkInfo) (liveDir : string)
    (fs fs' : FS) (result : option LiveBroadcast) :
  let chunks := firstChunk :: rest in
  mergeBroadcast chunks liveDir fs = (Ok result, fs') ->
  exists b,
    result = Some b /\
    b_timestamp b = toISOString (startTime firstChunk) /\
    b_id b = replaceColonDot (b_timestamp b) /\
    b_audioFile b = ("live/" ++ b_id b ++ "/audio.mp3")%string /\
    b_duration b = fold_right Z.add 0 (List.map duration chunks) /\
    b_title b = generateTitle (b_transcript b) 10 /\
    Forall (fun c => isFile fs' (file c) = false) chunks /\
    (~ In (pathJoin (pathJoin liveDir (b_id b)) "broadcast.json")
          (List.map file chunks) ->
     fs' !! pathJoin (pathJoin liveDir (b_id b)) "broadcast.json"
     = Some (File (stringifyBroadcast b))).
Proof.
  intros chunks Hmerge.
  destruct (mergeBroadcast_steps firstChunk rest liveDir fs)
    as [(e & fs0 & Herr & _)|(transcript & _ & Hok)].
  - fold chunks in Herr. congruence.
  - fold chunks in Hok. rewrite Hok in Hmerge.
    apply pair_equal_spec in Hmerge as [Hres Hfs].
    assert (Hsome : result = Some (broadcastOf chunks firstChunk transcript))
      by congruence.
    clear Hres. subst result fs'.
    exists (broadcastOf chunks firstChunk transcript).
    split; [reflexivity|]. split; [reflexivity|]. split; [reflexivity|].
    split; [reflexivity|]. split.
    + unfold broadcastOf. cbn [b_duration]. rewrite fold_left_sum.
      apply Z.add_0_l.
    + split; [reflexivity|]. split.
      * exact (unlinkChunks_deletes_all chunks _).
      * intros Hfresh. rewrite unlinkChunks_frame by exact Hfresh.
        apply lookup_insert_eq.
Qed.

(** X12. A merge that rejects deletes no chunk: every regular file other
    than the merged audio file and its list file is still there with the
    contents it had. *)
Theorem mergeBroadcast_failure_keeps_files
    (firstChunk : ChunkInfo) (rest : list ChunkInfo) (liveDir : string)
    (fs fs' : FS) (e : Failure) (q : string) (data : list Byte.byte) :
  let audioFile :=
    pathJoin (pathJoin liveDir
                (replaceColonDot (toISOString (startTime firstChunk))))
             "audio.mp3" in
  mergeBroadcast (firstChunk :: rest) liveDir fs = (Err e, fs') ->
  fs !! q = Some (File data) ->
  q <> audioFile -> q <> (audioFile ++ ".txt")%string ->
  fs' !! q = Some (File data).
Proof.
  intros audioFile Hmerge Hq Haudio Hlist.
  destruct (mergeBroadcast_steps firstChunk rest liveDir fs)
    as [(e0 & fs0 & Herr & Hwhere)|(transcript & _ & Hok)];
    [|congruence].
  rewrite Herr in Hmerge. injection Hmerge as _ <-.
  pose proof (mkdirRecursive_keeps_files
                (pathJoin liveDir
                   (replaceColonDot (toISOString (startTime firstChunk))))
                fs q data Hq) as H1.
  destruct Hwhere as [->| ->]; [exact H1|].
  rewrite mergeAudioFiles_frame by assumption. exact H1.
Qed.

End MergeProperties.

(** ** The assembler over a whole run *)

Section AssemblerHistory.
Context `{Platform}.
Variable liveDir : string.

Lemma resume_keeps_queue_and_calls (i : nat) (s s' : Service) :
  resume liveDir i s = Some s' ->
  pendingChunks s' = pendingChunks s /\ mergeCalls s' = mergeCalls s.
Proof.
  unfold resume. intros Hres.
  destruct (tasks s !! i) as [[chunks by_|by_|chunkFile]|];
    try discriminate;
    try destruct (mergeBroadcast chunks liveDir (disk s)) as [[result|e] fs'];
    injection Hres as <-; simpl; auto.
Qed.

Lemma step_conserves_chunks (ev : Event) (s s' : Service) :
  step liveDir ev s = Some s' ->
  concat (mergeCalls s') ++ pendingChunks s'
  = (concat (mergeCalls s) ++ pendingChunks s) ++ speechArrivals [ev].
Proof.
  intros Hstep.
  assert (Hstart : forall by_,
            concat (mergeCalls (startMerge by_ s))
              ++ pendingChunks (startMerge by_ s)
            = concat (mergeCalls s) ++ pendingChunks s).
  { intros by_. simpl. rewrite concat_app. simpl.
    rewrite !app_nil_r. reflexivity. }
  destruct ev as [buf chunkFile start|now|i]; simpl in Hstep |- *.
  - injection Hstep as <-. unfold processCompletedChunk.
    destruct (chunkHasSpeech _ _ _); simpl.
    + rewrite app_assoc. reflexivity.
    + rewrite app_nil_r.
      destruct ((0 <? length (pendingChunks s))%nat && negb (isProcessing s));
        [apply Hstart | reflexivity].
  - injection Hstep as <-. rewrite app_nil_r. unfold idleFlush.
    destruct ((0 <? length (pendingChunks s))%nat && negb (isProcessing s));
      [|reflexivity].
    destruct (last (pendingChunks s)); [|reflexivity].
    destruct (IDLE_THRESHOLD_MS <? _); [apply Hstart | reflexivity].
  - apply resume_keeps_queue_and_calls in Hstep as [-> ->].
    rewrite app_nil_r. reflexivity.
Qed.

Lemma speechArrivals_cons (ev : Event) (evs : list Event) :
  speechArrivals (ev :: evs) = speechArrivals [ev] ++ speechArrivals evs.
Proof.
  destruct ev; simpl; rewrite ?app_nil_r; reflexivity.
Qed.

Lemma run_conserves_chunks (evs : list Event) (s s' : Service) :
  run liveDir evs s = Some s' ->
  concat (mergeCalls s') ++ pendingChunks s'
  = (concat (mergeCalls s) ++ pendingChunks s) ++ speechArrivals evs.
Proof.
  revert s. induction evs as [|ev evs IH]; intros s Hrun; simpl in Hrun.
  - injection Hrun as <-. simpl. rewrite app_nil_r. reflexivity.
  - destruct (step liveDir ev s) as [s1|] eqn:Hstep; [|discriminate].
    rewrite (IH s1 Hrun), (step_conserves_chunks ev s s1 Hstep).
    rewrite (speechArrivals_cons ev evs), app_assoc. reflexivity.
Qed.

(** X13. No speech chunk is lost, duplicated or reordered by the assembler:
    in every state the service reaches, the chunks handed to the merges so
    far, in call order, followed by the queue, are exactly the chunks that
    were classified as speech, in arrival order. *)
Theorem assembler_hands_every_speech_chunk_to_one_merge
    (fs : FS) (evs : list Event) (s : Service) :
  run liveDir evs (initialService fs) = Some s ->
  concat (mergeCalls s) ++ pendingChunks s = speechArrivals evs.
Proof.
  intros Hrun. rewrite (run_conserves_chunks evs _ s Hrun). reflexivity.
Qed.

Lemma filter_positive_lookup {A} (p : A -> bool) (l : list A) :
  (0 < length (List.filter p l))%nat ->
  exists i x, l !! i = Some x /\ p x = true.
Proof.
  induction l as [|x l IH]; simpl; [lia|].
  destruct (p x) eqn:Hp.
  - intros _. exists 0%nat, x. auto.
  - intros Hpos. destruct (IH Hpos) as (i & y & Hi & Hy).
    exists (S i), y. auto.
Qed.

Lemma lookup_replaced (l : list Task) (i : nat) (t t' : Task) (more : list Task) :
  l !! i = Some t ->
  (take i l ++ (t' :: more) ++ drop (S i) l) !! i = Some t'.
Proof.
  intros Hi. apply list_lookup_middle.
  rewrite length_take. apply lookup_lt_Some in Hi. lia.
Qed.

(** X14. The flag is never left raised: in every state the service reaches,
    no parked handler means the flag is down, and when the flag is up, at
    most two resumptions of the handler that holds it bring it down,
    whether the merge and the index rebuild resolve or reject. *)
Theorem flag_is_always_released
    (fs : FS) (evs : list Event) (s : Service) :
  run liveDir evs (initialService fs) = Some s ->
  (tasks s = [] -> isProcessing s = false) /\
  (isProcessing s = true ->
     exists resumes s',
       forallb isResume resumes = true /\ (length resumes <= 2)%nat /\
       run liveDir resumes s = Some s' /\ isProcessing s' = false).
Proof.
  intros Hrun.
  assert (Hinv : flagInvariant s).
  { eapply run_invariant; [|exact Hrun]. reflexivity. }
  unfold flagInvariant, flagHolders in Hinv. split.
  - intros Hnone. rewrite Hnone in Hinv. simpl in Hinv.
    destruct (isProcessing s); [discriminate | reflexivity].
  - intros Hup. rewrite Hup in Hinv.
    destruct (filter_positive_lookup holdsFlag (tasks s)) as (i & t & Hi & Ht);
      [lia|].
    destruct t as [chunks by_|by_|chunkFile]; [| |discriminate].
    + destruct (mergeBroadcast chunks liveDir (disk s)) as [[result|e] fs'] eqn:Hm.
      * exists [Resume i; Resume i]. eexists.
        split; [reflexivity|]. split; [simpl; lia|].
        simpl. unfold resume at 1. rewrite Hi, Hm.
        unfold resume. cbn [tasks].
        rewrite (lookup_replaced _ _ _ (AwaitIndex by_) [] Hi).
        split; reflexivity.
      * exists [Resume i]. eexists.
        split; [reflexivity|]. split; [simpl; lia|].
        simpl. unfold resume. rewrite Hi, Hm. split; reflexivity.
    + exists [Resume i]. eexists.
      split; [reflexivity|]. split; [simpl; lia|].
      simpl. unfold resume. rewrite Hi. split; reflexivity.
Qed.

Lemma Forall_replaced {A} (P : A -> Prop) (l : list A) (i : nat)
    (new : list A) :
  Forall P l -> Forall P new -> Forall P (take i l ++ new ++ drop (S i) l).
Proof.
  intros Hl Hnew. apply Forall_app. split; [apply Forall_take, Hl|].
  apply Forall_app. split; [exact Hnew | apply Forall_drop, Hl].
Qed.

Lemma nominal_sum (chunks : list ChunkInfo) :
  nominalChunks chunks ->
  fold_right Z.add 0 (List.map duration chunks)
  = CHUNK_DURATION_SECS * 1000 * Z.of_nat (length chunks).
Proof.
  induction 1 as [|c chunks Hc Hrest IH]; [reflexivity|].
  cbn [List.map fold_right length]. rewrite IH, Hc. lia.
Qed.

Lemma startMerge_history (by_ : Trigger) (s : Service) :
  historyInvariant s -> historyInvariant (startMerge by_ s).
Proof.
  intros (Hq & Hcalls & Htasks & Hprod). unfold historyInvariant. simpl.
  split; [constructor|]. split.
  - apply Forall_app. split; [exact Hcalls | repeat constructor; exact Hq].
  - split.
    + apply Forall_app. split.
      * eapply Forall_impl; [exact Htasks|]. intros [chunks b| |]; simpl; auto.
        intros Hin. apply in_or_app. left. exact Hin.
      * repeat constructor. apply in_or_app. right. left. reflexivity.
    + eapply Forall_impl; [exact Hprod|]. simpl.
      intros b (chunks & Hin & Hb). exists chunks. split; [|exact Hb].
      apply in_or_app. left. exact Hin.
Qed.

Lemma step_history (ev : Event) (s s' : Service) :
  historyInvariant s -> step liveDir ev s = Some s' -> historyInvariant s'.
Proof.
  intros Hinv Hstep.
  destruct ev as [buf chunkFile start|now|i]; simpl in Hstep.
  - injection Hstep as <-. unfold processCompletedChunk.
    destruct (chunkHasSpeech _ _ _).
    + destruct Hinv as (Hq & Hcalls & Htasks & Hprod).
      unfold historyInvariant. simpl. split; [|auto].
      apply Forall_app. split; [exact Hq | repeat constructor].
    + destruct ((0 <? length (pendingChunks s))%nat && negb (isProcessing s));
        [apply startMerge_history, Hinv|].
      destruct Hinv as (Hq & Hcalls & Htasks & Hprod).
      unfold historyInvariant. simpl. split; [exact Hq|].
      split; [exact Hcalls|]. split; [|exact Hprod].
      apply Forall_app. split; [exact Htasks | repeat constructor].
  - injection Hstep as <-. unfold idleFlush.
    destruct ((0 <? length (pendingChunks s))%nat && negb (isProcessing s));
      [|exact Hinv].
    destruct (last (pendingChunks s)); [|exact Hinv].
    destruct (IDLE_THRESHOLD_MS <? _); [apply startMerge_history|]; exact Hinv.
  - destruct Hinv as (Hq & Hcalls & Htasks & Hprod).
    unfold resume in Hstep.
    destruct (tasks s !! i) as [t|] eqn:Hi; [|discriminate].
    assert (Hafter : forall by_,
              Forall (fun t => match t with
                               | AwaitMerge chunks _ => In chunks (mergeCalls s)
                               | _ => True
                               end) (afterMerge by_)).
    { intros [f|]; repeat constructor. }
    destruct t as [chunks by_|by_|chunkFile].
    + assert (Hcall : In chunks (mergeCalls s)).
      { rewrite List.Forall_forall in Htasks.
        apply (Htasks (AwaitMerge chunks by_)).
        apply list_elem_of_In, list_elem_of_lookup. eauto. }
      destruct (mergeBroadcast chunks liveDir (disk s)) as [[result|e] fs'] eqn:Hm;
        injection Hstep as <-; unfold historyInvariant; simpl.
      * split; [exact Hq|]. split; [exact Hcalls|]. split.
        -- apply (Forall_replaced _ _ i [AwaitIndex by_]);
             [exact Htasks | repeat constructor].
        -- apply Forall_app. split; [exact Hprod|].
           destruct chunks as [|firstChunk rest].
           ++ simpl in Hm. unfold io_ret in Hm. injection Hm as <- _.
              constructor.
           ++ destruct (mergeBroadcast_steps firstChunk rest liveDir (disk s))
                as [(e0 & fs0 & Herr & _)|(transcript & _ & Hok)];
                [congruence|].
              rewrite Hok in Hm. apply pair_equal_spec in Hm as [Hres _].
              assert (Hsome : result
                        = Some (broadcastOf (firstChunk :: rest) firstChunk
                                            transcript)) by congruence.
              rewrite Hsome. repeat constructor.
              exists (firstChunk :: rest). split; [exact Hcall|].
              exists firstChunk, rest. split; [reflexivity|].
              split; [|reflexivity].
              unfold broadcastOf. cbn [b_duration].
              rewrite fold_left_sum, Z.add_0_l. apply nominal_sum.
              rewrite List.Forall_forall in Hcalls. apply Hcalls, Hcall.
      * split; [exact Hq|]. split; [exact Hcalls|]. split; [|exact Hprod].
        apply Forall_replaced; [exact Htasks | apply Hafter].
    + injection Hstep as <-; unfold historyInvariant; simpl.
      split; [exact Hq|]. split; [exact Hcalls|]. split; [|exact Hprod].
      apply Forall_replaced; [exact Htasks | apply Hafter].
    + injection Hstep as <-; unfold historyInvariant; simpl.
      split; [exact Hq|]. split; [exact Hcalls|]. split; [|exact Hprod].
      apply (Forall_replaced _ _ i []); [exact Htasks | constructor].
Qed.

Lemma run_history (evs : list Event) (s s' : Service) :
  historyInvariant s -> run liveDir evs s = Some s' -> historyInvariant s'.
Proof.
  revert s. induction evs as [|ev evs IH]; intros s Hinv Hrun; simpl in Hrun.
  - injection Hrun as <-. exact Hinv.
  - destruct (step liveDir ev s) as [s1|] eqn:Hstep; [|discriminate].
    eapply IH; [|exact Hrun]. eapply step_history; eassumption.
Qed.

(** X15. Every broadcast the service produces comes from one of its merge
    calls: it lasts 120 seconds times the number of chunks of that call,
    which is the sum of their nominal durations, and its timestamp is the
    start of the first of these chunks. *)
Theorem produced_broadcasts_last_as_long_as_their_chunks
    (fs : FS) (evs : list Event) (s : Service) :
  run liveDir evs (initialService fs) = Some s ->
  Forall (fun b =>
            exists firstChunk rest,
              In (firstChunk :: rest) (mergeCalls s) /\
              b_duration b = 120 * 1000 * Z.of_nat (length (firstChunk :: rest)) /\
              b_duration b
              = fold_right Z.add 0 (List.map duration (firstChunk :: rest)) /\
              b_timestamp b = toISOString (startTime firstChunk))
         (produced s).
Proof.
  intros Hrun.
  assert (Hinv : historyInvariant s).
  { eapply run_history; [|exact Hrun].
    unfold historyInvariant. simpl. repeat split; constructor. }
  destruct Hinv as (_ & Hcalls & _ & Hprod).
  eapply Forall_impl; [exact Hprod|]. simpl.
  intros b (chunks & Hin & firstChunk & rest & -> & Hdur & Hts).
  exists firstChunk, rest. split; [exact Hin|]. split; [exact Hdur|].
  split; [|exact Hts].
  rewrite Hdur. symmetry.
  apply (nominal_sum (firstChunk :: rest)).
  rewrite List.Forall_forall in Hcalls. apply Hcalls, Hin.
Qed.

End AssemblerHistory.

(** ** Segment completion *)

Lemma string_app_cancel (a x y : string) :
  (a ++ x)%string = (a ++ y)%string -> x = y.
Proof.
  induction a as [|c a IH]; simpl; intros Heq; [exact Heq|].
  injection Heq as Heq. apply IH, Heq.
Qed.

Lemma pathJoin_injective (dir x y : string) :
  pathJoin dir x = pathJoin dir y -> x = y.
Proof.
  unfold pathJoin. intros Heq.
  apply string_app_cancel in Heq. apply (string_app_cancel "/") in Heq.
  exact Heq.
Qed.

Lemma NoDup_pathJoin (dir : string) (names : list string) :
  List.NoDup names -> List.NoDup (List.map (pathJoin dir) names).
Proof.
  induction 1 as [|n names Hn Hnames IH]; simpl; constructor; [|exact IH].
  intros Hin. apply in_map_iff in Hin as (m & Heq & Hm).
  apply pathJoin_injective in Heq. subst m. contradiction.
Qed.

Section SegmentCompletionProperties.
Variable localTime : Z -> Z -> Z -> Z -> Z -> Z -> Z.
Variable chunksDir : string.

(** What one pass of the loop does: the calls it adds are for names of the
    listing, pairwise different, not acknowledged before; afterwards every
    name of the listing is acknowledged, and nothing but the listing is
    added to the set. *)
Lemma acknowledge_pass (prevFiles : list string) (completed : gset string)
    (calls : list (string * Z)) :
  exists names stamps,
    snd (acknowledge localTime chunksDir prevFiles completed calls)
    = calls ++ List.combine (List.map (pathJoin chunksDir) names) stamps /\
    length stamps = length names /\
    List.NoDup names /\
    (forall n, In n names -> In n prevFiles /\ (n ∉ completed)) /\
    (forall n,
       (n ∈ fst (acknowledge localTime chunksDir prevFiles completed calls))
       <-> (n ∈ completed) \/ In n prevFiles).
Proof.
  revert completed calls.
  induction prevFiles as [|prevFile rest IH]; intros completed calls.
  - exists [], []. simpl. rewrite app_nil_r.
    split; [reflexivity|]. split; [reflexivity|]. split; [constructor|].
    split; [intros n []|]. intros n. tauto.
  - cbn [acknowledge]. destruct (decide (prevFile ∈ completed)) as [Hdone|Hnew].
    + destruct (IH completed calls) as (names & stamps & Hcalls & Hlen & Hnd & Hin & Hset).
      exists names, stamps. split; [exact Hcalls|]. split; [exact Hlen|].
      split; [exact Hnd|]. split.
      * intros n Hn. destruct (Hin n Hn). split; [right|]; assumption.
      * intros n. rewrite Hset. simpl. split; [tauto|].
        intros [Hc|[<-|Hr]]; auto.
    + assert (Hskip : forall calls0,
                exists names stamps,
                  snd (acknowledge localTime chunksDir rest
                         ({[prevFile]} ∪ completed) calls0)
                  = calls0 ++ List.combine (List.map (pathJoin chunksDir) names) stamps /\
                  length stamps = length names /\
                  List.NoDup names /\
                  (forall n, In n names ->
                     In n rest /\ (n ∉ completed) /\ n <> prevFile) /\
                  (forall n,
                     (n ∈ fst (acknowledge localTime chunksDir rest
                                 ({[prevFile]} ∪ completed) calls0))
                     <-> (n ∈ completed) \/ In n (prevFile :: rest))).
      { intros calls0.
        destruct (IH ({[prevFile]} ∪ completed) calls0)
          as (names & stamps & Hcalls & Hlen & Hnd & Hin & Hset).
        exists names, stamps. split; [exact Hcalls|]. split; [exact Hlen|].
        split; [exact Hnd|]. split.
        - intros n Hn. destruct (Hin n Hn) as [Hr Hfresh].
          split; [exact Hr|]. split; set_solver.
        - intros n. rewrite Hset. simpl. set_solver. }
      destruct (matchStamp prevFile) as [stamp|].
      * destruct (Hskip (calls ++ [(pathJoin chunksDir prevFile,
                                    stampTime localTime stamp)]))
          as (names & stamps & Hcalls & Hlen & Hnd & Hin & Hset).
        exists (prevFile :: names), (stampTime localTime stamp :: stamps).
        split; [rewrite Hcalls, <- app_assoc; reflexivity|].
        split; [simpl; lia|]. split.
        -- constructor; [|exact Hnd]. intros Hn. destruct (Hin _ Hn) as (_ & _ & Hne).
           congruence.
        -- split; [|exact Hset].
           intros n [<-|Hn]; [split; [left; reflexivity | exact Hnew]|].
           destruct (Hin n Hn) as (Hr & Hfresh & _). split; [right|]; assumption.
      * destruct (Hskip calls)
          as (names & stamps & Hcalls & Hlen & Hnd & Hin & Hset).
        exists names, stamps. split; [exact Hcalls|]. split; [exact Hlen|].
        split; [exact Hnd|]. split; [|exact Hset].
        intros n Hn. destruct (Hin n Hn) as (Hr & Hfresh & _).
        split; [right|]; assumption.
Qed.

Lemma map_fst_combine {A B} (l : list A) (k : list B) :
  length k = length l -> List.map fst (List.combine l k) = l.
Proof.
  revert k. induction l as [|x l IH]; intros [|y k] Hlen; simpl in *;
    try reflexivity; try discriminate.
  f_equal. apply IH. lia.
Qed.

(** One piece of output: the names it hands on are new, pairwise different,
    acknowledged afterwards, and the set only grows. *)
Lemma onStderr_names (fs : FS) (now : Z) (line : string) (sc sc' : Scanner)
    (calls : list (string * Z)) :
  onStderr localTime chunksDir fs now line sc = Some (sc', calls) ->
  exists names,
    List.map fst calls = List.map (pathJoin chunksDir) names /\
    List.NoDup names /\
    (forall n, In n names ->
       (n ∉ completedSegments sc) /\ (n ∈ completedSegments sc')) /\
    completedSegments sc ⊆ completedSegments sc'.
Proof.
  unfold onStderr. intros Hon.
  assert (Hnothing : forall now',
            exists names : list string,
              List.map fst (@nil (string * Z)) = List.map (pathJoin chunksDir) names /\
              List.NoDup names /\
              (forall n, In n names ->
                 (n ∉ completedSegments sc) /\
                 (n ∈ completedSegments
                        {| completedSegments := completedSegments sc;
                           currentSegmentStart := now' |})) /\
              completedSegments sc
              ⊆ completedSegments {| completedSegments := completedSegments sc;
                                     currentSegmentStart := now' |}).
  { intros now'. exists []. simpl. split; [reflexivity|].
    split; [constructor|]. split; [intros n []|]. set_solver. }
  destruct (matchOpening line) as [newFile|].
  - destruct (currentSegmentStart sc) as [started|].
    + destruct (decide (basename newFile ∈ completedSegments sc))
        as [Hopened|Hunseen].
      * injection Hon as <- <-. apply Hnothing.
      * destruct (readdir chunksDir fs) as [[entries|e] fs0]; [|discriminate].
        set (prevFiles := sortBy codeUnitCompare
                            (List.filter (isOtherChunk (basename newFile))
                                         (List.map d_name entries))) in *.
        destruct (acknowledge_pass prevFiles (completedSegments sc) [])
          as (names & stamps & Hcalls & Hlen & Hnd & Hin & Hset).
        destruct (acknowledge localTime chunksDir prevFiles
                    (completedSegments sc) []) as [completed calls0].
        cbn [fst snd] in *. injection Hon as <- <-. subst calls0.
        exists names. cbn [app completedSegments].
        split; [apply map_fst_combine; rewrite length_map; exact Hlen|].
        split; [exact Hnd|]. split.
        -- intros n Hn. destruct (Hin n Hn) as [Hprev Hfresh].
           split; [exact Hfresh|]. apply Hset. right. exact Hprev.
        -- intros n Hn. apply Hset. left. exact Hn.
    + injection Hon as <- <-. apply Hnothing.
  - injection Hon as <- <-. destruct sc. apply (Hnothing _).
Qed.

Lemma scan_names (outputs : list (FS * Z * string)) (sc sc' : Scanner)
    (calls : list (string * Z)) :
  scan localTime chunksDir outputs sc = Some (sc', calls) ->
  exists names,
    List.map fst calls = List.map (pathJoin chunksDir) names /\
    List.NoDup names /\
    (forall n, In n names ->
       (n ∉ completedSegments sc) /\ (n ∈ completedSegments sc')) /\
    completedSegments sc ⊆ completedSegments sc'.
Proof.
  revert sc sc' calls.
  induction outputs as [|[[fs now] line] rest IH]; intros sc sc' calls Hscan;
    simpl in Hscan.
  - injection Hscan as <- <-. exists []. simpl.
    split; [reflexivity|]. split; [constructor|]. split; [intros n []|].
    set_solver.
  - destruct (onStderr localTime chunksDir fs now line sc)
      as [[sc1 calls1]|] eqn:Hon; [|discriminate].
    destruct (scan localTime chunksDir rest sc1) as [[sc2 calls2]|] eqn:Hrest;
      [|discriminate].
    injection Hscan as <- <-.
    destruct (onStderr_names _ _ _ _ _ _ Hon)
      as (names1 & Hc1 & Hnd1 & Hin1 & Hsub1).
    destruct (IH _ _ _ Hrest) as (names2 & Hc2 & Hnd2 & Hin2 & Hsub2).
    exists (names1 ++ names2).
    split; [rewrite !List.map_app, Hc1, Hc2; reflexivity|]. split.
    + apply List.NoDup_app; [exact Hnd1 | exact Hnd2 |].
      intros n Hn1 Hn2. destruct (Hin1 n Hn1) as [_ Hdone].
      destruct (Hin2 n Hn2) as [Hfresh _]. contradiction.
    + split; [|set_solver].
      intros n Hn. apply in_app_or in Hn as [Hn|Hn].
      * destruct (Hin1 n Hn). split; [assumption | set_solver].
      * destruct (Hin2 n Hn). split; [set_solver | assumption].
Qed.

(** X16. However the pieces of ffmpeg output arrive and whatever the chunk
    directory holds at each of them, no chunk file is handed to
    [processCompletedChunk] twice: the paths of the calls are pairwise
    different, and each of them is acknowledged in [completedSegments]. *)
Theorem chunk_files_are_processed_at_most_once
    (outputs : list (FS * Z * string)) (sc : Scanner)
    (calls : list (string * Z)) :
  scan localTime chunksDir outputs initialScanner = Some (sc, calls) ->
  List.NoDup (List.map fst calls) /\
  Forall (fun call => exists name,
            fst call = pathJoin chunksDir name /\
            (name ∈ completedSegments sc)) calls.
Proof.
  intros Hscan.
  destruct (scan_names _ _ _ _ Hscan) as (names & Hc & Hnd & Hin & _).
  split.
  - rewrite Hc. apply NoDup_pathJoin, Hnd.
  - rewrite List.Forall_forall. intros call Hcall.
    assert (Hfst : In (fst call) (List.map (pathJoin chunksDir) names)).
    { rewrite <- Hc. apply in_map, Hcall. }
    apply in_map_iff in Hfst as (name & Heq & Hname).
    exists name. split; [symmetry; exact Heq|]. apply Hin, Hname.
Qed.

End SegmentCompletionProperties.

Section SegmentOpening.
Variable localTime : Z -> Z -> Z -> Z -> Z -> Z -> Z.
Variable chunksDir : string.

Lemma acknowledge_processes (prevFiles : list string) (completed : gset string)
    (calls : list (string * Z)) (f : string) (stamp : ChunkStamp) :
  In f prevFiles -> f ∉ completed -> matchStamp f = Some stamp ->
  In (pathJoin chunksDir f, stampTime localTime stamp)
     (snd (acknowledge localTime chunksDir prevFiles completed calls)).
Proof.
  revert completed calls.
  induction prevFiles as [|prevFile rest IH]; intros completed calls Hin Hnew Hst;
    [destruct Hin|].
  cbn [acknowledge].
  destruct (decide (prevFile = f)) as [->|Hne].
  - destruct (decide (f ∈ completed)) as [Hdone|_]; [contradiction|].
    rewrite Hst.
    destruct (acknowledge_pass localTime chunksDir rest ({[f]} ∪ completed)
                (calls ++ [(pathJoin chunksDir f, stampTime localTime stamp)]))
      as (names & stamps & Hcalls & _).
    rewrite Hcalls. apply in_or_app. left. apply in_or_app. right.
    left. reflexivity.
  - destruct Hin as [Heq|Hin]; [contradiction|].
    destruct (decide (prevFile ∈ completed)); [apply IH; assumption|].
    assert (Hnew' : f ∉ {[prevFile]} ∪ completed) by set_solver.
    destruct (matchStamp prevFile); apply IH; assumption.
Qed.

(** X17. On a line that announces the opening of a segment: if it is the
    first such line since the start of the service, nothing is processed;
    otherwise, when the opened name was not acknowledged before, every
    [chunk-*.mp3] name of the directory other than the opened one is
    acknowledged, each one that carries a timestamp and was not acknowledged
    before is handed to [processCompletedChunk] with the instant its name
    spells, and the segment being opened is not handed on. *)
Theorem opening_completes_the_other_chunks
    (fs : FS) (now : Z) (line : string) (sc : Scanner) (newFile : string) :
  matchOpening line = Some newFile ->
  (currentSegmentStart sc = None ->
     onStderr localTime chunksDir fs now line sc
     = Some ({| completedSegments := completedSegments sc;
                currentSegmentStart := Some now |}, [])) /\
  (forall started entries,
     currentSegmentStart sc = Some started ->
     basename newFile ∉ completedSegments sc ->
     readdir chunksDir fs = (Ok entries, fs) ->
     exists sc' calls,
       onStderr localTime chunksDir fs now line sc = Some (sc', calls) /\
       currentSegmentStart sc' = Some now /\
       (forall f, (f ∈ completedSegments sc') <->
          (f ∈ completedSegments sc) \/
          (In f (List.map d_name entries) /\
           isOtherChunk (basename newFile) f = true)) /\
       (forall f stamp,
          In f (List.map d_name entries) ->
          isOtherChunk (basename newFile) f = true ->
          f ∉ completedSegments sc -> matchStamp f = Some stamp ->
          In (pathJoin chunksDir f, stampTime localTime stamp) calls) /\
       ~ In (pathJoin chunksDir (basename newFile)) (List.map fst calls)).
Proof.
  intros Hopen. unfold onStderr. rewrite Hopen. split.
  - intros ->. reflexivity.
  - intros started entries -> Hunseen Hdir.
    destruct (decide (basename newFile ∈ completedSegments sc));
      [contradiction|].
    rewrite Hdir.
    set (prevFiles := sortBy codeUnitCompare
                        (List.filter (isOtherChunk (basename newFile))
                                     (List.map d_name entries))).
    assert (Hprev : forall f, In f prevFiles <->
              In f (List.map d_name entries) /\
              isOtherChunk (basename newFile) f = true).
    { intros f. unfold prevFiles. rewrite <- filter_In. split; intros Hf.
      - eapply Permutation_in; [apply sortBy_perm | exact Hf].
      - eapply Permutation_in; [symmetry; apply sortBy_perm | exact Hf]. }
    destruct (acknowledge_pass localTime chunksDir prevFiles
                (completedSegments sc) [])
      as (names & stamps & Hcalls & Hlen & Hnd & Hin & Hset).
    pose proof (fun f stamp => acknowledge_processes prevFiles
                  (completedSegments sc) [] f stamp) as Hproc.
    destruct (acknowledge localTime chunksDir prevFiles
                (completedSegments sc) []) as [completed calls0].
    cbn [fst snd app] in *. subst calls0.
    eexists _, _. split; [reflexivity|]. split; [reflexivity|].
    cbn [completedSegments]. split; [|split].
    + intros f. rewrite Hset, Hprev. reflexivity.
    + intros f stamp Hf Hother Hnew Hst. apply Hproc; [|assumption..].
      apply Hprev. split; assumption.
    + rewrite map_fst_combine by (rewrite length_map; exact Hlen).
      intros Hself. apply in_map_iff in Hself as (name & Heq & Hname).
      apply pathJoin_injective in Heq. subst name.
      destruct (Hin _ Hname) as [Hp _]. apply Hprev in Hp as [_ Hother].
      unfold isOtherChunk in Hother. rewrite String.eqb_refl in Hother.
      rewrite andb_false_r in Hother. discriminate.
Qed.

End SegmentOpening.

(** *** Chunk names *)

Lemma padded_snoc (w : nat) (n : Z) :
  list_ascii_of_string (padded (S w) n)
  = list_ascii_of_string (padded w (n / 10))
    ++ [ascii_of_N (Z.to_N (48 + n mod 10))].
Proof.
  cbn [padded]. rewrite list_ascii_of_string_app. reflexivity.
Qed.

Lemma digit_char (n : Z) :
  N_of_ascii (ascii_of_N (Z.to_N (48 + n mod 10))) = Z.to_N (48 + n mod 10).
Proof.
  apply N_ascii_embedding.
  pose proof (Z.mod_pos_bound n 10 ltac:(lia)). lia.
Qed.

Lemma padded_digits (w : nat) (n : Z) :
  length (list_ascii_of_string (padded w n)) = w /\
  forallb isDigit (list_ascii_of_string (padded w n)) = true /\
  parseDigits (list_ascii_of_string (padded w n)) = n mod 10 ^ Z.of_nat w.
Proof.
  revert n. induction w as [|w IH]; intros n.
  - simpl. rewrite Z.mod_1_r. auto.
  - rewrite padded_snoc. destruct (IH (n / 10)) as (Hlen & Hdig & Hval).
    pose proof (Z.mod_pos_bound n 10 ltac:(lia)) as Hd.
    split; [rewrite length_app, Hlen; simpl; lia|]. split.
    + rewrite forallb_app, Hdig. simpl. unfold isDigit. rewrite digit_char.
      rewrite andb_true_r. apply andb_true_intro. split; apply N.leb_le; lia.
    + unfold parseDigits in *. rewrite fold_left_app. cbn [fold_left].
      rewrite Hval, digit_char. rewrite Z2N.id by lia.
      rewrite Nat2Z.inj_succ, Z.pow_succ_r by lia.
      rewrite (Z.rem_mul_r n 10 (10 ^ Z.of_nat w)) by lia. lia.
Qed.

Lemma digitsGroup_run (ds cs group : list ascii) (k : nat) :
  forallb isDigit ds = true ->
  digitsGroup (length ds + k) (ds ++ cs) group
  = digitsGroup k cs (rev ds ++ group).
Proof.
  revert group. induction ds as [|d ds IH]; intros group Hds; [reflexivity|].
  simpl in Hds. apply andb_prop in Hds as [Hd Hds].
  cbn [length Nat.add app digitsGroup]. rewrite Hd.
  rewrite IH by exact Hds. simpl. rewrite <- app_assoc. reflexivity.
Qed.

Lemma digitsGroup_padded (w : nat) (n : Z) (cs : list ascii) :
  0 <= n < 10 ^ Z.of_nat w ->
  digitsGroup w (list_ascii_of_string (padded w n) ++ cs) [] = Some (n, cs).
Proof.
  intros Hn. destruct (padded_digits w n) as (Hlen & Hdig & Hval).
  pose proof (digitsGroup_run (list_ascii_of_string (padded w n)) cs [] 0 Hdig)
    as Hrun.
  rewrite Hlen, Nat.add_0_r in Hrun. rewrite Hrun. cbn [digitsGroup].
  rewrite app_nil_r, rev_involutive, Hval.
  rewrite Z.mod_small by exact Hn. reflexivity.
Qed.

Lemma afterLiteral_app (pre rest : list ascii) :
  afterLiteral pre (pre ++ rest) = Some rest.
Proof.
  induction pre as [|p pre IH]; [destruct rest; reflexivity|].
  cbn [app afterLiteral]. rewrite Ascii.eqb_refl. exact IH.
Qed.

(** X18. The name ffmpeg gives a segment from the pattern
    [chunk-%Y%m%d-%H%M%S.mp3] is read back as the numbers it was made from:
    for a year of four digits and two-digit month, day, hours, minutes and
    seconds, matching the name returns exactly these six numbers. *)
Theorem chunk_name_reads_back (stamp : ChunkStamp) :
  0 <= cs_year stamp < 10000 ->
  0 <= cs_month stamp < 100 -> 0 <= cs_day stamp < 100 ->
  0 <= cs_hours stamp < 100 -> 0 <= cs_minutes stamp < 100 ->
  0 <= cs_seconds stamp < 100 ->
  matchStamp (chunkName stamp) = Some stamp.
Proof.
  intros Hy Hmo Hd Hh Hmi Hs. unfold matchStamp, chunkName.
  rewrite !list_ascii_of_string_app.
  set (tail := list_ascii_of_string ".mp3").
  assert (Hat : stampAt
            (list_ascii_of_string "chunk-" ++
             list_ascii_of_string (padded 4 (cs_year stamp)) ++
             list_ascii_of_string (padded 2 (cs_month stamp)) ++
             list_ascii_of_string (padded 2 (cs_day stamp)) ++
             list_ascii_of_string "-" ++
             list_ascii_of_string (padded 2 (cs_hours stamp)) ++
             list_ascii_of_string (padded 2 (cs_minutes stamp)) ++
             list_ascii_of_string (padded 2 (cs_seconds stamp)) ++ tail)
          = Some stamp).
  { unfold stampAt.
    rewrite afterLiteral_app.
    rewrite (digitsGroup_padded 4) by (change (10 ^ Z.of_nat 4) with 10000; lia).
    rewrite (digitsGroup_padded 2) by (change (10 ^ Z.of_nat 2) with 100; lia).
    rewrite (digitsGroup_padded 2) by (change (10 ^ Z.of_nat 2) with 100; lia).
    rewrite afterLiteral_app.
    rewrite (digitsGroup_padded 2) by (change (10 ^ Z.of_nat 2) with 100; lia).
    rewrite (digitsGroup_padded 2) by (change (10 ^ Z.of_nat 2) with 100; lia).
    rewrite (digitsGroup_padded 2) by (change (10 ^ Z.of_nat 2) with 100; lia).
    destruct stamp. reflexivity. }
  destruct (list_ascii_of_string "chunk-" ++ _) eqn:Hcs in Hat |- *;
    cbn [matchStampFrom]; rewrite Hat; reflexivity.
Qed.

(** *** A merge followed by a rebuild of the index *)

Lemma afterSlashRev_skip (l rest : list ascii) :
  forallb (fun c => negb (Ascii.eqb c slash)) l = true ->
  afterSlashRev (l ++ slash :: rest) = l.
Proof.
  induction l as [|c l IH]; cbn [afterSlashRev app forallb].
  - intros _. rewrite Ascii.eqb_refl. reflexivity.
  - intros Hl. apply andb_prop in Hl as [Hc Hl].
    destruct (Ascii.eqb c slash); [discriminate|]. rewrite (IH Hl).
    reflexivity.
Qed.

Lemma basename_pathJoin (dir name : string) :
  forallb (fun c => negb (Ascii.eqb c slash)) (list_ascii_of_string name) = true ->
  basename (pathJoin dir name) = name.
Proof.
  intros Hname. unfold basename, pathJoin.
  rewrite list_ascii_of_string_app. simpl.
  rewrite rev_app_distr. simpl. rewrite <- app_assoc. simpl.
  rewrite afterSlashRev_skip.
  - rewrite rev_involutive. apply string_of_list_ascii_of_string.
  - rewrite forallb_forall in *. intros c Hc. apply Hname.
    apply in_rev. exact Hc.
Qed.

Lemma pathJoin_longer (dir name : string) :
  (String.length dir < String.length (pathJoin dir name))%nat.
Proof.
  unfold pathJoin. rewrite string_length_app. simpl. lia.
Qed.

Lemma prefixesAtSlash_self (seen cs : list ascii) :
  In (string_of_list_ascii (rev seen ++ cs)) (prefixesAtSlash seen cs).
Proof.
  revert seen. induction cs as [|c cs IH]; intros seen.
  - cbn [prefixesAtSlash]. rewrite app_nil_r. left. reflexivity.
  - cbn [prefixesAtSlash]. apply in_or_app. right.
    specialize (IH (c :: seen)). cbn [rev] in IH.
    rewrite <- app_assoc in IH. exact IH.
Qed.

Lemma insertDirs_member (dirs : list string) (fs : FS) (q : string) :
  In q dirs \/ fs !! q = Some Dir ->
  fold_left (fun acc d => <[d := Dir]> acc) dirs fs !! q = Some Dir.
Proof.
  revert fs. induction dirs as [|d dirs IH]; intros fs Hq.
  - destruct Hq as [[]|Hq]. exact Hq.
  - cbn [fold_left]. apply IH.
    destruct (decide (d = q)) as [->|Hne].
    + right. apply lookup_insert_eq.
    + destruct Hq as [[Heq|Hin]|Hq]; [contradiction | left; exact Hin |].
      right. rewrite lookup_insert_ne by exact Hne. exact Hq.
Qed.

Lemma writeFile_keeps_dirs (p : string) (data : list Byte.byte) (fs : FS)
    (q : string) :
  fs !! q = Some Dir -> snd (writeFile p data fs) !! q = Some Dir.
Proof.
  intros Hq. unfold writeFile. destruct (isDir fs p) eqn:Hp; [exact Hq|].
  destruct (parentExists fs p); [|exact Hq]. cbn [snd].
  rewrite lookup_insert_ne; [exact Hq|].
  intros ->. unfold isDir in Hp. rewrite Hq in Hp. discriminate.
Qed.

Lemma unlink_keeps_dirs (p : string) (fs : FS) (q : string) :
  fs !! q = Some Dir -> snd (unlink p fs) !! q = Some Dir.
Proof.
  intros Hq. unfold unlink.
  destruct (fs !! p) as [[data|]|] eqn:Hp; cbn [snd]; try exact Hq.
  rewrite lookup_delete_ne; [exact Hq|]. intros ->. congruence.
Qed.

Lemma unlinkChunks_keeps_dirs (chunks : list ChunkInfo) (fs : FS)
    (q : string) :
  fs !! q = Some Dir -> snd (unlinkChunks chunks fs) !! q = Some Dir.
Proof.
  revert fs. induction chunks as [|c rest IH]; intros fs Hq; [exact Hq|].
  cbn [unlinkChunks]. unfold io_bind, swallow at 1.
  apply IH, unlink_keeps_dirs, Hq.
Qed.

Section MergeThenIndex.
Context `{Platform}.

Lemma mergeAudioFiles_keeps_dirs (inputPaths : list string)
    (outputPath : string) (fs : FS) (q : string) :
  fs !! q = Some Dir ->
  snd (mergeAudioFiles inputPaths outputPath fs) !! q = Some Dir.
Proof.
  intros Hq. unfold mergeAudioFiles.
  destruct inputPaths as [|p1 [|p2 rest]].
  - exact Hq.
  - unfold copyFile, io_bind, readFile.
    destruct (fs !! p1) as [[data|]|]; try exact Hq.
    apply writeFile_keeps_dirs, Hq.
  - unfold io_bind.
    pose proof (writeFile_keeps_dirs (outputPath ++ ".txt")
                  (list_byte_of_string (listContent (p1 :: p2 :: rest)))
                  fs q Hq) as Hw.
    destruct (writeFile (outputPath ++ ".txt") _ fs) as [[[]|e] fs1];
      cbn [snd] in Hw; [|exact Hw].
    assert (Hrun : snd (runFfmpegConcat (outputPath ++ ".txt") outputPath fs1)
                     !! q = Some Dir).
    { unfold runFfmpegConcat.
      destruct (ffmpegConcat fs1 (outputPath ++ ".txt") outputPath)
        as [exit written].
      assert (Hfs : match written with
                    | Some data => snd (writeFile outputPath data fs1)
                    | None => fs1
                    end !! q = Some Dir).
      { destruct written as [data|];
          [apply writeFile_keeps_dirs, Hw | exact Hw]. }
      destruct exit as [[|code|code]| |]; exact Hfs. }
    destruct (runFfmpegConcat (outputPath ++ ".txt") outputPath fs1)
      as [[[]|e] fs2]; cbn [snd] in Hrun |- *; unfold swallow; cbn [snd];
      apply unlink_keeps_dirs, Hrun.
Qed.

(** X19. The two steps of the [try] block, one after the other: when the
    merge of a non-empty chunk list resolves in a live directory that
    exists, the text of the record it wrote is valid JSON, and every record
    file of the directory that is valid JSON holds a record with a timestamp
    of the ISO shape, the rebuild of the index that follows resolves and its
    manifest lists what the new record parses to. The identifier holds no
    slash, no chunk sits at the path of the record, and no directory sits at
    the path of the index. *)
Theorem merged_broadcast_enters_the_index
    (firstChunk : ChunkInfo) (rest : list ChunkInfo) (liveDir : string)
    (fs fs' : FS) (b : LiveBroadcast) (readBack : json) :
  let chunks := firstChunk :: rest in
  let id := replaceColonDot (toISOString (startTime firstChunk)) in
  mergeBroadcast chunks liveDir fs = (Ok (Some b), fs') ->
  fs !! liveDir = Some Dir ->
  forallb (fun c => negb (Ascii.eqb c slash)) (list_ascii_of_string id) = true ->
  ~ In (pathJoin (pathJoin liveDir id) "broadcast.json") (List.map file chunks) ->
  isDir fs' (indexPathOf liveDir) = false ->
  jsonParse (stringifyBroadcast b) = Some readBack ->
  Forall (fun v => isBroadcastRecord v = true) (parsableRecords liveDir fs') ->
  exists manifest : list json,
    updateLiveIndex liveDir fs'
    = (Ok tt, <[indexPathOf liveDir := File (stringifyIndex manifest)]> fs') /\
    In readBack manifest /\
    StronglySorted descending manifest.
Proof.
  intros chunks id Hmerge Hlive Hid Hfresh Hindex Hjson Hrecords.
  set (broadcastDir := pathJoin liveDir id).
  set (jsonFile := pathJoin broadcastDir "broadcast.json").
  assert (Hmade : forall q, q = liveDir \/ q = broadcastDir ->
            snd (mkdirRecursive broadcastDir fs) !! q = Some Dir).
  { intros q Hq.
    assert (Hok : fst (mkdirRecursive broadcastDir fs) = Ok tt).
    { unfold mergeBroadcast in Hmerge. cbn [chunks] in Hmerge.
      fold id broadcastDir in Hmerge. unfold io_bind at 1 in Hmerge.
      destruct (mkdirRecursive broadcastDir fs) as [[[]|e] fs1];
        [reflexivity | discriminate]. }
    unfold mkdirRecursive in Hok |- *.
    destruct (existsb (isFile fs) (ancestorsAndSelf broadcastDir));
      [discriminate|].
    cbn [snd]. apply insertDirs_member. destruct Hq as [->| ->].
    - right. exact Hlive.
    - left. unfold ancestorsAndSelf.
      pose proof (prefixesAtSlash_self [] (list_ascii_of_string broadcastDir))
        as Hself.
      cbn [rev app] in Hself.
      rewrite string_of_list_ascii_of_string in Hself. exact Hself. }
  destruct (mergeBroadcast_steps firstChunk rest liveDir fs)
    as [(e & fs0 & Herr & _)|(transcript & _ & Hok)];
    [fold chunks in Herr; congruence|].
  fold chunks id broadcastDir jsonFile in Hok. rewrite Hok in Hmerge.
  apply pair_equal_spec in Hmerge as [Hres Hfs].
  assert (Hb : b = broadcastOf chunks firstChunk transcript) by congruence.
  clear Hres.
  assert (Hdirs : forall q, q = liveDir \/ q = broadcastDir ->
            fs' !! q = Some Dir).
  { intros q Hq. rewrite <- Hfs. apply unlinkChunks_keeps_dirs.
    rewrite lookup_insert_ne.
    - apply mergeAudioFiles_keeps_dirs, Hmade, Hq.
    - intros Heq. apply (f_equal String.length) in Heq.
      pose proof (pathJoin_longer broadcastDir "broadcast.json") as Hlong.
      pose proof (pathJoin_longer liveDir id) as Hlong'.
      fold jsonFile in Hlong. fold broadcastDir in Hlong'.
      destruct Hq as [->| ->]; lia. }
  assert (Hrecord : fs' !! jsonFile = Some (File (stringifyBroadcast b))).
  { rewrite <- Hfs, Hb. rewrite unlinkChunks_frame by exact Hfresh.
    apply lookup_insert_eq. }
  clear Hfs Hok.
  exists (sortBy byTimestampDescending (parsableRecords liveDir fs')).
  split; [|split].
  - apply updateLiveIndex_sorts_records;
      [apply Hdirs; left; reflexivity | exact Hindex | exact Hrecords].
  - eapply Permutation_in; [symmetry; apply sortBy_perm|].
    unfold parsableRecords, readdir.
    rewrite (Hdirs liveDir) by (left; reflexivity).
    apply list_elem_of_In, list_elem_of_omap.
    exists {| d_name := id; d_isDirectory := true |}. split.
    + apply list_elem_of_In, in_map_iff. exists (broadcastDir, Dir).
      cbn [fst snd]. split.
      * unfold broadcastDir. rewrite basename_pathJoin by exact Hid.
        reflexivity.
      * apply filter_In. split.
        -- apply list_elem_of_In, elem_of_map_to_list, Hdirs. right.
           reflexivity.
        -- cbn [fst]. unfold broadcastDir.
           rewrite dirname_pathJoin by exact Hid. apply String.eqb_refl.
    + unfold parsableRecord. cbn [d_isDirectory d_name].
      fold broadcastDir jsonFile. rewrite Hrecord. exact Hjson.
  - apply sortBy_sorted, Hrecords.
Qed.

End MergeThenIndex.

(** *** The archive scraper *)

Lemma keepEpisode_invariant (acc : list APIEpisode * gset Z)
    (ep : APIEpisode) :
  let acc' := keepEpisode acc ep in
  (forall n, n ∈ snd acc <-> In n (List.map ep_id (fst acc))) ->
  List.NoDup (List.map ep_id (fst acc)) ->
  (forall n, n ∈ snd acc' <-> In n (List.map ep_id (fst acc'))) /\
  List.NoDup (List.map ep_id (fst acc')) /\
  (exists more, fst acc' = fst acc ++ more /\
                Forall (fun e => e = ep /\ hasAudio e = true) more) /\
  (hasAudio ep = true -> In (ep_id ep) (List.map ep_id (fst acc'))).
Proof.
  destruct acc as [allEpisodes seenIds]. cbn [fst snd keepEpisode].
  intros Hseen Hnd.
  destruct (hasAudio ep) eqn:Haudio; cbn [andb].
  - destruct (decide (ep_id ep ∈ seenIds)) as [Hin|Hnew].
    + rewrite bool_decide_eq_false_2 by tauto. cbn [fst snd].
      split; [exact Hseen|]. split; [exact Hnd|]. split.
      * exists []. split; [symmetry; apply app_nil_r | constructor].
      * intros _. apply Hseen, Hin.
    + rewrite bool_decide_eq_true_2 by exact Hnew. cbn [fst snd].
      rewrite List.map_app. cbn [List.map]. split; [|split; [|split]].
      * intros n. rewrite in_app_iff, <- Hseen. cbn [In].
        rewrite elem_of_union, elem_of_singleton. intuition congruence.
      * apply List.NoDup_app; [exact Hnd | repeat constructor; intros [] |].
        intros n Hn [<-|[]]. apply Hnew, Hseen, Hn.
      * exists [ep]. split; [reflexivity|]. repeat constructor. exact Haudio.
      * intros _. apply in_or_app. right. left. reflexivity.
  - cbn [fst snd]. split; [exact Hseen|]. split; [exact Hnd|]. split.
    + exists []. split; [symmetry; apply app_nil_r | constructor].
    + discriminate.
Qed.

Lemma keepReached_invariant (episodes : list APIEpisode)
    (acc : list APIEpisode * gset Z) :
  (forall n, n ∈ snd acc <-> In n (List.map ep_id (fst acc))) ->
  List.NoDup (List.map ep_id (fst acc)) ->
  keptRight episodes acc (fold_left keepEpisode episodes acc).
Proof.
  revert acc. induction episodes as [|ep rest IH]; intros acc Hseen Hnd.
  - cbn [fold_left]. split; [exact Hseen|]. split; [exact Hnd|]. split.
    + exists []. split; [symmetry; apply app_nil_r | constructor].
    + intros e [].
  - cbn [fold_left].
    destruct (keepEpisode_invariant acc ep Hseen Hnd)
      as (Hseen1 & Hnd1 & (more1 & Hfst1 & Hmore1) & Hkept1).
    destruct (IH (keepEpisode acc ep) Hseen1 Hnd1)
      as (Hseen2 & Hnd2 & (more2 & Hfst2 & Hmore2) & Hkept2).
    split; [exact Hseen2|]. split; [exact Hnd2|]. split.
    + exists (more1 ++ more2). split.
      * rewrite Hfst2, Hfst1, <- app_assoc. reflexivity.
      * apply Forall_app. split.
        -- eapply Forall_impl; [exact Hmore1|]. cbn beta.
           intros e [-> Ha]. split; [left; reflexivity | exact Ha].
        -- eapply Forall_impl; [exact Hmore2|]. cbn beta.
           intros e [Hin Ha]. split; [right; exact Hin | exact Ha].
    + intros e [<-|Hin] Ha.
      * rewrite Hfst2, List.map_app. apply in_or_app. left.
        apply Hkept1, Ha.
      * apply Hkept2; assumption.
Qed.

Lemma keepEpisodes_reached (elements : list Element)
    (acc : list APIEpisode * gset Z) :
  keepEpisodes elements acc = fold_left keepEpisode (reached elements) acc.
Proof.
  revert acc. induction elements as [|[ep| |] rest IH]; intros acc;
    cbn [keepEpisodes reached fold_left]; [reflexivity | apply IH.. |];
    reflexivity.
Qed.

Lemma reached_until_null (front back : list Element) :
  reached (front ++ NullEntry :: back) = reached front.
Proof.
  induction front as [|[ep| |] front IH]; cbn [app reached];
    [reflexivity | f_equal; exact IH | exact IH | reflexivity].
Qed.

Lemma fetchEndpoints_invariant (responses : list (option (list Element)))
    (acc : list APIEpisode * gset Z) :
  (forall n, n ∈ snd acc <-> In n (List.map ep_id (fst acc))) ->
  List.NoDup (List.map ep_id (fst acc)) ->
  keptRight (concat (List.map reached (omap id responses))) acc
            (fold_left fetchEndpoint responses acc).
Proof.
  revert acc. induction responses as [|response rest IH]; intros acc Hseen Hnd.
  - cbn [fold_left]. split; [exact Hseen|]. split; [exact Hnd|]. split.
    + exists []. split; [symmetry; apply app_nil_r | constructor].
    + intros e [].
  - cbn [fold_left]. destruct response as [elements|].
    + cbn [fetchEndpoint omap list_omap id List.map concat].
      rewrite keepEpisodes_reached.
      destruct (keepReached_invariant (reached elements) acc Hseen Hnd)
        as (Hseen1 & Hnd1 & (more1 & Hfst1 & Hmore1) & Hkept1).
      destruct (IH (fold_left keepEpisode (reached elements) acc) Hseen1 Hnd1)
        as (Hseen2 & Hnd2 & (more2 & Hfst2 & Hmore2) & Hkept2).
      split; [exact Hseen2|]. split; [exact Hnd2|]. split.
      * exists (more1 ++ more2). split.
        -- rewrite Hfst2, Hfst1, <- app_assoc. reflexivity.
        -- apply Forall_app. split.
           ++ eapply Forall_impl; [exact Hmore1|]. cbn beta.
              intros e [Hin Ha]. split; [|exact Ha].
              apply in_or_app. left. exact Hin.
           ++ eapply Forall_impl; [exact Hmore2|]. cbn beta.
              intros e [Hin Ha]. split; [|exact Ha].
              apply in_or_app. right. exact Hin.
      * intros e Hin Ha. apply in_app_or in Hin as [Hin|Hin].
        -- rewrite Hfst2, List.map_app. apply in_or_app. left.
           apply Hkept1; assumption.
        -- apply Hkept2; assumption.
    + cbn [fetchEndpoint omap list_omap]. apply IH; assumption.
Qed.

(** X20. [fetchEpisodes] over any answers of the endpoints, failed ones and
    ones with a [null] element included. An answer counts up to its first
    [null]: the elements after it are dropped, as the [catch] ends the loop
    there. Of what is reached, no identifier is returned twice; every
    episode returned has audio and was reached in an answer; and every
    episode with audio that was reached has its identifier among those
    returned. *)
Theorem fetchEpisodes_keeps_one_episode_per_id
    (responses : list (option (list Element))) :
  let listed := concat (List.map reached (omap id responses)) in
  List.NoDup (List.map ep_id (fetchEpisodes responses)) /\
  (forall e, In e (fetchEpisodes responses) ->
             In e listed /\ hasAudio e = true) /\
  (forall e, In e listed -> hasAudio e = true ->
             In (ep_id e) (List.map ep_id (fetchEpisodes responses))) /\
  (forall earlier later front back,
     responses = earlier ++ Some (front ++ NullEntry :: back) :: later ->
     fetchEpisodes responses
     = fetchEpisodes (earlier ++ Some front :: later)).
Proof.
  intros listed. unfold fetchEpisodes.
  destruct (fetchEndpoints_invariant responses ([], ∅))
    as (_ & Hnd & (more & Hfst & Hmore) & Hkept).
  - intros n. cbn [fst snd List.map In]. split; [|intros []].
    intros Hn. exact (not_elem_of_empty n Hn).
  - constructor.
  - split; [exact Hnd|]. split; [|split; [exact Hkept|]].
    + intros e He. rewrite Hfst in He. cbn [fst app] in He.
      rewrite List.Forall_forall in Hmore. apply Hmore, He.
    + intros earlier later front back ->.
      rewrite !fold_left_app. cbn [fold_left fetchEndpoint].
      rewrite !keepEpisodes_reached, reached_until_null. reflexivity.
Qed.

Lemma splitFrom_pieces (sep : N) (s cur : jsstring) :
  Forall (fun u => u <> sep) cur ->
  Forall (Forall (fun u => u <> sep)) (splitFrom sep cur s).
Proof.
  revert cur. induction s as [|u s IH]; intros cur Hcur; cbn [splitFrom].
  - repeat constructor. apply Forall_rev, Hcur.
  - destruct (N.eqb_spec u sep) as [->|Hne].
    + constructor; [apply Forall_rev, Hcur | apply IH; constructor].
    + apply IH. constructor; assumption.
Qed.

Lemma splitFrom_first (sep : N) (s cur : jsstring) :
  exists piece rest, splitFrom sep cur s = piece :: rest.
Proof.
  revert cur. induction s as [|u s IH]; intros cur; cbn [splitFrom].
  - eauto.
  - destruct (u =? sep)%N; [eauto | apply IH].
Qed.

Lemma safeSlugOf_safe (slug : jsstring) :
  Forall (fun u => safeUnit u = true) (safeSlugOf slug).
Proof.
  unfold safeSlugOf. apply List.Forall_map.
  apply List.Forall_forall. intros u _.
  destruct (safeUnit u) eqn:Hu; [exact Hu | reflexivity].
Qed.

Lemma slugOf_nonempty (episode : APIEpisode) : slugOf episode <> [].
Proof.
  unfold slugOf.
  destruct (last (List.filter nonEmpty (splitOn slashUnit (ep_link episode))))
    as [slug|] eqn:Hlast; [|discriminate].
  apply last_Some in Hlast as [front Hfilter].
  assert (Hin : In slug (List.filter nonEmpty
                           (splitOn slashUnit (ep_link episode)))).
  { rewrite Hfilter. apply in_or_app. right. left. reflexivity. }
  apply filter_In in Hin as [_ Hne]. destruct slug; [discriminate|].
  discriminate.
Qed.

(** X21. The directory name [processEpisode] gives an episode: the slug
    part is never empty, is at most 60 code units long and holds letters,
    digits and hyphens only, whatever the link is; the date part holds no
    space; so the name holds a slash only if the date before its first space
    does. *)
Theorem episode_id_is_one_path_segment (episode : APIEpisode) :
  let safeSlug := safeSlugOf (slugOf episode) in
  (0 < length safeSlug <= 60)%nat /\
  Forall (fun u => safeUnit u = true) safeSlug /\
  Forall (fun u => u <> spaceUnit) (dateOf episode) /\
  (Forall (fun u => u <> slashUnit) (dateOf episode) ->
   Forall (fun u => u <> slashUnit) (episodeId episode)).
Proof.
  intros safeSlug.
  assert (Hsafe : Forall (fun u => safeUnit u = true) safeSlug)
    by apply safeSlugOf_safe.
  split; [|split; [exact Hsafe|split]].
  - unfold safeSlug, safeSlugOf. rewrite length_map, length_take.
    pose proof (slugOf_nonempty episode) as Hne.
    destruct (slugOf episode); [contradiction|]. cbn [length]. lia.
  - unfold dateOf, splitOn.
    pose proof (splitFrom_pieces spaceUnit (ep_date episode) []
                  ltac:(constructor)) as Hpieces.
    destruct (splitFrom spaceUnit [] (ep_date episode)); [constructor|].
    cbn [hd]. apply Forall_cons in Hpieces as [Hpiece _]. exact Hpiece.
  - intros Hdate. unfold episodeId. apply Forall_app. split; [exact Hdate|].
    apply Forall_app. split; [repeat constructor; discriminate|].
    eapply Forall_impl; [exact Hsafe|]. cbn beta. intros u Hu ->.
    discriminate.
Qed.

(* ===================================================================== *)
(** * Part III: the theorems at work on the reference platform           *)
(* ===================================================================== *)

(** The sample run: two speech chunks and a music chunk, then the merge,
    the index rebuild and the deletion of the music chunk. *)
Lemma speech_speech_music_merges_once_witness :
  exists s',
    run (H:=referencePlatform) "/data/live"
        (sampleArrivals ++ [Resume 0; Resume 0; Resume 0]%nat)
        (initialService sampleDisk) = Some s' /\
    mergeCalls s'
    = [ [ speechChunk "/data/chunks/chunk-20250101-100000.mp3" sampleStart1;
          speechChunk "/data/chunks/chunk-20250101-100200.mp3" sampleStart2 ] ] /\
    tasks s' = [] /\
    isFile (disk s') "/data/chunks/chunk-20250101-100400.mp3" = false.
Proof.
  destruct (speech_speech_music_merges_once (H:=referencePlatform)
              "/data/live" sampleDisk sampleBuffer sampleBuffer sampleBuffer
              "/data/chunks/chunk-20250101-100000.mp3"
              "/data/chunks/chunk-20250101-100200.mp3"
              "/data/chunks/chunk-20250101-100400.mp3"
              sampleStart1 sampleStart2 sampleStart3
              eq_refl eq_refl eq_refl
              ltac:(discriminate) ltac:(discriminate)) as [Hall _].
  set (final := default (initialService sampleDisk)
                  (run (H:=referencePlatform) "/data/live"
                     (sampleArrivals ++ [Resume 0; Resume 0; Resume 0]%nat)
                     (initialService sampleDisk))).
  assert (Hrun : run (H:=referencePlatform) "/data/live"
                   (sampleArrivals ++ [Resume 0; Resume 0; Resume 0]%nat)
                   (initialService sampleDisk) = Some final)
    by (vm_cast_no_check (eq_refl (Some final))).
  assert (Hdone : tasks final = [])
    by (vm_cast_no_check (eq_refl (@nil Task))).
  exists final. split; [exact Hrun|].
  destruct (Hall [Resume 0; Resume 0; Resume 0]%nat final eq_refl Hrun)
    as (Hcalls & _ & Hgone).
  split; [exact Hcalls|]. split; [exact Hdone|].
  apply Hgone. exact Hdone.
Defined.

Lemma at_most_one_merge_in_flight_witness :
  exists s,
    run (H:=referencePlatform) "/data/live"
        (sampleArrivals ++ [IdleFlushTick (sampleStart3 + 600000)])
        (initialService sampleDisk) = Some s /\
    (mergesInFlight s <= 1)%nat /\ isProcessing s = true.
Proof.
  set (reached := default (initialService sampleDisk)
                    (run (H:=referencePlatform) "/data/live"
                       (sampleArrivals ++ [IdleFlushTick (sampleStart3 + 600000)])
                       (initialService sampleDisk))).
  assert (Hrun : run (H:=referencePlatform) "/data/live"
                   (sampleArrivals ++ [IdleFlushTick (sampleStart3 + 600000)])
                   (initialService sampleDisk) = Some reached)
    by (vm_cast_no_check (eq_refl (Some reached))).
  assert (Hone : (0 < mergesInFlight reached)%nat)
    by (vm_cast_no_check (le_n 1)).
  exists reached. split; [exact Hrun|].
  destruct (at_most_one_merge_in_flight (H:=referencePlatform)
              "/data/live" sampleDisk
              (sampleArrivals ++ [IdleFlushTick (sampleStart3 + 600000)])
              reached Hrun) as (Hle & Hflag & _).
  split; [exact Hle|]. apply Hflag. exact Hone.
Defined.

(** Two speech chunks are queued and ten minutes pass. *)
Lemma idle_flush_merges_queue_like_music_boundary_witness :
  exists s1,
    step (H:=referencePlatform) "/data/live"
         (IdleFlushTick (sampleStart2 + 600000))
         {| pendingChunks :=
              [ speechChunk "/data/chunks/chunk-20250101-100000.mp3" sampleStart1;
                speechChunk "/data/chunks/chunk-20250101-100200.mp3" sampleStart2 ];
            isProcessing := false; tasks := []; disk := sampleDisk;
            mergeCalls := []; produced := [] |} = Some s1 /\
    mergeCalls s1
    = [ [ speechChunk "/data/chunks/chunk-20250101-100000.mp3" sampleStart1;
          speechChunk "/data/chunks/chunk-20250101-100200.mp3" sampleStart2 ] ] /\
    pendingChunks s1 = [].
Proof.
  destruct (idle_flush_merges_queue_like_music_boundary (H:=referencePlatform)
              "/data/live"
              {| pendingChunks :=
                   [ speechChunk "/data/chunks/chunk-20250101-100000.mp3" sampleStart1;
                     speechChunk "/data/chunks/chunk-20250101-100200.mp3" sampleStart2 ];
                 isProcessing := false; tasks := []; disk := sampleDisk;
                 mergeCalls := []; produced := [] |}
              [ speechChunk "/data/chunks/chunk-20250101-100000.mp3" sampleStart1 ]
              (speechChunk "/data/chunks/chunk-20250101-100200.mp3" sampleStart2)
              (sampleStart2 + 600000)
              eq_refl eq_refl ltac:(vm_compute; reflexivity))
    as (s1 & Hstep & Hcalls & Hempty & _).
  exists s1. split; [exact Hstep|]. split; [exact Hcalls | exact Hempty].
Defined.

Lemma speech_ratio_unit_interval_and_flag_witness :
  (getChunkSpeechRatio sampleBuffer sampleStart2 (sampleStart3 + 120000) == 1 # 3)%Q /\
  chunkHasSpeech sampleBuffer sampleStart2 (sampleStart3 + 120000) = true /\
  getChunkSpeechRatio sampleBuffer 0 1000 = 0%Q.
Proof.
  destruct (speech_ratio_unit_interval_and_flag sampleBuffer
              sampleStart2 (sampleStart3 + 120000)) as (_ & _ & _ & Hflag).
  destruct (speech_ratio_unit_interval_and_flag sampleBuffer 0 1000)
    as (_ & _ & Hnone & _).
  split; [reflexivity|]. split.
  - apply Hflag. reflexivity.
  - apply Hnone. reflexivity.
Defined.

Lemma poller_insert_keeps_retention_window_witness :
  nonDecreasing [speechSample 0; speechSample 1000; musicSample 500000] /\
  Forall (fun s => 1000000 - 15 * 60 * 1000 <= timestamp s)
    (metadataBuffer
       (pollerTick None 1000000 (isoString 1000000)
          {| metadataBuffer :=
               [speechSample 0; speechSample 1000; musicSample 500000];
             lastMetaStatus := music |})).
Proof.
  assert (Hsorted : nonDecreasing
            [speechSample 0; speechSample 1000; musicSample 500000]).
  { unfold nonDecreasing.
    repeat (constructor; [|repeat (constructor; simpl; try lia)]).
    constructor. }
  split; [exact Hsorted|].
  apply (poller_insert_keeps_retention_window None 1000000 (isoString 1000000)
           {| metadataBuffer :=
                [speechSample 0; speechSample 1000; musicSample 500000];
              lastMetaStatus := music |}).
  exact Hsorted.
Defined.

(** A merged file of 21,000,000 bytes is split in two; the second transcript
    is shifted by the 479.6 s the first sub-segment reports, not by the
    nominal 480 s. *)
Lemma transcribeAudio_offsets_by_reported_durations_witness :
  transcribeAudio (H:=referencePlatform) "/data/live/x/audio.mp3"
    {[ "/data/live/x/audio.mp3"%string := File sampleLongAudio ]}
  = (Ok [ {| seg_start := 0; seg_end := 2500; seg_text := [97%N] |};
          {| seg_start := 479600; seg_end := 482100; seg_text := [98%N] |} ],
     {[ "/data/live/x/audio.mp3"%string := File sampleLongAudio ]}).
Proof.
  pose proof (transcribeAudio_offsets_by_reported_durations
                (H:=referencePlatform)
                {[ "/data/live/x/audio.mp3"%string := File sampleLongAudio ]}
                "/data/live/x/audio.mp3" sampleLongAudio
                (lookup_singleton_eq _ _)) as [Hlarge _].
  assert (Hhead1 : replicate (Z.to_nat 19200000) Byte.x61
                   = Byte.x61 :: replicate (Z.to_nat 19199999) Byte.x61).
  { change 19200000 with (Z.succ 19199999).
    rewrite Z2Nat.inj_succ by lia. apply replicate_succ. }
  assert (Hhead2 : replicate (Z.to_nat 1800000) Byte.x62
                   = Byte.x62 :: replicate (Z.to_nat 1799999) Byte.x62).
  { change 1800000 with (Z.succ 1799999).
    rewrite Z2Nat.inj_succ by lia. apply replicate_succ. }
  rewrite (Hlarge
    [ replicate (Z.to_nat 19200000) Byte.x61;
      replicate (Z.to_nat 1800000) Byte.x62 ]
    [ {| r_duration := (4796 # 10)%Q;
         r_segments := [ {| g_start := 0%Q; g_end := (25 # 10)%Q;
                            g_text := [32%N; 97%N; 32%N] |} ] |};
      {| r_duration := (4796 # 10)%Q;
         r_segments := [ {| g_start := 0%Q; g_end := (25 # 10)%Q;
                            g_text := [32%N; 98%N; 32%N] |} ] |} ]).
  - f_equal.
  - unfold sampleLongAudio, MAX_FILE_SIZE.
    rewrite length_app, !length_replicate, Nat2Z.inj_add, !Z2Nat.id by lia.
    lia.
  - unfold sampleLongAudio. cbn [ffmpegSegment referencePlatform].
    unfold referenceSegmentBytes. change (480 * 40000) with 19200000.
    rewrite take_app_length', drop_app_length'
      by (rewrite length_replicate; reflexivity).
    reflexivity.
  - constructor; [|constructor; [|constructor]];
      cbn [groqTranscribe referencePlatform].
    + rewrite Hhead1. reflexivity.
    + rewrite Hhead2. reflexivity.
Defined.

Lemma watchdog_kills_iff_stalled_since_last_activity_witness :
  exists r,
    recorderRun [SegmentOpened 1000; SegmentOpened 121000] (initialRecorder 0)
    = Some r /\
    watchdogFires 421001 r = true /\
    killed (watchdog 421001 r) = [0%nat].
Proof.
  eexists. split; [reflexivity|].
  assert (Hchrono : chronological 0
                      [SegmentOpened 1000; SegmentOpened 121000] 421001).
  { unfold chronological. simpl.
    repeat (constructor; [|repeat (constructor; try lia)]). constructor. }
  destruct (watchdog_kills_iff_stalled_since_last_activity 0
              [SegmentOpened 1000; SegmentOpened 121000] 421001 _
              Hchrono eq_refl) as (Hiff & Hkill & _).
  assert (Hfires : watchdogFires 421001
            {| lastChunkTime := 121000; ffmpegProcess := Some 0%nat;
               spawned := 1; killed := []; restartTimers := 0 |} = true).
  { apply Hiff. split; [discriminate|].
    simpl. repeat (constructor; try lia). }
  split; [exact Hfires|].
  destruct (Hkill Hfires) as (pid & Hpid & Hkilled & _).
  injection Hpid as <-. exact Hkilled.
Defined.

Lemma generateTitle_first_words_and_marker_witness :
  generateTitle fifteenWords 10
  = js "eins zwei drei vier fuenf sechs sieben acht neun zehn..." /\
  generateTitle fiveWords 10 = js "Guten Morgen liebe Hoererinnen und".
Proof.
  destruct (generateTitle_first_words_and_marker fifteenWords 10
              ltac:(lia)) as [Hmore _].
  destruct (generateTitle_first_words_and_marker fiveWords 10
              ltac:(lia)) as [_ Hfew].
  split.
  - rewrite Hmore by (vm_compute; reflexivity). reflexivity.
  - rewrite Hfew by (vm_compute; discriminate). reflexivity.
Defined.

(** One truncated record and two valid ones: the manifest holds the two
    valid ones, latest first. *)
Lemma updateLiveIndex_keeps_exactly_parsable_records_witness :
  exists manifest,
    updateLiveIndex (H:=referencePlatform) "/data/live" sampleLiveDisk
    = (Ok tt, <["/data/live/index.json"%string :=
                  File (stringifyIndex (Platform:=referencePlatform) manifest)]>
                sampleLiveDisk) /\
    length manifest = 2%nat /\
    StronglySorted (descending (H:=referencePlatform)) manifest /\
    Permutation
      (List.map (timestampOf (Platform:=referencePlatform)) manifest)
      [ Timestamp "2025-03-01T10:00:00.000Z";
        Timestamp "2025-01-01T10:00:00.000Z" ].
Proof.
  destruct (updateLiveIndex_keeps_exactly_parsable_records
              (H:=referencePlatform) "/data/live" sampleLiveDisk
              eq_refl eq_refl)
    as (manifest & Hwritten & Hperm & Hsorted).
  - vm_compute. repeat constructor.
  - exists manifest. split; [exact Hwritten|]. split; [|split].
    + rewrite (Permutation_length Hperm). vm_compute. reflexivity.
    + exact Hsorted.
    + rewrite (Permutation_map _ Hperm). vm_compute. reflexivity.
Defined.

(** ** The further properties at work *)

(** Three failed fetches, the last one more than 15 minutes after the
    first. *)
Lemma poller_run_keeps_buffer_ordered_and_recent_witness :
  Forall (fun s => 1000000 - 15 * 60 * 1000 <= timestamp s <= 1000000)
    (metadataBuffer
       (pollerRun (H:=referencePlatform)
          [(None, 0); (None, 500000); (None, 1000000)] initialSampler)).
Proof.
  apply (poller_run_keeps_buffer_ordered_and_recent (H:=referencePlatform)
           [(None, 0); (None, 500000)] None 1000000).
  simpl. repeat (constructor; [|repeat (constructor; simpl; try lia)]).
  constructor.
Defined.

Lemma poller_tick_evicts_exactly_the_old_witness :
  metadataBuffer
    (pollerTick None 1000000 (isoString 1000000)
       {| metadataBuffer :=
            [speechSample 0; speechSample 1000; musicSample 500000];
          lastMetaStatus := music |})
  = [musicSample 500000; speechSample 1000000].
Proof.
  rewrite (poller_tick_evicts_exactly_the_old None 1000000 (isoString 1000000)
             {| metadataBuffer :=
                  [speechSample 0; speechSample 1000; musicSample 500000];
                lastMetaStatus := music |}).
  - reflexivity.
  - unfold nonDecreasing. simpl.
    repeat (constructor; [|repeat (constructor; simpl; try lia)]).
    constructor.
Defined.

(** A body with an empty artist, while music was playing. *)
Lemma failed_fetch_counts_as_speech_witness :
  chunkHasSpeech
    (metadataBuffer
       (pollerTick (Some {| np_artist := Some []; np_title := None |})
          (sampleStart3 + 62000) (isoString (sampleStart3 + 62000))
          {| metadataBuffer := sampleBuffer; lastMetaStatus := music |}))
    sampleStart3 (sampleStart3 + 120000) = true.
Proof.
  apply (failed_fetch_counts_as_speech
           (Some {| np_artist := Some []; np_title := None |})
           (sampleStart3 + 62000) (isoString (sampleStart3 + 62000))
           {| metadataBuffer := sampleBuffer; lastMetaStatus := music |}
           sampleStart3 (sampleStart3 + 120000)).
  - right. eexists. split; [reflexivity|]. right. reflexivity.
  - unfold sampleStart3. lia.
Defined.

Lemma mergeTranscripts_shifts_by_earlier_durations_witness :
  mergeTranscripts [fiveWords; fifteenWords] [4000]
  = List.map exactSegment
      (fiveWords ++ List.map (shiftSegment 4000) fifteenWords).
Proof.
  rewrite (mergeTranscripts_shifts_by_earlier_durations
             [fiveWords; fifteenWords] [4000]) by (simpl; lia).
  reflexivity.
Defined.

Lemma mergeTranscripts_missing_durations_give_nan_witness :
  mergeTranscripts [fiveWords; fifteenWords] []
  = List.map exactSegment fiveWords ++ List.map nanSegment fifteenWords.
Proof.
  exact (mergeTranscripts_missing_durations_give_nan
           [fiveWords] [fifteenWords] [] eq_refl).
Defined.

Lemma sampleLongAudio_large : MAX_FILE_SIZE < Z.of_nat (length sampleLongAudio).
Proof.
  unfold sampleLongAudio, MAX_FILE_SIZE.
  rewrite length_app, !length_replicate, Nat2Z.inj_add, !Z2Nat.id by lia.
  lia.
Defined.

Lemma sampleLongAudio_split :
  ffmpegSegment (Platform:=referencePlatform) sampleLongAudio
  = Some sampleSubSegments.
Proof.
  unfold sampleLongAudio. cbn [ffmpegSegment referencePlatform].
  unfold referenceSegmentBytes. change (480 * 40000) with 19200000.
  rewrite take_app_length', drop_app_length'
    by (rewrite length_replicate; reflexivity).
  reflexivity.
Defined.

Lemma sampleSubSegments_heard :
  Forall2 (fun chunkFile r =>
             groqTranscribe (Platform:=referencePlatform) chunkFile = Some r)
          sampleSubSegments sampleSubResults.
Proof.
  assert (Hhead1 : replicate (Z.to_nat 19200000) Byte.x61
                   = Byte.x61 :: replicate (Z.to_nat 19199999) Byte.x61).
  { change 19200000 with (Z.succ 19199999).
    rewrite Z2Nat.inj_succ by lia. apply replicate_succ. }
  assert (Hhead2 : replicate (Z.to_nat 1800000) Byte.x62
                   = Byte.x62 :: replicate (Z.to_nat 1799999) Byte.x62).
  { change 1800000 with (Z.succ 1799999).
    rewrite Z2Nat.inj_succ by lia. apply replicate_succ. }
  unfold sampleSubSegments, sampleSubResults.
  constructor; [|constructor; [|constructor]];
    cbn [groqTranscribe referencePlatform].
  - rewrite Hhead1. reflexivity.
  - rewrite Hhead2. reflexivity.
Defined.

Lemma transcribeAudio_agrees_with_mergeTranscripts_witness :
  exists transcript,
    transcribeAudio (H:=referencePlatform) "/data/live/x/audio.mp3"
      {[ "/data/live/x/audio.mp3"%string := File sampleLongAudio ]}
    = (Ok transcript,
       {[ "/data/live/x/audio.mp3"%string := File sampleLongAudio ]}) /\
    List.map exactSegment transcript
    = mergeTranscripts
        [ [ {| seg_start := 0; seg_end := 2500; seg_text := [97%N] |} ];
          [ {| seg_start := 0; seg_end := 2500; seg_text := [98%N] |} ] ]
        [479600; 479600].
Proof.
  exact (transcribeAudio_agrees_with_mergeTranscripts (H:=referencePlatform)
           {[ "/data/live/x/audio.mp3"%string := File sampleLongAudio ]}
           "/data/live/x/audio.mp3" sampleLongAudio
           sampleSubSegments sampleSubResults
           (lookup_singleton_eq _ _) sampleLongAudio_large
           sampleLongAudio_split sampleSubSegments_heard).
Defined.

Lemma transcribeAudio_keeps_segments_ordered_witness :
  exists transcript,
    transcribeAudio (H:=referencePlatform) "/data/live/x/audio.mp3"
      {[ "/data/live/x/audio.mp3"%string := File sampleLongAudio ]}
    = (Ok transcript,
       {[ "/data/live/x/audio.mp3"%string := File sampleLongAudio ]}) /\
    StronglySorted (fun a b => seg_start a <= seg_start b) transcript /\
    Forall (fun s => 0 <= seg_start s <= seg_end s) transcript.
Proof.
  apply (transcribeAudio_keeps_segments_ordered (H:=referencePlatform)
           {[ "/data/live/x/audio.mp3"%string := File sampleLongAudio ]}
           "/data/live/x/audio.mp3" sampleLongAudio
           sampleSubSegments sampleSubResults
           (lookup_singleton_eq _ _) sampleLongAudio_large
           sampleLongAudio_split sampleSubSegments_heard).
  unfold sampleSubResults, wellTimed.
  repeat constructor; vm_compute; discriminate.
Defined.

(** The two speech chunks of the sample disk: the reference tool opens
    both and exits with code 0. *)
Lemma mergeAudioFiles_resolves_on_exit_code_zero_witness :
  mergeAudioFiles (H:=referencePlatform)
    [ "/data/chunks/chunk-20250101-100000.mp3";
      "/data/chunks/chunk-20250101-100200.mp3" ]%string
    "/data/live/audio.mp3" sampleDisk
  = (Ok tt,
     <["/data/live/audio.mp3"%string := File [Byte.x61; Byte.x61; Byte.x62]]>
       (delete "/data/live/audio.mp3.txt"%string sampleDisk)).
Proof.
  apply (mergeAudioFiles_resolves_on_exit_code_zero
           (H:=referencePlatform)
           "/data/chunks/chunk-20250101-100000.mp3"
           "/data/chunks/chunk-20250101-100200.mp3" []
           "/data/live/audio.mp3" sampleDisk
           (Some [Byte.x61; Byte.x61; Byte.x62])).
  - vm_compute. reflexivity.
  - vm_compute. reflexivity.
  - vm_compute. reflexivity.
  - vm_compute. reflexivity.
  - vm_compute. reflexivity.
Defined.

(** The first input was never recorded: the reference tool exits with
    code 1. *)
Lemma mergeAudioFiles_rejects_unless_exit_code_zero_witness :
  exists fs',
    mergeAudioFiles (H:=referencePlatform)
      [ "/data/chunks/chunk-20250101-095800.mp3";
        "/data/chunks/chunk-20250101-100000.mp3" ]%string
      "/data/live/audio.mp3" sampleDisk
    = (Err FfmpegFailed, fs') /\
    fs' !! "/data/live/audio.mp3.txt"%string = None /\
    fs' !! "/data/live/audio.mp3"%string = None.
Proof.
  destruct (mergeAudioFiles_rejects_unless_exit_code_zero
              (H:=referencePlatform)
              "/data/chunks/chunk-20250101-095800.mp3"
              "/data/chunks/chunk-20250101-100000.mp3" []
              "/data/live/audio.mp3" sampleDisk (Exited 1) None)
    as (fs' & Hmerge & Hlist & _ & Hout & _).
  - vm_compute. reflexivity.
  - vm_compute. reflexivity.
  - vm_compute. reflexivity.
  - discriminate.
  - exists fs'. split; [exact Hmerge|]. split; [exact Hlist|].
    rewrite (Hout eq_refl). vm_compute. reflexivity.
Defined.

Lemma mergeBroadcast_resolves_to_complete_record_witness :
  exists b,
    fst (mergeBroadcast (H:=referencePlatform) sampleSpeechChunks "/data/live"
           sampleDisk) = Ok (Some b) /\
    b_id b = "2025-01-01T10-00-00-000Z"%string /\
    b_duration b = 240000.
Proof.
  set (outcome := mergeBroadcast (H:=referencePlatform) sampleSpeechChunks
                    "/data/live" sampleDisk).
  set (result := match fst outcome with Ok r => r | Err _ => None end).
  assert (Hmerge : mergeBroadcast (H:=referencePlatform) sampleSpeechChunks
                     "/data/live" sampleDisk = (Ok result, snd outcome))
    by (vm_cast_no_check (eq_refl (Ok result, snd outcome))).
  destruct (mergeBroadcast_resolves_to_complete_record (H:=referencePlatform)
              (speechChunk "/data/chunks/chunk-20250101-100000.mp3" sampleStart1)
              [speechChunk "/data/chunks/chunk-20250101-100200.mp3" sampleStart2]
              "/data/live" sampleDisk (snd outcome) result Hmerge)
    as (b & Hb & Htime & Hid & _ & Hduration & _).
  exists b. split; [|split].
  - fold outcome in Hmerge. rewrite Hmerge, Hb. reflexivity.
  - rewrite Hid, Htime. vm_compute. reflexivity.
  - rewrite Hduration. reflexivity.
Defined.

(** The merge fails on the chunk that was never recorded; the other chunk
    is still on the disk. *)
Lemma mergeBroadcast_failure_keeps_files_witness :
  snd (mergeBroadcast (H:=referencePlatform) sampleLostChunks "/data/live"
         sampleDisk)
    !! "/data/chunks/chunk-20250101-100000.mp3"%string
  = Some (File [Byte.x61; Byte.x61]).
Proof.
  set (outcome := mergeBroadcast (H:=referencePlatform) sampleLostChunks
                    "/data/live" sampleDisk).
  assert (Hmerge : mergeBroadcast (H:=referencePlatform) sampleLostChunks
                     "/data/live" sampleDisk = (Err FfmpegFailed, snd outcome))
    by (vm_cast_no_check (eq_refl (Err (A:=option LiveBroadcast) FfmpegFailed,
                                   snd outcome))).
  apply (mergeBroadcast_failure_keeps_files (H:=referencePlatform)
           (speechChunk "/data/chunks/chunk-20250101-095800.mp3"
                        (sampleStart1 - 120000))
           [speechChunk "/data/chunks/chunk-20250101-100000.mp3" sampleStart1]
           "/data/live" sampleDisk (snd outcome) FfmpegFailed
           "/data/chunks/chunk-20250101-100000.mp3" [Byte.x61; Byte.x61] Hmerge).
  - vm_compute. reflexivity.
  - vm_compute. discriminate.
  - vm_compute. discriminate.
Defined.

(** The sample run, halted while the merge is awaited. *)
Lemma assembler_hands_every_speech_chunk_to_one_merge_witness :
  exists s,
    run (H:=referencePlatform) "/data/live" sampleArrivals
        (initialService sampleDisk) = Some s /\
    concat (mergeCalls s) ++ pendingChunks s = sampleSpeechChunks.
Proof.
  set (reached := default (initialService sampleDisk)
                    (run (H:=referencePlatform) "/data/live" sampleArrivals
                       (initialService sampleDisk))).
  assert (Hrun : run (H:=referencePlatform) "/data/live" sampleArrivals
                   (initialService sampleDisk) = Some reached)
    by (vm_cast_no_check (eq_refl (Some reached))).
  exists reached. split; [exact Hrun|].
  rewrite (assembler_hands_every_speech_chunk_to_one_merge
             (H:=referencePlatform) "/data/live" sampleDisk sampleArrivals
             reached Hrun).
  reflexivity.
Defined.

Lemma flag_is_always_released_witness :
  exists s resumes s',
    run (H:=referencePlatform) "/data/live" sampleArrivals
        (initialService sampleDisk) = Some s /\
    isProcessing s = true /\
    (length resumes <= 2)%nat /\
    run (H:=referencePlatform) "/data/live" resumes s = Some s' /\
    isProcessing s' = false.
Proof.
  set (reached := default (initialService sampleDisk)
                    (run (H:=referencePlatform) "/data/live" sampleArrivals
                       (initialService sampleDisk))).
  assert (Hrun : run (H:=referencePlatform) "/data/live" sampleArrivals
                   (initialService sampleDisk) = Some reached)
    by (vm_cast_no_check (eq_refl (Some reached))).
  assert (Hflag : isProcessing reached = true)
    by (vm_cast_no_check (eq_refl true)).
  destruct (flag_is_always_released (H:=referencePlatform) "/data/live"
              sampleDisk sampleArrivals reached Hrun) as [_ Hreleased].
  destruct (Hreleased Hflag) as (resumes & s' & _ & Hlen & Hrest & Hdown).
  exists reached, resumes, s'.
  split; [exact Hrun|]. split; [exact Hflag|]. split; [exact Hlen|].
  split; [exact Hrest | exact Hdown].
Defined.

(** The sample run with its merge brought to its end: one broadcast of four
    minutes. *)
Lemma produced_broadcasts_last_as_long_as_their_chunks_witness :
  exists s,
    run (H:=referencePlatform) "/data/live"
        (sampleArrivals ++ [Resume 0; Resume 0; Resume 0]%nat)
        (initialService sampleDisk) = Some s /\
    length (produced s) = 1%nat /\
    Forall (fun b => exists n, b_duration b = 120 * 1000 * Z.of_nat n)
           (produced s).
Proof.
  set (final := default (initialService sampleDisk)
                  (run (H:=referencePlatform) "/data/live"
                     (sampleArrivals ++ [Resume 0; Resume 0; Resume 0]%nat)
                     (initialService sampleDisk))).
  assert (Hrun : run (H:=referencePlatform) "/data/live"
                   (sampleArrivals ++ [Resume 0; Resume 0; Resume 0]%nat)
                   (initialService sampleDisk) = Some final)
    by (vm_cast_no_check (eq_refl (Some final))).
  assert (Hone : length (produced final) = 1%nat)
    by (vm_cast_no_check (eq_refl 1%nat)).
  exists final. split; [exact Hrun|]. split; [exact Hone|].
  eapply Forall_impl;
    [exact (produced_broadcasts_last_as_long_as_their_chunks
              (H:=referencePlatform) "/data/live" sampleDisk
              (sampleArrivals ++ [Resume 0; Resume 0; Resume 0]%nat)
              final Hrun)|].
  cbn beta. intros b (firstChunk & rest & _ & Hduration & _).
  eexists. exact Hduration.
Defined.

(** The standard error of the recording of the three sample chunks: the
    first two are handed on, each once, when the next one is opened. *)
Lemma chunk_files_are_processed_at_most_once_witness :
  exists sc calls,
    scan sampleLocalTime "/data/chunks" sampleStderr initialScanner
    = Some (sc, calls) /\
    List.map fst calls
    = [ "/data/chunks/chunk-20250101-100000.mp3";
        "/data/chunks/chunk-20250101-100200.mp3" ]%string /\
    List.NoDup (List.map fst calls).
Proof.
  set (outcome := default (initialScanner, [])
                    (scan sampleLocalTime "/data/chunks" sampleStderr
                       initialScanner)).
  assert (Hscan : scan sampleLocalTime "/data/chunks" sampleStderr
                    initialScanner = Some (fst outcome, snd outcome))
    by (vm_cast_no_check (eq_refl (Some (fst outcome, snd outcome)))).
  assert (Hcalls : List.map fst (snd outcome)
                   = [ "/data/chunks/chunk-20250101-100000.mp3";
                       "/data/chunks/chunk-20250101-100200.mp3" ]%string)
    by (vm_cast_no_check
          (eq_refl [ "/data/chunks/chunk-20250101-100000.mp3";
                     "/data/chunks/chunk-20250101-100200.mp3" ]%string)).
  exists (fst outcome), (snd outcome).
  split; [exact Hscan|]. split; [exact Hcalls|].
  apply (chunk_files_are_processed_at_most_once sampleLocalTime "/data/chunks"
           sampleStderr (fst outcome) (snd outcome) Hscan).
Defined.

(** The second chunk is opened while the first one is in the directory:
    the first one is handed on with the instant its name spells. *)
Lemma opening_completes_the_other_chunks_witness :
  exists sc' calls,
    onStderr sampleLocalTime "/data/chunks" (sampleDiskAt 2) sampleStart2
      "[segment @ 0x55d0] Opening '/data/chunks/chunk-20250101-100200.mp3' for writing"
      {| completedSegments := ∅; currentSegmentStart := Some sampleStart1 |}
    = Some (sc', calls) /\
    currentSegmentStart sc' = Some sampleStart2 /\
    In ("/data/chunks/chunk-20250101-100000.mp3"%string,
        sampleLocalTime 2025 0 1 10 0 0) calls.
Proof.
  set (entries := match fst (readdir "/data/chunks" (sampleDiskAt 2)) with
                  | Ok entries => entries
                  | Err _ => []
                  end).
  assert (Hdir : readdir "/data/chunks" (sampleDiskAt 2)
                 = (Ok entries, sampleDiskAt 2))
    by (vm_cast_no_check (eq_refl (Ok entries, sampleDiskAt 2))).
  destruct (opening_completes_the_other_chunks sampleLocalTime "/data/chunks"
              (sampleDiskAt 2) sampleStart2
              "[segment @ 0x55d0] Opening '/data/chunks/chunk-20250101-100200.mp3' for writing"
              {| completedSegments := ∅;
                 currentSegmentStart := Some sampleStart1 |}
              "/data/chunks/chunk-20250101-100200.mp3"
              ltac:(vm_compute; reflexivity)) as [_ Hnext].
  destruct (Hnext sampleStart1 entries eq_refl ltac:(cbn [completedSegments]; apply not_elem_of_empty) Hdir)
    as (sc' & calls & Hstep & Hstart & _ & Hcalls & _).
  exists sc', calls. split; [exact Hstep|]. split; [exact Hstart|].
  apply (Hcalls "chunk-20250101-100000.mp3"
           {| cs_year := 2025; cs_month := 1; cs_day := 1;
              cs_hours := 10; cs_minutes := 0; cs_seconds := 0 |}).
  - vm_compute. tauto.
  - vm_compute. reflexivity.
  - cbn [completedSegments]. apply not_elem_of_empty.
  - vm_compute. reflexivity.
Defined.

Lemma chunk_name_reads_back_witness :
  matchStamp "chunk-20250101-100200.mp3"
  = Some {| cs_year := 2025; cs_month := 1; cs_day := 1;
            cs_hours := 10; cs_minutes := 2; cs_seconds := 0 |}.
Proof.
  apply (chunk_name_reads_back
           {| cs_year := 2025; cs_month := 1; cs_day := 1;
              cs_hours := 10; cs_minutes := 2; cs_seconds := 0 |});
    simpl; lia.
Defined.

(** The merge of the two sample chunks, then the rebuild of the index. *)
Lemma merged_broadcast_enters_the_index_witness :
  exists manifest,
    fst (updateLiveIndex (H:=referencePlatform) "/data/live"
           (snd (mergeBroadcast (H:=referencePlatform) sampleSpeechChunks
                   "/data/live" sampleDisk))) = Ok tt /\
    In (Timestamp "2025-01-01T10:00:00.000Z")
       (List.map (timestampOf (Platform:=referencePlatform)) manifest) /\
    StronglySorted (descending (H:=referencePlatform)) manifest.
Proof.
  set (outcome := mergeBroadcast (H:=referencePlatform) sampleSpeechChunks
                    "/data/live" sampleDisk).
  set (b := match fst outcome with
            | Ok (Some b) => b
            | _ => broadcastOf (H:=referencePlatform) [] 
                     (speechChunk "" 0) []
            end).
  assert (Hmerge : mergeBroadcast (H:=referencePlatform) sampleSpeechChunks
                     "/data/live" sampleDisk = (Ok (Some b), snd outcome))
    by (vm_cast_no_check (eq_refl (Ok (Some b), snd outcome))).
  destruct (merged_broadcast_enters_the_index (H:=referencePlatform)
              (speechChunk "/data/chunks/chunk-20250101-100000.mp3" sampleStart1)
              [speechChunk "/data/chunks/chunk-20250101-100200.mp3" sampleStart2]
              "/data/live" sampleDisk (snd outcome) b
              (RefObject (Some "2025-01-01T10:00:00.000Z"%string))
              Hmerge)
    as (manifest & Hindex & Hin & Hsorted).
  - vm_compute. reflexivity.
  - vm_compute. reflexivity.
  - vm_compute. intros [Heq|[Heq|[]]]; discriminate.
  - vm_cast_no_check (eq_refl false).
  - vm_cast_no_check
      (eq_refl (Some (RefObject (Some "2025-01-01T10:00:00.000Z"%string)))).
  - vm_compute. repeat constructor.
  - exists manifest. split; [|split; [|exact Hsorted]].
    + fold outcome in Hindex |- *. rewrite Hindex. reflexivity.
    + apply in_map_iff. eexists. split; [|exact Hin]. reflexivity.
Defined.

(** The episode after the [null] of the first answer is lost; the failed
    endpoint and the repeated episode change nothing. *)
Lemma fetchEpisodes_keeps_one_episode_per_id_witness :
  List.map ep_id (fetchEpisodes sampleAnswers) = [1; 2] /\
  fetchEpisodes sampleAnswers
  = fetchEpisodes
      [ Some [Entry (sampleEpisode 1)]; None;
        Some [NotAnObject; Entry (sampleEpisode 1); Entry (sampleEpisode 2)] ].
Proof.
  destruct (fetchEpisodes_keeps_one_episode_per_id sampleAnswers)
    as (_ & _ & _ & Hdropped).
  split; [vm_compute; reflexivity|].
  exact (Hdropped []
           [ None;
             Some [NotAnObject; Entry (sampleEpisode 1);
                   Entry (sampleEpisode 2)] ]
           [Entry (sampleEpisode 1)] [Entry (sampleEpisode 5)] eq_refl).
Defined.
